(** * AudioCryptor: LSB audio steganography, header codec and bit packer

    A shallow embedding of [utils/errors.py], [utils/bytes.py],
    [utils/password_generator.py], [services/crypto.py] and
    [services/stego.py], and of what the encode and decode tabs compute,
    with the properties of the container format proved over it.

    Conventions.
    - Python [int] is [Z]; [bytes] is [list byte]; a list of bits is a
      [list Z], as [BitPacker] has it ([List[int]]).
    - A raised exception is the [Raise] branch of [outcome]; the handlers
      [except Exception as e: raise StegoError(f"...: {str(e)}")] that close
      every method are written out with [reraise].
    - numpy arrays live in a store of sample buffers ([heap]); an [ndarray]
      is a view: the buffer it reads and writes, and its shape.
    - A sample is an integer; the loader hands over 16-bit samples, and for
      [lsb_bits] 1 and 2 a rewritten 16-bit sample is again one
      ([set_lsb_int16]), so storing it never wraps. *)

From Stdlib Require Import ZArith Lia ZifyNat.
From Stdlib.Strings Require Import String Ascii Byte.
From stdpp Require Import base tactics option list numbers.

Local Open Scope Z_scope.
Set Default Proof Using "Type".

(** ** utils/errors.py and the built-in exceptions the services meet *)

(** [StegoError(message)] keeps its message.  The messages are f-strings; the
    interpolated values are kept as such rather than printed, and
    [Because p e] stands for [f"{p}: {str(e)}"]. *)
Inductive exn : Type :=
  | StegoError (m : msg)
  | IndexError (index size : Z)     (* numpy: index out of bounds for axis 0 *)
  | StructError                     (* struct.error *)
  | ValueError                      (* byte must be in range(0, 256); negative shift count *)
  | InvalidTag                      (* cryptography.exceptions.InvalidTag *)
  | UnicodeDecodeError
with msg : Type :=
  | Text (s : string)
  | InsufficientCapacity (required_bits available_bits : Z)
  | UnsupportedVersion (version : Z)
  | InvalidLsbBits (lsb_bits : Z)
  | Because (prefix : string) (cause : exn).

Inductive outcome (A : Type) : Type :=
  | Return (a : A)
  | Raise (e : exn).
Arguments Return {A} a.
Arguments Raise {A} e.

#[global] Instance outcome_ret : MRet outcome := fun A a => Return a.
#[global] Instance outcome_bind : MBind outcome := fun A B f m =>
  match m with
  | Return a => f a
  | Raise e => Raise e
  end.

(** [try: body except Exception as e: raise StegoError(f"{prefix}: {str(e)}")] *)
Definition reraise {A} (prefix : string) (body : outcome A) : outcome A :=
  match body with
  | Return a => Return a
  | Raise e => Raise (StegoError (Because prefix e))
  end.

(** ** Bytes *)

#[global] Instance byte_eq_decision : EqDecision byte := Byte.byte_eq_dec.

Definition byte_to_Z (b : byte) : Z := Z.of_N (Byte.to_N b).

(** What [bytearray.append] and the [B] format of [struct] accept. *)
Definition byte_of_Z (z : Z) : option byte :=
  if (0 <=? z) && (z <? 256) then Byte.of_N (Z.to_N z) else None.

(** [int.from_bytes(bs, 'big')] *)
Definition int_from_bytes_big (bs : list byte) : Z :=
  fold_left (fun acc b => acc * 256 + byte_to_Z b) bs 0.

(** [range(n)] and [range(0, n, 8)] *)
Definition range (n : nat) : list nat := seq 0 n.
Definition range8 (n : nat) : list nat := (fun k => (8 * k)%nat) <$> seq 0 ((n + 7) / 8)%nat.

(** ** utils/bytes.py *)

Module BitPacker.

Definition bit_of (byte : Z) (i : nat) : Z :=
  Z.land (Z.shiftr byte (7 - Z.of_nat i)) 1.

(** [bytes_to_bits]: for each byte, for i in range(8), append
    [(byte >> (7 - i)) & 1]. *)
Definition bytes_to_bits (data : list byte) : list Z :=
  flat_map (fun byte => bit_of (byte_to_Z byte) <$> range 8) data.

(** [while len(bits) % 8 != 0: bits.append(0)].  At most seven zeros are
    ever appended, so eight rounds are enough ([pad_loop_multiple] below
    shows that the loop has left by its test, not by its bound). *)
Fixpoint pad_loop (rounds : nat) (bits : list Z) : list Z :=
  match rounds with
  | O => bits
  | S rounds' =>
      if (length bits mod 8 =? 0)%nat then bits
      else pad_loop rounds' (bits ++ [0])
  end.

Definition pad (bits : list Z) : list Z := pad_loop 8 bits.

(** The inner loop: [byte |= bits[i + j] << (7 - j)] for j in range(8),
    guarded by [i + j < len(bits)]. *)
Definition pack_byte (bits : list Z) (i : nat) : Z :=
  fold_left
    (fun byte j =>
       match bits !! (i + j)%nat with
       | Some b => Z.lor byte (Z.shiftl b (7 - Z.of_nat j))
       | None => byte
       end)
    (range 8) 0.

Definition bytearray_append (acc : list byte) (v : Z) : outcome (list byte) :=
  match byte_of_Z v with
  | Some b => Return (acc ++ [b])
  | None => Raise ValueError
  end.

(** [for i in range(0, len(bits), 8): ...; bytes_data.append(byte)] *)
Fixpoint pack_loop (bits : list Z) (starts : list nat) (bytes_data : list byte)
  : outcome (list byte) :=
  match starts with
  | [] => Return bytes_data
  | i :: starts' =>
      bytes_data' ← bytearray_append bytes_data (pack_byte bits i);
      pack_loop bits starts' bytes_data'
  end.

Definition bits_to_bytes (bits : list Z) : outcome (list byte) :=
  let bits := pad bits in
  pack_loop bits (range8 (length bits)) [].

(** [int_to_bits]: for i in range(bit_count), append
    [(value >> (bit_count - 1 - i)) & 1]; a [bit_count] below one gives the
    empty range. *)
Definition int_to_bits (value bit_count : Z) : list Z :=
  (fun i => Z.land (Z.shiftr value (bit_count - 1 - Z.of_nat i)) 1)
    <$> range (Z.to_nat bit_count).

(** [bits_to_int]: [value |= bit << (len(bits) - 1 - i)] over
    [enumerate(bits)]. *)
Definition bits_to_int (bits : list Z) : Z :=
  fold_left
    (fun value '(i, bit) =>
       Z.lor value (Z.shiftl bit (Z.of_nat (length bits) - 1 - Z.of_nat i)))
    (zip (seq 0 (length bits)) bits) 0.

End BitPacker.

(** [zlib.crc32]: the CRC-32 of zip and gzip, reflected polynomial
    0xEDB88320, initial value and final xor 0xFFFFFFFF, bit by bit. *)
Definition crc32_shift (crc : Z) : Z :=
  if Z.testbit crc 0 then Z.lxor (Z.shiftr crc 1) 0xEDB88320 else Z.shiftr crc 1.

Definition crc32_byte (crc : Z) (b : byte) : Z :=
  Nat.iter 8 crc32_shift (Z.lxor crc (byte_to_Z b)).

Definition zlib_crc32 (data : list byte) : Z :=
  Z.lxor (fold_left crc32_byte data 0xFFFFFFFF) 0xFFFFFFFF.

Definition calculate_crc32 (data : list byte) : Z :=
  Z.land (zlib_crc32 data) 0xffffffff.


(** ** struct: the formats the header uses, big-endian, no padding *)

Definition byte_trunc (z : Z) : byte :=
  default x00 (Byte.of_N (Z.to_N (z mod 256))).

(** [n]s: the bytes, cut or filled with zero bytes to [n]. *)
Definition pack_s (n : nat) (b : list byte) : list byte :=
  take n b ++ replicate (n - length b) x00.

(** [B]: one unsigned byte; a value outside 0..255 is a [struct.error]. *)
Definition pack_B (v : Z) : outcome (list byte) :=
  match byte_of_Z v with
  | Some b => Return [b]
  | None => Raise StructError
  end.

(** [>I]: four bytes, most significant first; outside 0..2^32-1 is a
    [struct.error]. *)
Definition pack_I (v : Z) : outcome (list byte) :=
  if (0 <=? v) && (v <? 2 ^ 32) then
    Return [byte_trunc (Z.shiftr v 24); byte_trunc (Z.shiftr v 16);
            byte_trunc (Z.shiftr v 8); byte_trunc v]
  else Raise StructError.

(** [struct.unpack('>I', buf)[0]]: the buffer must hold four bytes. *)
Definition unpack_I (buf : list byte) : outcome Z :=
  if (length buf =? 4)%nat then Return (int_from_bytes_big buf)
  else Raise StructError.

(** [struct.pack('>4s B B 16s 12s I', ...)] *)
Definition pack_header (magic : list byte) (version flags : Z)
    (salt nonce : list byte) (payload_length : Z) : outcome (list byte) :=
  v ← pack_B version;
  f ← pack_B flags;
  n ← pack_I payload_length;
  mret (pack_s 4 magic ++ v ++ f ++ pack_s 16 salt ++ pack_s 12 nonce ++ n).

(** [struct.unpack('>4s B B 16s 12s I', buf)]: the buffer must hold 38 bytes. *)
Definition unpack_header (buf : list byte)
  : outcome (list byte * Z * Z * list byte * list byte * Z) :=
  if (length buf =? 38)%nat then
    Return (take 4 buf,
            byte_to_Z (default x00 (buf !! 4%nat)),
            byte_to_Z (default x00 (buf !! 5%nat)),
            take 16 (drop 6 buf),
            take 12 (drop 22 buf),
            int_from_bytes_big (drop 34 buf))
  else Raise StructError.

(** ** utils/bytes.py: the helpers beside the packer and the checksum *)

(** [bytes(ints)]: every value must be in range(0, 256). *)
Fixpoint bytes_of_ints (ints : list Z) : outcome (list byte) :=
  match ints with
  | [] => Return []
  | v :: ints' =>
      match byte_of_Z v with
      | Some b => bs ← bytes_of_ints ints'; mret (b :: bs)
      | None => Raise ValueError
      end
  end.

(** [xor_bytes]: [bytes(a ^ b for a, b in zip(data1, data2))] *)
Definition xor_bytes (data1 data2 : list byte) : outcome (list byte) :=
  bytes_of_ints ((fun '(a, b) => Z.lxor (byte_to_Z a) (byte_to_Z b)) <$> zip data1 data2).

(** [pad_bytes] meets one exception the services do not: the
    [ZeroDivisionError] of [len(data) % 0]. *)
Inductive padded : Type :=
  | Padded (data : list byte)
  | PadZeroDivisionError
  | PadValueError.

(** [[x] * n]: empty when [n] is not positive. *)
Definition list_repeat {A} (x : A) (n : Z) : list A := replicate (Z.to_nat n) x.

Definition pad_bytes (data : list byte) (block_size padding_byte : Z) : padded :=
  if block_size =? 0 then PadZeroDivisionError
  else
    let remainder := Z.of_nat (length data) mod block_size in
    if remainder =? 0 then Padded data
    else
      let padding_needed := block_size - remainder in
      match bytes_of_ints (list_repeat padding_byte padding_needed) with
      | Return padding => Padded (data ++ padding)
      | Raise _ => PadValueError
      end.

(** [secure_compare]: the lengths first, then [result |= a ^ b] over the
    pairs, and [result == 0]. *)
Definition secure_compare (data1 data2 : list byte) : bool :=
  if negb (length data1 =? length data2)%nat then false
  else
    let result :=
      fold_left (fun result '(a, b) => Z.lor result (Z.lxor (byte_to_Z a) (byte_to_Z b)))
        (zip data1 data2) 0 in
    result =? 0.

(** *** Hexadecimal text

    A [str] is a [string]; the functions below only ever look at single
    characters. *)

(** [f"{byte:02x}"] *)
Definition hex_char (v : Z) : ascii :=
  default "0"%char (list_ascii_of_string "0123456789abcdef" !! Z.to_nat v).

Definition format_02x (b : byte) : string :=
  String (hex_char (byte_to_Z b / 16)) (String (hex_char (byte_to_Z b mod 16)) EmptyString).

(** [separator.join(parts)] *)
Definition str_join (separator : string) (parts : list string) : string :=
  match parts with
  | [] => EmptyString
  | p :: parts' => fold_left (fun acc q => acc ++ separator ++ q)%string parts' p
  end.

Definition bytes_to_hex (data : list byte) (separator : string) : string :=
  str_join separator (format_02x <$> data).

(** [s.replace(c, "")] for a one-character [c] *)
Fixpoint str_remove (c : ascii) (s : string) : string :=
  match s with
  | EmptyString => EmptyString
  | String a s' => if Ascii.eqb a c then str_remove c s' else String a (str_remove c s')
  end.

(** The value of a hexadecimal digit, either case. *)
Definition hex_value (c : ascii) : option Z :=
  let n := Z.of_nat (nat_of_ascii c) in
  if (48 <=? n) && (n <=? 57) then Some (n - 48)
  else if (97 <=? n) && (n <=? 102) then Some (n - 87)
  else if (65 <=? n) && (n <=? 70) then Some (n - 55)
  else None.

(** ASCII whitespace: space, and tab to carriage return. *)
Definition is_space (c : ascii) : bool :=
  let n := Z.of_nat (nat_of_ascii c) in
  (n =? 32) || ((9 <=? n) && (n <=? 13)).

(** [bytes.fromhex]: whitespace is skipped before a pair of digits, not
    inside one; anything else is a [ValueError]. *)
Fixpoint fromhex (s : string) : outcome (list byte) :=
  match s with
  | EmptyString => Return []
  | String c s' =>
      if is_space c then fromhex s'
      else
        match hex_value c, s' with
        | Some top, String c' s'' =>
            match hex_value c' with
            | Some bot => bs ← fromhex s''; mret (byte_trunc (top * 16 + bot) :: bs)
            | None => Raise ValueError
            end
        | _, _ => Raise ValueError
        end
  end.

Definition hex_to_bytes (hex_string : string) : outcome (list byte) :=
  let hex_string := str_remove ":" (str_remove "-" (str_remove " " hex_string)) in
  let hex_string :=
    if negb (String.length hex_string mod 2 =? 0)%nat then ("0" ++ hex_string)%string
    else hex_string in
  fromhex hex_string.

(** What [hex_to_bytes] hands to [bytes.fromhex] when the text came from
    [bytes_to_hex]: the three separators removed, and the digit pairs of
    the bytes one after the other. *)
Definition hex_clean (s : string) : string :=
  str_remove ":" (str_remove "-" (str_remove " " s)).

Fixpoint hex_pairs (data : list byte) : string :=
  match data with
  | [] => EmptyString
  | b :: data' => (format_02x b ++ hex_pairs data')%string
  end.

(** ** numpy: sample buffers and the arrays that view them *)

Abbreviation loc := nat.

(** The store: every sample buffer allocated so far, by age. *)
Abbreviation heap := (list (list Z)).

(** A C-contiguous array over a whole buffer. *)
Record ndarray := { buffer : loc; shape : list nat }.

(** [a.size] *)
Definition size (a : ndarray) : nat := foldr Nat.mul 1%nat (shape a).

Definition valid (h : heap) (a : ndarray) : Prop :=
  exists data, h !! buffer a = Some data /\ length data = size a.

Definition samples (h : heap) (a : ndarray) : list Z := h !!! buffer a.

Definition M (A : Type) : Type := heap -> heap * outcome A.

#[global] Instance M_ret : MRet M := fun A a h => (h, Return a).
#[global] Instance M_bind : MBind M := fun A B f m h =>
  match m h with
  | (h', Return a) => f a h'
  | (h', Raise e) => (h', Raise e)
  end.

Definition lift {A} (r : outcome A) : M A := fun h => (h, r).
Definition raise {A} (e : exn) : M A := fun h => (h, Raise e).

Definition reraiseM {A} (prefix : string) (body : M A) : M A := fun h =>
  match body h with
  | (h', r) => (h', reraise prefix r)
  end.

Definition new_array (data : list Z) (shp : list nat) : M ndarray := fun h =>
  (h ++ [data], Return {| buffer := length h; shape := shp |}).

(** [a.flatten()] and [a.copy()]: a new buffer with the same samples. *)
Definition np_flatten (a : ndarray) : M ndarray := fun h =>
  new_array (samples h a) [length (samples h a)] h.

Definition np_copy (a : ndarray) : M ndarray := fun h =>
  new_array (samples h a) (shape a) h.

(** [a.reshape(shp)]: a view of the same buffer. *)
Definition np_reshape (a : ndarray) (shp : list nat) : M ndarray := fun h =>
  if (foldr Nat.mul 1%nat shp =? size a)%nat
  then (h, Return {| buffer := buffer a; shape := shp |})
  else (h, Raise ValueError).

(** [len(a)] of a one-dimensional array *)
Definition np_len (a : ndarray) : M nat := fun h => (h, Return (length (samples h a))).

(** [a[i]] and [a[i] = v] on a one-dimensional array, [i] not negative. *)
Definition np_getitem (a : ndarray) (i : nat) : M Z := fun h =>
  match samples h a !! i with
  | Some v => (h, Return v)
  | None => (h, Raise (IndexError (Z.of_nat i) (Z.of_nat (length (samples h a)))))
  end.

Definition np_setitem (a : ndarray) (i : nat) (v : Z) : M unit := fun h =>
  if (i <? length (samples h a))%nat
  then (<[buffer a := <[i := v]> (samples h a)]> h, Return tt)
  else (h, Raise (IndexError (Z.of_nat i) (Z.of_nat (length (samples h a))))).

(** [for x in xs: body(x)] *)
Fixpoint for_each {A} (xs : list A) (body : A -> M unit) : M unit :=
  match xs with
  | [] => mret tt
  | x :: xs' => body x ≫= fun _ => for_each xs' body
  end.

(** [enumerate(xs)] *)
Definition enumerate {A} (xs : list A) : list (nat * A) :=
  zip (seq 0 (length xs)) xs.

(** [a << n] of Python ints: a negative count is a [ValueError]. *)
Definition shl (a n : Z) : outcome Z :=
  if n <? 0 then Raise ValueError else Return (Z.shiftl a n).

(** ** services/stego.py and services/crypto.py *)

(** The dictionary [_parse_header] returns. *)
Record header_info := {
  hi_version : Z;
  hi_lsb_bits : Z;
  hi_scatter : bool;
  hi_salt : list byte;
  hi_nonce : list byte;
  hi_payload_length : Z
}.

Definition magic_bytes : list byte := list_byte_of_string "ASTG".
Definition version : Z := 1.
Definition header_size : nat := 42.

(** ** Stand-ins for what comes from outside

    The services are stated over any hash, any generator whose [_randbelow]
    keeps its bound, any loader and any cipher.  To run them on concrete
    inputs one instance is fixed here: the digest is the data itself, the
    generator is a linear congruential one, the loader returns 400 silent
    samples and the cipher is the identity with a one-byte tag. *)
Module Standin.

Definition sha256 (data : list byte) : list byte := data.

Definition rng : Type := Z.

Definition Random (seed : Z) : rng := seed.

Definition randbelow (s : rng) (n : nat) : nat * rng :=
  (Z.to_nat (s mod Z.of_nat n), (s * 1103515245 + 12345) mod 2 ^ 31).

Definition load_audio (audio_file : string) : M (ndarray * Z) :=
  new_array (replicate 400 0) [400%nat] ≫= fun a => mret (a, 44100).

Definition pbkdf2_hmac_sha256 (length : Z) (salt : list byte) (iterations : Z)
    (password : list byte) : outcome (list byte) :=
  Return (password ++ salt).

Definition aesgcm_encrypt (key nonce data : list byte) : outcome (list byte) :=
  Return (data ++ [xff]).

Definition aesgcm_decrypt (key nonce data : list byte) : outcome (list byte) :=
  match reverse data with
  | xff :: rest => Return (reverse rest)
  | _ => Raise InvalidTag
  end.

Definition utf8_encode (s : string) : list byte := list_byte_of_string s.

Definition utf8_decode (b : list byte) : outcome string :=
  Return (string_of_list_byte b).

(** A longer file, for the capacity test of the encode tab: 1000 silent
    samples. *)
Definition load_long_audio (audio_file : string) : M (ndarray * Z) :=
  new_array (replicate 1000 0) [1000%nat] ≫= fun a => mret (a, 44100).

End Standin.

Section Services.

(** What the services take from outside the repository.
    - [hashlib.sha256(data).digest()];
    - [random.Random(seed)] and its [_randbelow(n)], which for [n > 0]
      answers below [n]; the generator's state is threaded explicitly;
    - the audio loader the capacity computation calls. *)
Variable sha256 : list byte -> list byte.
Variable rng : Type.
Variable Random : Z -> rng.
Variable randbelow : rng -> nat -> nat * rng.
Hypothesis randbelow_lt : forall s n, (0 < n)%nat -> ((randbelow s n).1 < n)%nat.
Variable load_audio : string -> M (ndarray * Z).

(** And for the crypto service:
    - [PBKDF2HMAC(SHA256, length, salt, iterations).derive(password)];
    - [AESGCM(key).encrypt(nonce, data, None)] and [.decrypt(...)];
    - [str.encode('utf-8')] and [bytes.decode('utf-8')]. *)
Variable pbkdf2_hmac_sha256 : Z -> list byte -> Z -> list byte -> outcome (list byte).
Variable aesgcm_encrypt : list byte -> list byte -> list byte -> outcome (list byte).
Variable aesgcm_decrypt : list byte -> list byte -> list byte -> outcome (list byte).
Variable utf8_encode : string -> list byte.
Variable utf8_decode : list byte -> outcome string.

(** [random.Random.shuffle]:
    [for i in reversed(range(1, len(x))): j = randbelow(i + 1);
     x[i], x[j] = x[j], x[i]] *)
Definition swap (x : list nat) (i j : nat) : outcome (list nat) :=
  match x !! j, x !! i with
  | Some xj, Some xi => Return (<[j := xi]> (<[i := xj]> x))
  | None, _ => Raise (IndexError (Z.of_nat j) (Z.of_nat (length x)))
  | _, None => Raise (IndexError (Z.of_nat i) (Z.of_nat (length x)))
  end.

Fixpoint shuffle_loop (positions : list nat) (x : list nat) (s : rng)
  : outcome (list nat) :=
  match positions with
  | [] => Return x
  | i :: positions' =>
      let (j, s') := randbelow s (i + 1) in
      x' ← swap x i j;
      shuffle_loop positions' x' s'
  end.

Definition shuffle (s : rng) (x : list nat) : outcome (list nat) :=
  shuffle_loop (rev (seq 1 (length x - 1))) x s.

Definition scatter_seed (salt : list byte) : Z :=
  let seed_data := salt ++ list_byte_of_string "scatter" in
  int_from_bytes_big (take 4 (sha256 seed_data)).

Definition _generate_scatter_indices (count : nat) (total_samples : Z)
    (salt : list byte) : outcome (list nat) :=
  reraise "Failed to generate scatter indices" (
    let seed := scatter_seed salt in
    let r := Random seed in
    if Z.of_nat count >? total_samples then
      Raise (StegoError (Text "Not enough samples for scatter pattern"))
    else
      let indices := range (Z.to_nat total_samples) in
      indices ← shuffle r indices;
      mret (take count indices)).

Definition _create_header (salt nonce : list byte) (payload_length : Z)
    (lsb_bits : Z) (scatter : bool) : outcome (list byte) :=
  reraise "Failed to create header" (
    let flags := Z.land lsb_bits 0x03 in
    let flags := if scatter then Z.lor flags 0x04 else flags in
    header ← pack_header magic_bytes version flags salt nonce payload_length;
    let crc32 := calculate_crc32 header in
    crc ← pack_I crc32;
    mret (header ++ crc)).

(** The two handlers that close [_parse_header]: [except struct.error]
    first, then [except Exception]. *)
Definition parse_handlers {A} (body : outcome A) : outcome A :=
  match body with
  | Return a => Return a
  | Raise StructError => Raise (StegoError (Because "Header parsing failed" StructError))
  | Raise e => Raise (StegoError (Because "Failed to parse header" e))
  end.

Definition _parse_header (header_bytes : list byte) : outcome header_info :=
  parse_handlers (
    if (length header_bytes <? header_size)%nat then
      Raise (StegoError (Text "Header too short"))
    else
      let header_without_crc := take (length header_bytes - 4) header_bytes in
      let expected_crc := calculate_crc32 header_without_crc in
      actual_crc ← unpack_I (drop (length header_bytes - 4) header_bytes);
      if negb (expected_crc =? actual_crc) then
        Raise (StegoError (Text "Header CRC verification failed"))
      else
        '(magic, ver, flags, salt, nonce, payload_length) ← unpack_header header_without_crc;
        if negb (bool_decide (magic = magic_bytes)) then
          Raise (StegoError (Text "Invalid magic bytes - file not encoded with this tool"))
        else if negb (ver =? version) then
          Raise (StegoError (UnsupportedVersion ver))
        else
          let lsb_bits := Z.land flags 0x03 in
          let scatter := negb (Z.land flags 0x04 =? 0) in
          if (lsb_bits <? 1) || (lsb_bits >? 3) then
            Raise (StegoError (InvalidLsbBits lsb_bits))
          else
            Return {| hi_version := ver; hi_lsb_bits := lsb_bits;
                      hi_scatter := scatter; hi_salt := salt;
                      hi_nonce := nonce; hi_payload_length := payload_length |}).

(** The body the two embedding loops share: clear [lsb_bits] low bits of the
    sample, then set bit 0 to the data bit. *)
Definition write_lsb (flat_audio : ndarray) (lsb_bits : Z) (sample_idx : nat)
    (bit : Z) : M unit :=
  sample ← np_getitem flat_audio sample_idx;
  one ← lift (shl 1 lsb_bits);
  let mask := Z.lnot (one - 1) in
  let cleared_sample := Z.land sample mask in
  let new_sample := if bit =? 0 then cleared_sample else Z.lor cleared_sample 1 in
  np_setitem flat_audio sample_idx new_sample.

(** [payload_indices[i]] *)
Definition list_getitem (l : list nat) (i : nat) : M nat :=
  match l !! i with
  | Some v => mret v
  | None => raise (IndexError (Z.of_nat i) (Z.of_nat (length l)))
  end.

Definition embed_message (audio_data : ndarray) (encrypted_data salt nonce : list byte)
    (lsb_bits : Z) (scatter : bool) : M ndarray :=
  reraiseM "Failed to embed message" (
    header ← lift (_create_header salt nonce (Z.of_nat (length encrypted_data)) lsb_bits scatter);
    let payload := header ++ encrypted_data in
    let total_samples := Z.of_nat (size audio_data) in
    let required_bits := Z.of_nat (length payload) * 8 in
    let available_bits := total_samples * lsb_bits in
    if required_bits >? available_bits then
      raise (StegoError (InsufficientCapacity required_bits available_bits))
    else
      let original_shape := shape audio_data in
      flat ← np_flatten audio_data;
      flat_audio ← np_copy flat;
      let payload_bits := BitPacker.bytes_to_bits payload in
      let header_bits := take (header_size * 8) payload_bits in
      let payload_data_bits := drop (header_size * 8) payload_bits in
      for_each (enumerate header_bits) (fun '(i, bit) =>
        write_lsb flat_audio lsb_bits i bit);;
      payload_indices ←
        (if scatter then
           lift (_generate_scatter_indices (length payload_data_bits)
                   (total_samples - Z.of_nat (header_size * 8)) salt)
         else mret []);
      for_each (enumerate payload_data_bits) (fun '(i, bit) =>
        sample_idx ←
          (if scatter then
             idx ← list_getitem payload_indices i; mret (header_size * 8 + idx)%nat
           else mret (header_size * 8 + i)%nat);
        write_lsb flat_audio lsb_bits sample_idx bit);;
      np_reshape flat_audio original_shape).

(** [for x in xs: ...; out.append(body(x))] *)
Fixpoint collect {A B} (xs : list A) (body : A -> M B) : M (list B) :=
  match xs with
  | [] => mret []
  | x :: xs' => b ← body x; bs ← collect xs' body; mret (b :: bs)
  end.

(** One read of the extraction loops: the bound test, then [sample & 1]. *)
Definition read_lsb (flat_audio : ndarray) (too_short : string) (idx : nat) : M Z :=
  n ← np_len flat_audio;
  if (n <=? idx)%nat then raise (StegoError (Text too_short))
  else sample ← np_getitem flat_audio idx; mret (Z.land sample 1).

Definition extract_message (audio_data : ndarray)
  : M (list byte * list byte * list byte) :=
  reraiseM "Failed to extract message" (
    flat_audio ← np_flatten audio_data;
    let header_bits_needed := (header_size * 8)%nat in
    header_bits ← collect (range header_bits_needed)
                    (read_lsb flat_audio "Audio file too short for header");
    header_bytes ← lift (BitPacker.bits_to_bytes header_bits);
    header_info ← lift (_parse_header header_bytes);
    let payload_size := hi_payload_length header_info in
    let scatter := hi_scatter header_info in
    let salt := hi_salt header_info in
    let nonce := hi_nonce header_info in
    n ← np_len flat_audio;
    payload_bits ←
      (if scatter then
         payload_indices ← lift (_generate_scatter_indices (Z.to_nat (payload_size * 8))
                                   (Z.of_nat n - Z.of_nat header_bits_needed) salt);
         collect payload_indices (fun idx =>
           read_lsb flat_audio "Audio file too short for complete message"
             (header_bits_needed + idx)%nat)
       else
         collect (range (Z.to_nat (payload_size * 8))) (fun i =>
           read_lsb flat_audio "Audio file too short for complete message"
             (header_bits_needed + i)%nat));
    encrypted_data ← lift (BitPacker.bits_to_bytes payload_bits);
    mret (encrypted_data, salt, nonce)).

(** [calculate_capacity]: the sample count comes from the shape of what the
    loader returns. *)
Definition shape_samples (shp : list nat) : outcome Z :=
  match shp with
  | [n] => Return (Z.of_nat n)
  | n :: c :: _ => Return (Z.of_nat n * Z.of_nat c)
  | [] => Raise (IndexError 0 0)
  end.

Definition calculate_capacity (audio_file : string) (lsb_bits : Z) : M Z :=
  reraiseM "Failed to calculate capacity" (
    '(audio_data, sample_rate) ← load_audio audio_file;
    total_samples ← lift (shape_samples (shape audio_data));
    let total_bits := total_samples * lsb_bits in
    let total_bytes := total_bits / 8 in
    let available_bytes := Z.max 0 (total_bytes - Z.of_nat header_size) in
    mret available_bytes).

(** *** services/crypto.py *)

Definition key_iterations : Z := 200000.
Definition key_length : Z := 32.

Definition _derive_key (password : string) (salt : list byte) : outcome (list byte) :=
  reraise "Key derivation failed" (
    let password_bytes := utf8_encode password in
    pbkdf2_hmac_sha256 key_length salt key_iterations password_bytes).

(** The three handlers of [decrypt_message], in their order. *)
Definition decrypt_handlers {A} (body : outcome A) : outcome A :=
  match body with
  | Return a => Return a
  | Raise InvalidTag =>
      Raise (StegoError (Text "Decryption failed: Invalid password or corrupted data"))
  | Raise UnicodeDecodeError =>
      Raise (StegoError (Text "Decryption failed: Invalid message encoding"))
  | Raise e => Raise (StegoError (Because "Decryption failed" e))
  end.

Definition decrypt_message (encrypted_data : list byte) (password : string)
    (salt nonce : list byte) : outcome string :=
  decrypt_handlers (
    key ← _derive_key password salt;
    decrypted_bytes ← aesgcm_decrypt key nonce encrypted_data;
    utf8_decode decrypted_bytes).

(** [encrypt_message], given the two draws of [os.urandom]. *)
Definition encrypt_message (urandom_salt urandom_nonce : list byte)
    (message password : string) : outcome (list byte * list byte * list byte) :=
  reraise "Encryption failed" (
    let message_bytes := utf8_encode message in
    let salt := urandom_salt in
    let nonce := urandom_nonce in
    key ← _derive_key password salt;
    encrypted_data ← aesgcm_encrypt key nonce message_bytes;
    mret (encrypted_data, salt, nonce)).

(** *** tabs_decode.py: what [decode_worker] computes between the status
    updates: load, extract, decrypt. *)
Definition decode_worker (input_file : string) (password : string) : M string :=
  '(audio_data, sample_rate) ← load_audio input_file;
  '(encrypted_data, salt, nonce) ← extract_message audio_data;
  lift (decrypt_message encrypted_data password salt nonce).

(** *** services/stego.py: [analyze_audio_for_stego]

    Two entries of the dictionary it returns are floating-point: the ratio
    [lsb_ones / len(flat_audio)] and the test [abs(lsb_ratio - 0.5) < 0.01].
    The division and the test on a float are taken from outside; the other
    entries are integers and booleans. *)
Section Analysis.

Context {float : Type}.
Variable true_div : Z -> Z -> float.
Variable near_half : float -> bool.

(** [lsb_ratio]: the quotient, or the integer 0 for an empty array. *)
Inductive number : Type :=
  | Int (z : Z)
  | Float (x : float).

Record stego_analysis := {
  sa_total_samples : nat;
  sa_lsb_ones_ratio : number;
  sa_lsb_distribution_suspicious : bool;
  sa_has_stego_header : bool;
  sa_estimated_capacity_1lsb : Z;
  sa_estimated_capacity_2lsb : Z
}.

(** The dictionary, or [{'error': str(e)}]. *)
Inductive analysis : Type :=
  | Analysis (report : stego_analysis)
  | AnalysisError (e : exn).

(** [np.sum(flat_audio & 1)] *)
Definition np_sum_lsb (a : ndarray) : M Z := fun h =>
  (h, Return (foldr Z.add 0 ((fun sample => Z.land sample 1) <$> samples h a))).

(** [has_header = False; try: ...; has_header = True; except: pass] *)
Definition try_except_pass (body : M bool) : M bool := fun h =>
  match body h with
  | (h', Return b) => (h', Return b)
  | (h', Raise _) => (h', Return false)
  end.

(** [abs(lsb_ratio - 0.5) < 0.01]: never so for an integer. *)
Definition distribution_suspicious (lsb_ratio : number) : bool :=
  match lsb_ratio with
  | Int _ => false
  | Float x => near_half x
  end.

Definition analyze_audio_for_stego (audio_data : ndarray) : M analysis := fun h =>
  let body : M stego_analysis :=
    flat_audio ← np_flatten audio_data;
    lsb_ones ← np_sum_lsb flat_audio;
    n ← np_len flat_audio;
    let lsb_ratio :=
      if (0 <? n)%nat then Float (true_div lsb_ones (Z.of_nat n)) else Int 0 in
    has_header ← try_except_pass (
      header_bits ← collect (range (Nat.min (header_size * 8) n)) (fun i =>
        sample ← np_getitem flat_audio i; mret (Z.land sample 1));
      if (32 <=? length header_bits)%nat then
        header_start ← lift (BitPacker.bits_to_bytes (take 32 header_bits));
        mret (bool_decide (take (length magic_bytes) header_start = magic_bytes))
      else mret false);
    mret {| sa_total_samples := n;
            sa_lsb_ones_ratio := lsb_ratio;
            sa_lsb_distribution_suspicious := distribution_suspicious lsb_ratio;
            sa_has_stego_header := has_header;
            sa_estimated_capacity_1lsb := Z.of_nat n / 8 - Z.of_nat header_size;
            sa_estimated_capacity_2lsb := Z.of_nat n / 4 - Z.of_nat header_size |} in
  match body h with
  | (h', Return report) => (h', Return (Analysis report))
  | (h', Raise e) => (h', Return (AnalysisError e))
  end.

End Analysis.

(** *** services/crypto.py: the password check and the size estimate *)

Definition calculate_encrypted_size (message : string) : Z :=
  let message_bytes := utf8_encode message in
  Z.of_nat (length message_bytes) + 16.

Section PasswordStrength.

(** [c.isupper()], [c.islower()], [c.isdigit()] *)
Variable str_isupper str_islower str_isdigit : ascii -> bool.

Definition special_characters : list ascii :=
  list_ascii_of_string "!@#$%^&*()_+-=[]{}|;:,.<>?".

Definition verify_password_strength (password : string) : bool * string :=
  if (String.length password <? 8)%nat then
    (false, "Password must be at least 8 characters long"%string)
  else if (String.length password <? 12)%nat then
    (true, "Password is acceptable but could be longer"%string)
  else
    let cs := list_ascii_of_string password in
    let has_upper := existsb str_isupper cs in
    let has_lower := existsb str_islower cs in
    let has_digit := existsb str_isdigit cs in
    let has_special := existsb (fun c => existsb (Ascii.eqb c) special_characters) cs in
    let strength_count :=
      Z.b2z has_upper + Z.b2z has_lower + Z.b2z has_digit + Z.b2z has_special in
    if strength_count >=? 3 then (true, "Strong password"%string)
    else if strength_count >=? 2 then (true, "Good password"%string)
    else (true, "Weak password - consider adding uppercase, lowercase, numbers, and symbols"%string).

End PasswordStrength.

(** *** tabs_encode.py: the capacity test of [start_encoding] and what
    [encode_worker] computes between the status updates: load, encrypt,
    embed with the default [lsb_bits = 1], save. *)

(** [True] when [start_encoding] goes on to encode. *)
Definition capacity_check (message : string) (current_capacity : Z) : bool :=
  let message_size := Z.of_nat (length (utf8_encode message)) in
  if current_capacity >? 0 then
    let encrypted_size := message_size + 32 in
    let header_size := 42 in
    let total_needed := encrypted_size + header_size in
    negb (total_needed >? current_capacity)
  else true.

Section Encode.

(** [AudioService.save_audio] *)
Variable save_audio : ndarray -> Z -> string -> M unit.

Definition encode_worker (urandom_salt urandom_nonce : list byte)
    (input_file message password output_file : string) (scatter_var : bool) : M unit :=
  '(audio_data, sample_rate) ← load_audio input_file;
  '(encrypted_data, salt, nonce) ←
    lift (encrypt_message urandom_salt urandom_nonce message password);
  encoded_audio ← embed_message audio_data encrypted_data salt nonce 1 scatter_var;
  save_audio encoded_audio sample_rate output_file.

End Encode.

(** *** utils/password_generator.py

    A [str] of generated characters is the list of its code points.  The
    generator of [secrets] is, like [random.Random], one whose
    [_randbelow(n)] answers below [n]; its state is threaded through the
    draws. *)

Definition code_points (s : string) : list nat := nat_of_ascii <$> list_ascii_of_string s.

Definition lowercase : list nat := code_points "abcdefghijklmnopqrstuvwxyz".
Definition uppercase : list nat := code_points "ABCDEFGHIJKLMNOPQRSTUVWXYZ".
Definition digits : list nat := code_points "0123456789".
Definition symbols : list nat := code_points "!@#$%^&*()-_=+[]{}|;:,.<>?".

Definition G (A : Type) : Type := rng -> outcome (A * rng).

#[local] Instance G_ret : MRet G := fun A a s => Return (a, s).
#[local] Instance G_bind : MBind G := fun A B f m s =>
  match m s with
  | Return (a, s') => f a s'
  | Raise e => Raise e
  end.

(** [secrets.choice(seq)]: [seq[_randbelow(len(seq))]], and an
    [IndexError] for an empty sequence. *)
Definition choice {A} (seq : list A) : G A := fun s =>
  if (length seq =? 0)%nat then Raise (IndexError 0 0)
  else
    let (i, s') := randbelow s (length seq) in
    match seq !! i with
    | Some c => Return (c, s')
    | None => Raise (IndexError (Z.of_nat i) (Z.of_nat (length seq)))
    end.

(** [[secrets.choice(chars) for _ in range(n)]] *)
Fixpoint choices (n : nat) (chars : list nat) : G (list nat) :=
  match n with
  | O => mret []
  | S n' => c ← choice chars; cs ← choices n' chars; mret (c :: cs)
  end.

(** [if include: chars += cls; required_chars.append(secrets.choice(cls))] *)
Definition include_class (include : bool) (cls : list nat)
    (st : list nat * list nat) : G (list nat * list nat) :=
  let '(chars, required_chars) := st in
  if include then
    c ← choice cls; mret (chars ++ cls, required_chars ++ [c])
  else mret (chars, required_chars).

(** [secrets.SystemRandom().shuffle(x)]: a generator of its own. *)
Definition system_shuffle (s_shuffle : rng) (x : list nat) : G (list nat) := fun s =>
  match shuffle s_shuffle x with
  | Return x' => Return (x', s)
  | Raise e => Raise e
  end.

(** [generate_password]; [s_shuffle] is the state of the generator that
    shuffles. *)
Definition generate_password (length : Z)
    (include_symbols include_numbers include_uppercase include_lowercase : bool)
    (s_shuffle : rng) : G (list nat) :=
  let length := if length <? 4 then 4 else length in
  st ← include_class include_lowercase lowercase ([], []);
  st ← include_class include_uppercase uppercase st;
  st ← include_class include_numbers digits st;
  st ← include_class include_symbols symbols st;
  st ←
    (if bool_decide (st.1 = []) then
       c1 ← choice lowercase; c2 ← choice uppercase; c3 ← choice digits;
       mret (lowercase ++ uppercase ++ digits, [c1; c2; c3])
     else mret st : G (list nat * list nat));
  let '(chars, required_chars) := st in
  let remaining_length := length - Z.of_nat (List.length required_chars) in
  random_chars ←
    (if remaining_length >? 0 then choices (Z.to_nat remaining_length) chars
     else mret [] : G (list nat));
  let password_chars := required_chars ++ random_chars in
  password_chars ← system_shuffle s_shuffle password_chars;
  (mret (take (Z.to_nat length) password_chars) : G (list nat)).

(** [generate_secure_password] and [generate_simple_password] *)
Definition generate_secure_password (length : Z) (s_shuffle : rng) : G (list nat) :=
  generate_password length true true true true s_shuffle.

Definition generate_simple_password (length : Z) (s_shuffle : rng) : G (list nat) :=
  generate_password length false true true true s_shuffle.

(** [secrets.randbelow(n)] *)
Definition secrets_randbelow (n : nat) : G nat := fun s => Return (randbelow s n).

(** [str(n)] for a natural number: its decimal digits, most significant
    first.  A number below [10 ** fuel] is printed in full by [fuel]
    rounds, from one round on ([decimal_fuel] below), and
    [n < 10 ** (n + 1)]. *)
Fixpoint decimal (fuel : nat) (n : Z) : list nat :=
  match fuel with
  | O => []
  | S fuel' =>
      (if n <? 10 then [] else decimal fuel' (n / 10))
      ++ [(nat_of_ascii "0" + Z.to_nat (n mod 10))%nat]
  end.

Definition str_of_nat (n : nat) : list nat := decimal (S n) (Z.of_nat n).

(** [s.zfill(width)] for a string of digits. *)
Definition zfill (width : nat) (s : list nat) : list nat :=
  replicate (width - List.length s) (nat_of_ascii "0") ++ s.

(** [s[:k]]: a negative [k] counts from the end. *)
Definition slice_to {A} (s : list A) (k : Z) : list A :=
  if k <? 0 then take (Z.to_nat (Z.of_nat (List.length s) + k)) s
  else take (Z.to_nat k) s.

Definition memorable_words : list (list nat) :=
  code_points <$> ["Sun"; "Sky"; "Fox"; "Cat"; "Dog"; "Car"; "Sea"; "Moon"; "Star"; "Fire"]%string.

(** [while len(base_password) < min_length:
       base_password += secrets.choice(extra_chars)].
    Every round adds one character, so [min_length] rounds are enough
    ([extend_loop_length] below shows that the loop has left by its
    test). *)
Fixpoint extend_loop (rounds : nat) (min_length : Z) (extra_chars base_password : list nat)
  : G (list nat) :=
  match rounds with
  | O => mret base_password
  | S rounds' =>
      if Z.of_nat (List.length base_password) <? min_length then
        c ← choice extra_chars;
        extend_loop rounds' min_length extra_chars (base_password ++ [c])
      else mret base_password
  end.

Definition generate_memorable_password (length : Z) : G (list nat) :=
  let min_length := Z.max 8 length in
  word1 ← choice memorable_words;
  word2 ← choice memorable_words;
  n ← secrets_randbelow (Z.to_nat 9999);
  let numbers := zfill 2 (str_of_nat n) in
  symbols ← choice (code_points "!@#$%&*");
  let base_password := word1 ++ numbers ++ [symbols] ++ word2 in
  if Z.of_nat (List.length base_password) <? min_length then
    let extra_chars := lowercase ++ digits in
    extend_loop (Z.to_nat min_length) min_length extra_chars base_password
  else if Z.of_nat (List.length base_password) >? length then
    mret (slice_to base_password length)
  else mret base_password.

(** ** The loops of the two services as functions of the samples

    [store_bits] and [read_bits] say what the embedding and the extraction
    loops do to the one buffer they work on; [embed_samples] and
    [extract_samples] put them together.  The lemmas [embed_message_run] and
    [extract_message_run] relate them to the methods above. *)

Definition set_lsb (lsb_bits sample bit : Z) : Z :=
  let cleared_sample := Z.land sample (Z.lnot (Z.shiftl 1 lsb_bits - 1)) in
  if bit =? 0 then cleared_sample else Z.lor cleared_sample 1.

Fixpoint store_bits (lsb_bits : Z) (d : list Z) (writes : list (nat * Z))
  : outcome (list Z) :=
  match writes with
  | [] => Return d
  | (i, bit) :: writes' =>
      match d !! i with
      | Some sample => store_bits lsb_bits (<[i := set_lsb lsb_bits sample bit]> d) writes'
      | None => Raise (IndexError (Z.of_nat i) (Z.of_nat (length d)))
      end
  end.

Fixpoint read_bits (too_short : string) (d : list Z) (positions : list nat)
  : outcome (list Z) :=
  match positions with
  | [] => Return []
  | p :: positions' =>
      match d !! p with
      | Some sample =>
          bits ← read_bits too_short d positions'; mret (Z.land sample 1 :: bits)
      | None => Raise (StegoError (Text too_short))
      end
  end.

Definition embed_samples (d : list Z) (encrypted_data salt nonce : list byte)
    (lsb_bits : Z) (scatter : bool) : outcome (list Z) :=
  header ← _create_header salt nonce (Z.of_nat (length encrypted_data)) lsb_bits scatter;
  let payload := header ++ encrypted_data in
  let required_bits := Z.of_nat (length payload) * 8 in
  let available_bits := Z.of_nat (length d) * lsb_bits in
  if required_bits >? available_bits then
    Raise (StegoError (InsufficientCapacity required_bits available_bits))
  else
    let payload_bits := BitPacker.bytes_to_bits payload in
    let header_bits := take (header_size * 8) payload_bits in
    let payload_data_bits := drop (header_size * 8) payload_bits in
    d1 ← store_bits lsb_bits d (enumerate header_bits);
    positions ←
      (if scatter then
         _generate_scatter_indices (length payload_data_bits)
           (Z.of_nat (length d) - Z.of_nat (header_size * 8)) salt
       else Return (range (length payload_data_bits)));
    store_bits lsb_bits d1
      (zip ((fun p => (header_size * 8 + p)%nat) <$> positions) payload_data_bits).

Definition extract_samples (d : list Z) : outcome (list byte * list byte * list byte) :=
  header_bits ← read_bits "Audio file too short for header" d (range (header_size * 8));
  header_bytes ← BitPacker.bits_to_bytes header_bits;
  header_info ← _parse_header header_bytes;
  let payload_size := hi_payload_length header_info in
  positions ←
    (if hi_scatter header_info then
       _generate_scatter_indices (Z.to_nat (payload_size * 8))
         (Z.of_nat (length d) - Z.of_nat (header_size * 8)) (hi_salt header_info)
     else Return (range (Z.to_nat (payload_size * 8))));
  payload_bits ← read_bits "Audio file too short for complete message" d
                   ((fun p => (header_size * 8 + p)%nat) <$> positions);
  encrypted_data ← BitPacker.bits_to_bytes payload_bits;
  mret (encrypted_data, hi_salt header_info, hi_nonce header_info).

(** The low bits of the first 42 * 8 samples: where a header sits. *)
Definition header_lsbs (d : list Z) : list Z :=
  (fun sample => Z.land sample 1) <$> take (header_size * 8) d.

Definition is_bit (b : Z) : Prop := b = 0 \/ b = 1.

(** The number of zero bits the padding loop appends. *)
Definition pad_count (bits : list Z) : nat := ((8 - length bits mod 8) mod 8)%nat.

(** What [_parse_header] decides on 42 bytes, test by test. *)
Definition parse_42 (hb : list byte) : outcome header_info :=
  let h38 := take 38 hb in
  let flags := byte_to_Z (default x00 (h38 !! 5%nat)) in
  let ver := byte_to_Z (default x00 (h38 !! 4%nat)) in
  if negb (calculate_crc32 h38 =? int_from_bytes_big (drop 38 hb)) then
    Raise (StegoError (Because "Failed to parse header"
             (StegoError (Text "Header CRC verification failed"))))
  else if negb (bool_decide (take 4 h38 = magic_bytes)) then
    Raise (StegoError (Because "Failed to parse header"
             (StegoError (Text "Invalid magic bytes - file not encoded with this tool"))))
  else if negb (ver =? version) then
    Raise (StegoError (Because "Failed to parse header"
             (StegoError (UnsupportedVersion ver))))
  else if (Z.land flags 3 <? 1) || (Z.land flags 3 >? 3) then
    Raise (StegoError (Because "Failed to parse header"
             (StegoError (InvalidLsbBits (Z.land flags 3)))))
  else
    Return {| hi_version := ver; hi_lsb_bits := Z.land flags 3;
              hi_scatter := negb (Z.land flags 4 =? 0);
              hi_salt := take 16 (drop 6 h38); hi_nonce := take 12 (drop 22 h38);
              hi_payload_length := int_from_bytes_big (drop 34 h38) |}.

(** The positions the payload bits go to, counted from the end of the
    header: the scatter indices, or 0, 1, 2, ... *)
Definition payload_positions (scatter : bool) (salt : list byte) (count samples_len : nat)
  : outcome (list nat) :=
  if scatter then
    _generate_scatter_indices count
      (Z.of_nat samples_len - Z.of_nat (header_size * 8)) salt
  else Return (range count).

Definition payload_writes (positions : list nat) (encrypted_data : list byte)
  : list (nat * Z) :=
  zip ((fun p => (header_size * 8 + p)%nat) <$> positions)
      (BitPacker.bytes_to_bits encrypted_data).

(** A header as [_create_header] lays it out, with the flags byte 0x03:
    zero salt, zero nonce, no payload, and the CRC-32 that goes with them. *)
Definition header_flags3 : list byte :=
  Eval vm_compute in
    match _create_header (replicate 16 x00) (replicate 12 x00) 0 3 false with
    | Return header => header
    | Raise _ => []
    end.

(** Whether the low bits of the first 32 samples pack to bytes that start
    with the magic: what [analyze_audio_for_stego] reports as
    [has_stego_header]. *)
Definition starts_with_magic (d : list Z) : bool :=
  let header_bits :=
    (fun sample => Z.land sample 1) <$> take (Nat.min (header_size * 8) (length d)) d in
  if (32 <=? length header_bits)%nat then
    match BitPacker.bits_to_bytes (take 32 header_bits) with
    | Return header_start =>
        bool_decide (take (length magic_bytes) header_start = magic_bytes)
    | Raise _ => false
    end
  else false.

(** * Properties *)

(** [lia] looks at every function between numbers that is in the context,
    and the section's variables are such functions: they are cleared first, so
    that a lemma depends only on what it is about.  [dlia] adds quotients and
    remainders by constants. *)
Ltac forget_services :=
  try clear randbelow_lt; try clear load_audio; try clear pbkdf2_hmac_sha256;
  try clear aesgcm_encrypt; try clear aesgcm_decrypt; try clear utf8_encode;
  try clear utf8_decode; try clear sha256; try clear Random; try clear randbelow.
Ltac zlia := forget_services; lia.
Ltac znia := forget_services; nia.
Ltac dlia := forget_services; zify; Z.to_euclidean_division_equations; lia.

(** ** Bytes and bits *)

Lemma byte_to_Z_range (b : byte) : 0 <= byte_to_Z b < 256.
Proof.
  unfold byte_to_Z. pose proof (Byte.to_N_bounded b). zlia.
Qed.

Lemma byte_of_to_Z (b : byte) : byte_of_Z (byte_to_Z b) = Some b.
Proof.
  unfold byte_of_Z. pose proof (byte_to_Z_range b).
  replace ((0 <=? byte_to_Z b) && (byte_to_Z b <? 256)) with true
    by (symmetry; apply andb_true_iff; split; [apply Z.leb_le|apply Z.ltb_lt]; zlia).
  unfold byte_to_Z. rewrite N2Z.id. apply Byte.of_to_N.
Qed.

Lemma byte_to_of_Z (z : Z) (b : byte) : byte_of_Z z = Some b -> byte_to_Z b = z.
Proof.
  unfold byte_of_Z. destruct ((0 <=? z) && (z <? 256)) eqn:E; [|discriminate].
  apply andb_true_iff in E as [E1 E2]. apply Z.leb_le in E1.
  intros H. apply Byte.to_of_N in H. unfold byte_to_Z. rewrite H. zlia.
Qed.

Lemma byte_of_Z_is_Some (z : Z) : 0 <= z < 256 -> is_Some (byte_of_Z z).
Proof.
  intros Hz. unfold byte_of_Z.
  replace ((0 <=? z) && (z <? 256)) with true
    by (symmetry; apply andb_true_iff; split; [apply Z.leb_le|apply Z.ltb_lt]; zlia).
  destruct (Byte.of_N (Z.to_N z)) eqn:E; [eauto|].
  pose proof (Byte.to_of_N_option_map (Z.to_N z)) as H. rewrite E in H. simpl in H.
  destruct (N.leb_spec (Z.to_N z) 255); [discriminate|zlia].
Qed.

Lemma byte_trunc_to_Z (z : Z) : byte_to_Z (byte_trunc z) = z mod 256.
Proof.
  unfold byte_trunc.
  destruct (byte_of_Z_is_Some (z mod 256)) as [b Hb]; [apply Z.mod_pos_bound; zlia|].
  pose proof (byte_to_of_Z _ _ Hb) as Hz.
  unfold byte_of_Z in Hb.
  destruct ((0 <=? z mod 256) && (z mod 256 <? 256)); [|discriminate].
  rewrite Hb. exact Hz.
Qed.

Lemma bytes_to_bits_cons (b : byte) (bs : list byte) :
  BitPacker.bytes_to_bits (b :: bs)
  = (BitPacker.bit_of (byte_to_Z b) <$> range 8) ++ BitPacker.bytes_to_bits bs.
Proof. reflexivity. Qed.

Lemma bytes_to_bits_app (b1 b2 : list byte) :
  BitPacker.bytes_to_bits (b1 ++ b2)
  = BitPacker.bytes_to_bits b1 ++ BitPacker.bytes_to_bits b2.
Proof. unfold BitPacker.bytes_to_bits. apply flat_map_app. Qed.

Lemma bytes_to_bits_length (data : list byte) :
  length (BitPacker.bytes_to_bits data) = (8 * length data)%nat.
Proof.
  induction data as [|b bs IH]; [reflexivity|].
  rewrite bytes_to_bits_cons, length_app, IH. cbn [length]. 
  rewrite length_fmap. unfold range. rewrite length_seq. zlia.
Qed.

Lemma land_1_mod (x : Z) : Z.land x 1 = x mod 2.
Proof. exact (Z.land_ones x 1 ltac:(zlia)). Qed.

Lemma land_1_is_bit (x : Z) : is_bit (Z.land x 1).
Proof.
  unfold is_bit. rewrite land_1_mod.
  pose proof (Z.mod_pos_bound x 2). zlia.
Qed.

Lemma bit_of_is_bit (v : Z) (i : nat) : is_bit (BitPacker.bit_of v i).
Proof. apply land_1_is_bit. Qed.

Lemma bit_of_testbit (v : Z) (i : nat) :
  BitPacker.bit_of v i = Z.b2z (Z.testbit v (7 - Z.of_nat i)).
Proof.
  unfold BitPacker.bit_of.
  rewrite land_1_mod, <- Z.bit0_mod, Z.shiftr_spec by zlia.
  reflexivity.
Qed.

Lemma bytes_to_bits_Forall (data : list byte) :
  Forall is_bit (BitPacker.bytes_to_bits data).
Proof.
  induction data as [|b bs IH]; [constructor|].
  rewrite bytes_to_bits_cons. apply Forall_app. split; [|exact IH].
  apply Forall_fmap, Forall_forall. intros i _. apply bit_of_is_bit.
Qed.

(** Bit [8 * k + j] of the expansion is bit [7 - j] of byte [k]: the most
    significant bit comes first. *)
Lemma bytes_to_bits_lookup (data : list byte) (k j : nat) (b : byte) :
  data !! k = Some b -> (j < 8)%nat ->
  BitPacker.bytes_to_bits data !! (8 * k + j)%nat
  = Some (Z.b2z (Z.testbit (byte_to_Z b) (7 - Z.of_nat j))).
Proof.
  revert k. induction data as [|b0 bs IH]; intros k Hk Hj; [discriminate|].
  rewrite bytes_to_bits_cons. destruct k as [|k].
  - injection Hk as ->. rewrite lookup_app_l
      by (rewrite length_fmap; unfold range; rewrite length_seq; zlia).
    rewrite list_lookup_fmap. unfold range.
    replace (8 * 0 + j)%nat with j by zlia.
    rewrite lookup_seq_lt by zlia. simpl. f_equal. apply bit_of_testbit.
  - rewrite lookup_app_r
      by (rewrite length_fmap; unfold range; rewrite length_seq; zlia).
    rewrite length_fmap. unfold range at 1. rewrite length_seq.
    replace (8 * S k + j - 8)%nat with (8 * k + j)%nat by zlia.
    apply IH; [exact Hk|exact Hj].
Qed.

Lemma pad_loop_spec (r rounds : nat) (bits : list Z) :
  ((length bits + r) mod 8 = 0)%nat -> (r <= rounds)%nat ->
  (forall r', (r' < r)%nat -> ((length bits + r') mod 8 <> 0)%nat) ->
  BitPacker.pad_loop rounds bits = bits ++ replicate r 0.
Proof.
  revert rounds bits. induction r as [|r IH]; intros rounds bits Hr Hle Hmin.
  - replace (length bits + 0)%nat with (length bits) in Hr by zlia.
    rewrite app_nil_r. destruct rounds; [reflexivity|]. cbn [BitPacker.pad_loop].
    rewrite Hr. reflexivity.
  - destruct rounds as [|rounds]; [zlia|]. cbn [BitPacker.pad_loop].
    specialize (Hmin 0%nat ltac:(zlia)) as H0.
    replace (length bits + 0)%nat with (length bits) in H0 by zlia.
    apply Nat.eqb_neq in H0. rewrite H0.
    rewrite (IH rounds (bits ++ [0])).
    + rewrite <- app_assoc. reflexivity.
    + rewrite length_app. cbn [length].
      replace (length bits + 1 + r)%nat with (length bits + S r)%nat by zlia. exact Hr.
    + zlia.
    + intros r' Hr'. rewrite length_app. cbn [length].
      replace (length bits + 1 + r')%nat with (length bits + S r')%nat by zlia.
      apply Hmin. zlia.
Qed.

Lemma pad_spec (bits : list Z) :
  BitPacker.pad bits = bits ++ replicate (pad_count bits) 0.
Proof.
  unfold BitPacker.pad, pad_count. apply pad_loop_spec; [dlia|dlia|].
  intros r' Hr'. dlia.
Qed.

Lemma pad_loop_multiple (bits : list Z) :
  (length (BitPacker.pad bits) mod 8 = 0)%nat.
Proof.
  rewrite pad_spec, length_app, length_replicate. unfold pad_count. dlia.
Qed.

Lemma pad_multiple (bits : list Z) :
  (length bits mod 8 = 0)%nat -> BitPacker.pad bits = bits.
Proof.
  intros H. rewrite pad_spec. unfold pad_count.
  replace ((8 - length bits mod 8) mod 8)%nat with 0%nat by dlia.
  apply app_nil_r.
Qed.

Lemma range8_step (n : nat) :
  range8 (8 + n) = 0%nat :: ((fun i => (8 + i)%nat) <$> range8 n).
Proof.
  unfold range8. replace ((8 + n + 7) / 8)%nat with (S ((n + 7) / 8)) by dlia.
  cbn [seq fmap list_fmap]. replace (8 * 0)%nat with 0%nat by zlia. f_equal.
  rewrite <- fmap_S_seq, <- !list_fmap_compose.
  apply list_fmap_ext. intros _ k _. simpl. zlia.
Qed.

Lemma pack_byte_head (c : list Z) (rest : list Z) :
  length c = 8%nat ->
  BitPacker.pack_byte (c ++ rest) 0 = BitPacker.pack_byte c 0.
Proof.
  intros Hc. do 9 (destruct c as [|? c]; try discriminate). reflexivity.
Qed.

Lemma pack_byte_skip (c : list Z) (rest : list Z) (i : nat) :
  length c = 8%nat ->
  BitPacker.pack_byte (c ++ rest) (8 + i) = BitPacker.pack_byte rest i.
Proof.
  intros Hc. do 9 (destruct c as [|? c]; try discriminate). reflexivity.
Qed.

Lemma pack_loop_skip (c rest : list Z) (starts : list nat) (acc : list byte) :
  length c = 8%nat ->
  BitPacker.pack_loop (c ++ rest) ((fun i => (8 + i)%nat) <$> starts) acc
  = BitPacker.pack_loop rest starts acc.
Proof.
  intros Hc. revert acc. induction starts as [|i starts IH]; intros acc; [reflexivity|].
  cbn [fmap list_fmap BitPacker.pack_loop]. rewrite pack_byte_skip by exact Hc.
  destruct (BitPacker.bytearray_append acc (BitPacker.pack_byte rest i)); [|reflexivity].
  cbn [mbind outcome_bind]. apply IH.
Qed.

Lemma pack_byte_of_byte (b : byte) :
  BitPacker.pack_byte (BitPacker.bit_of (byte_to_Z b) <$> range 8) 0 = byte_to_Z b.
Proof. destruct b; reflexivity. Qed.

Lemma pack_loop_bytes_to_bits (data : list byte) (acc : list byte) :
  BitPacker.pack_loop (BitPacker.bytes_to_bits data)
    (range8 (length (BitPacker.bytes_to_bits data))) acc
  = Return (acc ++ data).
Proof.
  revert acc. induction data as [|b bs IH]; intros acc.
  - cbn. rewrite app_nil_r. reflexivity.
  - rewrite bytes_to_bits_cons, length_app.
    assert (Hc : length (BitPacker.bit_of (byte_to_Z b) <$> range 8) = 8%nat) by reflexivity.
    rewrite Hc, range8_step. cbn [BitPacker.pack_loop].
    rewrite pack_byte_head by exact Hc. rewrite pack_byte_of_byte.
    unfold BitPacker.bytearray_append. rewrite byte_of_to_Z. cbn [mbind outcome_bind].
    rewrite pack_loop_skip by exact Hc. rewrite IH, <- app_assoc. reflexivity.
Qed.

Lemma bits_to_bytes_to_bits (data : list byte) :
  BitPacker.bits_to_bytes (BitPacker.bytes_to_bits data) = Return data.
Proof.
  unfold BitPacker.bits_to_bytes. rewrite pad_multiple.
  - apply pack_loop_bytes_to_bits.
  - rewrite bytes_to_bits_length. dlia.
Qed.

Lemma pack_byte_of_bits (c : list Z) :
  length c = 8%nat -> Forall is_bit c ->
  exists b, byte_of_Z (BitPacker.pack_byte c 0) = Some b
            /\ BitPacker.bit_of (byte_to_Z b) <$> range 8 = c.
Proof.
  intros Hc Hb. do 9 (destruct c as [|? c]; try discriminate).
  repeat (apply Forall_cons_1 in Hb as [? Hb]).
  repeat match goal with
         | H : is_bit _ |- _ => destruct H as [-> | ->]
         end; eexists; split; vm_compute; reflexivity.
Qed.

Lemma pack_loop_bits (n : nat) (bits : list Z) (acc : list byte) :
  length bits = (8 * n)%nat -> Forall is_bit bits ->
  exists bs, BitPacker.pack_loop bits (range8 (length bits)) acc = Return (acc ++ bs)
             /\ BitPacker.bytes_to_bits bs = bits /\ length bs = n.
Proof.
  revert bits acc. induction n as [|n IH]; intros bits acc Hlen Hbits.
  - destruct bits; [|discriminate]. exists []. rewrite app_nil_r. done.
  - assert (Hc : length (take 8 bits) = 8%nat) by (rewrite length_take; zlia).
    assert (Hr : length (drop 8 bits) = (8 * n)%nat) by (rewrite length_drop; zlia).
    rewrite <- (take_drop 8 bits) in Hbits |- *.
    revert Hc Hr Hbits. generalize (take 8 bits) (drop 8 bits). clear bits Hlen.
    intros c rest Hc Hr Hbits.
    apply Forall_app in Hbits as [Hbc Hbr].
    destruct (pack_byte_of_bits c Hc Hbc) as (b & Hb & Hbits).
    destruct (IH rest (acc ++ [b]) Hr Hbr) as (bs & Hrun & Hbs & Hn).
    exists (b :: bs). rewrite length_app, Hc, range8_step.
    cbn [BitPacker.pack_loop]. rewrite pack_byte_head by exact Hc.
    unfold BitPacker.bytearray_append. rewrite Hb. cbn [mbind outcome_bind].
    rewrite pack_loop_skip by exact Hc. rewrite Hrun, <- app_assoc.
    split; [reflexivity|]. split; [|simpl; zlia].
    rewrite bytes_to_bits_cons, Hbits, Hbs. reflexivity.
Qed.

(** On lists of bits, [bits_to_bytes] succeeds, and what it returns expands
    to the bits followed by the padding. *)
Lemma bits_to_bytes_bits (bits : list Z) :
  Forall is_bit bits ->
  exists bs, BitPacker.bits_to_bytes bits = Return bs
             /\ BitPacker.bytes_to_bits bs = bits ++ replicate (pad_count bits) 0
             /\ (8 * length bs = length bits + pad_count bits)%nat.
Proof.
  intros Hbits. unfold BitPacker.bits_to_bytes.
  pose proof (pad_loop_multiple bits) as Hm. rewrite pad_spec in *.
  set (padded := bits ++ replicate (pad_count bits) 0) in *.
  destruct (pack_loop_bits (length padded / 8) padded []) as (bs & Hrun & Hbs & Hn).
  - dlia.
  - apply Forall_app. split; [exact Hbits|].
    apply Forall_replicate. left. reflexivity.
  - exists bs. split; [exact Hrun|]. split; [exact Hbs|].
    subst padded. rewrite length_app, length_replicate in *. dlia.
Qed.

(** ** The header codec *)

Arguments calculate_crc32 : simpl never.
Arguments int_from_bytes_big : simpl never.
Arguments byte_trunc : simpl never.

Lemma calculate_crc32_range (data : list byte) : 0 <= calculate_crc32 data < 2 ^ 32.
Proof.
  unfold calculate_crc32. change 0xffffffff with (Z.ones 32).
  rewrite Z.land_ones by zlia. apply Z.mod_pos_bound. zlia.
Qed.

Lemma int_from_bytes_big_4 (b0 b1 b2 b3 : byte) :
  int_from_bytes_big [b0; b1; b2; b3]
  = ((byte_to_Z b0 * 256 + byte_to_Z b1) * 256 + byte_to_Z b2) * 256 + byte_to_Z b3.
Proof. unfold int_from_bytes_big. simpl. zlia. Qed.

Lemma pack_I_spec (v : Z) :
  0 <= v < 2 ^ 32 ->
  exists b0 b1 b2 b3,
    pack_I v = Return [b0; b1; b2; b3] /\ int_from_bytes_big [b0; b1; b2; b3] = v.
Proof.
  intros Hv. unfold pack_I.
  replace ((0 <=? v) && (v <? 2 ^ 32)) with true
    by (symmetry; apply andb_true_iff; split; [apply Z.leb_le|apply Z.ltb_lt]; zlia).
  do 4 eexists. split; [reflexivity|].
  rewrite int_from_bytes_big_4, !byte_trunc_to_Z, !Z.shiftr_div_pow2 by zlia.
  dlia.
Qed.

Lemma pack_I_fails (v : Z) : ~ 0 <= v < 2 ^ 32 -> pack_I v = Raise StructError.
Proof.
  intros Hv. unfold pack_I.
  destruct (Z.leb_spec 0 v), (Z.ltb_spec v (2 ^ 32)); simpl; try reflexivity. zlia.
Qed.

Lemma pack_s_exact (n : nat) (b : list byte) : length b = n -> pack_s n b = b.
Proof.
  intros <-. unfold pack_s. rewrite firstn_all, Nat.sub_diag. apply app_nil_r.
Qed.

Lemma land_3_cases (x : Z) :
  Z.land x 3 = 0 \/ Z.land x 3 = 1 \/ Z.land x 3 = 2 \/ Z.land x 3 = 3.
Proof.
  pose proof (Z.land_ones x 2 ltac:(zlia)) as H. change (Z.ones 2) with 3 in H.
  rewrite H. change (2 ^ 2) with 4. dlia.
Qed.

(** The bytes [_create_header] puts together. *)
Lemma create_header_spec (salt nonce : list byte) (payload_length lsb_bits : Z)
    (scatter : bool) :
  0 <= payload_length < 2 ^ 32 ->
  exists f n c,
    let h38 := magic_bytes ++ [x01; f] ++ pack_s 16 salt ++ pack_s 12 nonce ++ n in
    byte_of_Z (if scatter then Z.lor (Z.land lsb_bits 3) 4 else Z.land lsb_bits 3) = Some f
    /\ length n = 4%nat
    /\ int_from_bytes_big n = payload_length
    /\ pack_I (calculate_crc32 h38) = Return c
    /\ length c = 4%nat
    /\ int_from_bytes_big c = calculate_crc32 h38
    /\ _create_header salt nonce payload_length lsb_bits scatter = Return (h38 ++ c).
Proof.
  intros Hp.
  destruct (byte_of_Z_is_Some
              (if scatter then Z.lor (Z.land lsb_bits 3) 4 else Z.land lsb_bits 3))
    as [f Hf].
  { destruct (land_3_cases lsb_bits) as [->|[->|[->| ->]]], scatter;
      vm_compute; split; congruence. }
  destruct (pack_I_spec payload_length Hp) as (n0 & n1 & n2 & n3 & Hpk & Hval).
  set (h38 := magic_bytes ++ [x01; f] ++ pack_s 16 salt ++ pack_s 12 nonce ++ [n0; n1; n2; n3]).
  destruct (pack_I_spec (calculate_crc32 h38) (calculate_crc32_range h38))
    as (c0 & c1 & c2 & c3 & Hck & Hcval).
  exists f, [n0; n1; n2; n3], [c0; c1; c2; c3]. cbv zeta. fold h38.
  repeat split; try assumption; try reflexivity.
  unfold _create_header, pack_header. change (pack_B version) with (Return [x01]).
  cbn [mbind outcome_bind]. unfold pack_B. rewrite Hf. cbn [mbind outcome_bind].
  rewrite Hpk. cbn [mbind outcome_bind].
  change (pack_s 4 magic_bytes) with magic_bytes.
  change (magic_bytes ++ [x01] ++ [f] ++ pack_s 16 salt ++ pack_s 12 nonce ++ [n0; n1; n2; n3])
    with h38.
  cbn [mret outcome_ret mbind outcome_bind]. rewrite Hck. reflexivity.
Qed.

Lemma parse_header_42 (hb : list byte) :
  length hb = 42%nat -> _parse_header hb = parse_42 hb.
Proof.
  intros Hlen. unfold _parse_header, parse_42. rewrite Hlen.
  change (42 <? header_size)%nat with false. cbn match.
  change (42 - 4)%nat with 38%nat.
  unfold unpack_I. rewrite length_drop, Hlen. change (42 - 38 =? 4)%nat with true.
  cbn match. cbn [mbind outcome_bind].
  destruct (calculate_crc32 (take 38 hb) =? int_from_bytes_big (drop 38 hb));
    [|reflexivity].
  cbn [negb]. cbn match. unfold unpack_header.
  rewrite length_take, Hlen. change (38 `min` 42 =? 38)%nat with true.
  cbn match. cbn [mbind outcome_bind].
  destruct (bool_decide (take 4 (take 38 hb) = magic_bytes)); [|reflexivity].
  cbn [negb]. cbn match.
  destruct (byte_to_Z (default x00 (take 38 hb !! 4%nat)) =? version); [|reflexivity].
  cbn [negb]. cbn match.
  destruct ((Z.land (byte_to_Z (default x00 (take 38 hb !! 5%nat))) 3 <? 1)
            || (Z.land (byte_to_Z (default x00 (take 38 hb !! 5%nat))) 3 >? 3));
    reflexivity.
Qed.

Lemma flags_decode (lsb_bits : Z) (scatter : bool) (f : byte) :
  lsb_bits = 1 \/ lsb_bits = 2 ->
  byte_of_Z (if scatter then Z.lor (Z.land lsb_bits 3) 4 else Z.land lsb_bits 3) = Some f ->
  Z.land (byte_to_Z f) 3 = lsb_bits /\ negb (Z.land (byte_to_Z f) 4 =? 0) = scatter.
Proof.
  intros Hl Hf. apply byte_to_of_Z in Hf. rewrite Hf.
  destruct Hl as [-> | ->], scatter; vm_compute; split; reflexivity.
Qed.

Ltac explicit_bytes l H :=
  repeat (destruct l as [|? l]; try discriminate H); clear H.

(** A header made by [_create_header] parses back to what it was made from. *)
Lemma create_then_parse_header (salt nonce : list byte) (payload_length lsb_bits : Z)
    (scatter : bool) :
  length salt = 16%nat -> length nonce = 12%nat ->
  0 <= payload_length < 2 ^ 32 -> lsb_bits = 1 \/ lsb_bits = 2 ->
  exists header,
    _create_header salt nonce payload_length lsb_bits scatter = Return header
    /\ length header = 42%nat
    /\ pack_I (calculate_crc32 (take 38 header)) = Return (drop 38 header)
    /\ _parse_header header
       = Return {| hi_version := 1; hi_lsb_bits := lsb_bits; hi_scatter := scatter;
                   hi_salt := salt; hi_nonce := nonce;
                   hi_payload_length := payload_length |}.
Proof.
  intros Hs Hn Hp Hl.
  destruct (create_header_spec salt nonce payload_length lsb_bits scatter Hp)
    as (f & n & c & Hf & Hnl & Hnv & Hc & Hcl & Hcv & Hcreate).
  cbv zeta in Hc, Hcv, Hcreate.
  rewrite (pack_s_exact 16 salt Hs), (pack_s_exact 12 nonce Hn) in Hc, Hcv, Hcreate.
  destruct (flags_decode lsb_bits scatter f Hl Hf) as [Hlsb Hsc].
  exists ((magic_bytes ++ [x01; f] ++ salt ++ nonce ++ n) ++ c).
  split; [exact Hcreate|].
  assert (Hl38 : length (magic_bytes ++ [x01; f] ++ salt ++ nonce ++ n) = 38%nat).
  { rewrite !length_app, Hs, Hn, Hnl. reflexivity. }
  split; [rewrite length_app, Hl38, Hcl; reflexivity|].
  split; [rewrite take_app_length', drop_app_length' by (symmetry; exact Hl38); exact Hc|].
  rewrite parse_header_42 by (rewrite length_app, Hl38, Hcl; reflexivity).
  unfold parse_42.
  rewrite take_app_length', drop_app_length' by (symmetry; exact Hl38).
  rewrite Hcv, Z.eqb_refl. cbn [negb]. cbn match.
  rewrite <- Hnv. clear Hcreate Hc Hcv Hl38 Hnv Hp Hf.
  change magic_bytes with [x41; x53; x54; x47].
  explicit_bytes salt Hs. explicit_bytes nonce Hn. explicit_bytes n Hnl.
  cbn [app take drop lookup list_lookup default from_option id].
  rewrite bool_decide_eq_true_2 by reflexivity.
  change (byte_to_Z x01 =? version) with true. cbn [negb]. cbn match.
  rewrite Hlsb, Hsc. destruct Hl as [-> | ->]; reflexivity.
Qed.

(** C9. For a 16-byte salt, a 12-byte nonce, a payload length below 2^32,
    [lsb_bits] 1 or 2 and either scatter flag, [_create_header] returns 42
    bytes whose last four are the big-endian CRC-32 of the first 38, and
    [_parse_header] of these bytes returns the salt, nonce, payload length,
    [lsb_bits] and scatter flag the header was made from. *)
Theorem header_codec_roundtrip (salt nonce : list byte) (payload_length lsb_bits : Z)
    (scatter : bool) :
  length salt = 16%nat -> length nonce = 12%nat ->
  0 <= payload_length < 2 ^ 32 -> lsb_bits = 1 \/ lsb_bits = 2 ->
  exists header,
    _create_header salt nonce payload_length lsb_bits scatter = Return header
    /\ length header = 42%nat
    /\ pack_I (calculate_crc32 (take 38 header)) = Return (drop 38 header)
    /\ _parse_header header
       = Return {| hi_version := 1; hi_lsb_bits := lsb_bits; hi_scatter := scatter;
                   hi_salt := salt; hi_nonce := nonce;
                   hi_payload_length := payload_length |}.
Proof.
  apply create_then_parse_header.
Qed.

(** ** The scatter generator *)

Lemma swap_spec (x : list nat) (i j : nat) :
  (i < length x)%nat -> (j < length x)%nat ->
  exists x', swap x i j = Return x' /\ x' ≡ₚ x.
Proof.
  intros Hi Hj. unfold swap.
  destruct (lookup_lt_is_Some_2 x i Hi) as [xi Hxi].
  destruct (lookup_lt_is_Some_2 x j Hj) as [xj Hxj].
  rewrite Hxi, Hxj. eexists. split; [reflexivity|].
  apply Permutation_insert_swap; assumption.
Qed.

Lemma shuffle_loop_spec (positions : list nat) (x : list nat) (s : rng) :
  Forall (fun i => (i < length x)%nat) positions ->
  exists x', shuffle_loop positions x s = Return x' /\ x' ≡ₚ x.
Proof using randbelow_lt.
  revert x s. induction positions as [|i positions IH]; intros x s Hpos.
  - exists x. split; reflexivity.
  - apply Forall_cons_1 in Hpos as [Hi Hpos]. cbn [shuffle_loop].
    pose proof (randbelow_lt s (i + 1) ltac:(zlia)) as Hj.
    destruct (randbelow s (i + 1)) as [j s']. cbn [fst] in Hj.
    destruct (swap_spec x i j Hi ltac:(zlia)) as (x1 & Hswap & Hperm).
    rewrite Hswap. cbn [mbind outcome_bind].
    destruct (IH x1 s') as (x2 & Hrun & Hperm2).
    { rewrite (Permutation_length Hperm). exact Hpos. }
    exists x2. split; [exact Hrun|]. etransitivity; eassumption.
Qed.

Lemma shuffle_spec (s : rng) (x : list nat) :
  exists x', shuffle s x = Return x' /\ x' ≡ₚ x.
Proof using randbelow_lt.
  apply shuffle_loop_spec. apply Forall_forall. intros i Hi.
  rewrite <- in_rev, in_seq in Hi. zlia.
Qed.

Lemma generate_scatter_indices_ok (count : nat) (total_samples : Z) (salt : list byte) :
  Z.of_nat count <= total_samples ->
  exists perm,
    shuffle (Random (scatter_seed salt)) (range (Z.to_nat total_samples)) = Return perm
    /\ perm ≡ₚ range (Z.to_nat total_samples)
    /\ _generate_scatter_indices count total_samples salt = Return (take count perm)
    /\ length (take count perm) = count
    /\ NoDup (take count perm)
    /\ Forall (fun i => (i < Z.to_nat total_samples)%nat) (take count perm).
Proof using randbelow_lt.
  intros Hc.
  destruct (shuffle_spec (Random (scatter_seed salt)) (range (Z.to_nat total_samples)))
    as (perm & Hsh & Hperm).
  exists perm. split; [exact Hsh|]. split; [exact Hperm|].
  assert (Hlen : length perm = Z.to_nat total_samples).
  { rewrite (Permutation_length Hperm). unfold range. apply length_seq. }
  assert (Hnd : NoDup perm).
  { rewrite Hperm. apply NoDup_seq. }
  split.
  { unfold _generate_scatter_indices.
    destruct (Z.gtb_spec (Z.of_nat count) total_samples) as [?|_]; [zlia|].
    rewrite Hsh. reflexivity. }
  split; [rewrite length_take; zlia|].
  split; [eapply sublist_NoDup; [exact Hnd|apply sublist_take]|].
  apply Forall_forall. intros i Hi. apply list_elem_of_In in Hi.
  assert (Hin : i ∈ range (Z.to_nat total_samples)).
  { rewrite <- Hperm. eapply elem_of_sublist; [exact Hi|apply sublist_take]. }
  apply elem_of_seq in Hin. zlia.
Qed.

Lemma generate_scatter_indices_short (count : nat) (total_samples : Z) (salt : list byte) :
  Z.of_nat count > total_samples ->
  _generate_scatter_indices count total_samples salt
  = Raise (StegoError (Because "Failed to generate scatter indices"
             (StegoError (Text "Not enough samples for scatter pattern")))).
Proof.
  intros Hc. unfold _generate_scatter_indices.
  destruct (Z.gtb_spec (Z.of_nat count) total_samples) as [_|?]; [reflexivity|zlia].
Qed.

(** C6. [_generate_scatter_indices] seeds the generator with the first four
    bytes, big-endian, of the SHA-256 of the salt followed by the tag
    "scatter", shuffles [0, total_samples) and returns the first [count]
    entries: [count] distinct indices below [total_samples].  It fails, with
    the not-enough-samples error, exactly when [count > total_samples].  The
    shuffled sequence is a function of the salt and [total_samples] alone. *)
Theorem scatter_indices_contract (count : nat) (total_samples : Z) (salt : list byte) :
  (Z.of_nat count > total_samples <->
   _generate_scatter_indices count total_samples salt
   = Raise (StegoError (Because "Failed to generate scatter indices"
              (StegoError (Text "Not enough samples for scatter pattern")))))
  /\ (Z.of_nat count <= total_samples ->
      exists perm,
        shuffle
          (Random (int_from_bytes_big
                     (take 4 (sha256 (salt ++ list_byte_of_string "scatter")))))
          (range (Z.to_nat total_samples)) = Return perm
        /\ perm ≡ₚ range (Z.to_nat total_samples)
        /\ _generate_scatter_indices count total_samples salt = Return (take count perm)
        /\ length (take count perm) = count
        /\ NoDup (take count perm)
        /\ Forall (fun i => (i < Z.to_nat total_samples)%nat) (take count perm)).
Proof using randbelow_lt.
  split; [split|].
  - apply generate_scatter_indices_short.
  - intros Hfail. destruct (Z.le_gt_cases (Z.of_nat count) total_samples) as [Hle|?]; [|zlia].
    destruct (generate_scatter_indices_ok count total_samples salt Hle)
      as (perm & _ & _ & Hok & _).
    rewrite Hok in Hfail. discriminate.
  - apply generate_scatter_indices_ok.
Qed.

(** ** The loops on one buffer *)

Lemma set_lsb_low (lsb_bits sample bit : Z) :
  1 <= lsb_bits -> is_bit bit -> Z.land (set_lsb lsb_bits sample bit) 1 = bit.
Proof.
  intros Hl Hb. unfold set_lsb.
  assert (H0 : Z.testbit (Z.land sample (Z.lnot (Z.shiftl 1 lsb_bits - 1))) 0 = false).
  { rewrite Z.land_spec, Z.shiftl_1_l. change (2 ^ lsb_bits - 1) with (Z.pred (2 ^ lsb_bits)).
    rewrite <- Z.ones_equiv, Z.lnot_spec, Z.ones_spec_low by zlia.
    apply andb_false_r. }
  rewrite land_1_mod, <- Z.bit0_mod.
  destruct Hb as [-> | ->].
  - change (0 =? 0) with true. cbv iota. rewrite H0. reflexivity.
  - change (1 =? 0) with false. cbv iota. rewrite Z.lor_spec, H0. reflexivity.
Qed.

Lemma set_lsb_high (lsb_bits sample bit k : Z) :
  1 <= lsb_bits -> lsb_bits <= k ->
  Z.testbit (set_lsb lsb_bits sample bit) k = Z.testbit sample k.
Proof.
  intros Hl Hk. unfold set_lsb.
  assert (H : Z.testbit (Z.land sample (Z.lnot (Z.shiftl 1 lsb_bits - 1))) k
              = Z.testbit sample k).
  { rewrite Z.land_spec, Z.shiftl_1_l. change (2 ^ lsb_bits - 1) with (Z.pred (2 ^ lsb_bits)).
    rewrite <- Z.ones_equiv, Z.lnot_spec, Z.ones_spec_high by zlia.
    apply andb_true_r. }
  destruct (bit =? 0); [exact H|].
  rewrite Z.lor_spec, H. replace (Z.testbit 1 k) with false; [apply orb_false_r|].
  symmetry. apply (Z.bits_above_log2 1 k); simpl; zlia.
Qed.

Lemma set_lsb_cleared (lsb_bits sample bit k : Z) :
  1 <= k < lsb_bits -> Z.testbit (set_lsb lsb_bits sample bit) k = false.
Proof.
  intros Hk. unfold set_lsb.
  assert (H : Z.testbit (Z.land sample (Z.lnot (Z.shiftl 1 lsb_bits - 1))) k = false).
  { rewrite Z.land_spec, Z.shiftl_1_l. change (2 ^ lsb_bits - 1) with (Z.pred (2 ^ lsb_bits)).
    rewrite <- Z.ones_equiv, Z.lnot_spec, Z.ones_spec_low by zlia.
    apply andb_false_r. }
  destruct (bit =? 0); [exact H|].
  rewrite Z.lor_spec, H. replace (Z.testbit 1 k) with false; [reflexivity|].
  symmetry. apply (Z.bits_above_log2 1 k); simpl; zlia.
Qed.

(** 16-bit samples stay 16-bit samples: nothing wraps when the new sample is
    stored. *)
Lemma set_lsb_int16 (lsb_bits sample bit : Z) :
  lsb_bits = 1 \/ lsb_bits = 2 -> -32768 <= sample < 32768 ->
  -32768 <= set_lsb lsb_bits sample bit < 32768.
Proof.
  intros Hl Hs. unfold set_lsb.
  assert (Hc : forall m, m = 2 \/ m = 4 ->
               Z.land sample (Z.lnot (m - 1)) = m * (sample / m)).
  { intros m Hm. 
    assert (Hm' : exists n, 0 <= n /\ m = 2 ^ n) by
      (destruct Hm as [-> | ->]; [exists 1|exists 2]; split; try zlia; reflexivity).
    destruct Hm' as (n & Hn & ->).
    change (2 ^ n - 1) with (Z.pred (2 ^ n)). rewrite <- Z.ones_equiv.
    rewrite <- Z.ldiff_land, Z.ldiff_ones_r by zlia.
    rewrite Z.shiftl_mul_pow2, Z.shiftr_div_pow2 by zlia. zlia. }
  assert (Hclr : exists m, (m = 2 \/ m = 4) /\
                 Z.land sample (Z.lnot (Z.shiftl 1 lsb_bits - 1)) = m * (sample / m)).
  { destruct Hl as [-> | ->]; [exists 2|exists 4]; (split; [zlia|]);
      apply Hc; zlia. }
  destruct Hclr as (m & Hm & ->).
  destruct (bit =? 0); [destruct Hm as [-> | ->]; dlia|].
  assert (Hor : Z.lor (m * (sample / m)) 1 = m * (sample / m) + 1).
  { assert (H : Z.land (m * (sample / m)) 1 = 0)
      by (rewrite land_1_mod; destruct Hm as [-> | ->]; dlia).
    rewrite <- Z.lxor_lor, <- Z.add_nocarry_lxor by exact H. reflexivity. }
  rewrite Hor. destruct Hm as [-> | ->]; dlia.
Qed.

Lemma store_bits_length (lsb_bits : Z) (writes : list (nat * Z)) (d out : list Z) :
  store_bits lsb_bits d writes = Return out -> length out = length d.
Proof.
  revert d. induction writes as [|[i bit] writes IH]; intros d H; cbn [store_bits] in H.
  - injection H as <-. reflexivity.
  - destruct (d !! i) as [sample|]; [|discriminate].
    rewrite (IH _ H). apply length_insert.
Qed.

Lemma store_bits_app (lsb_bits : Z) (w1 w2 : list (nat * Z)) (d : list Z) :
  store_bits lsb_bits d (w1 ++ w2)
  = d1 ← store_bits lsb_bits d w1; store_bits lsb_bits d1 w2.
Proof.
  revert d. induction w1 as [|[i bit] w1 IH]; intros d; [reflexivity|].
  cbn [app store_bits]. destruct (d !! i); [apply IH|reflexivity].
Qed.

Lemma store_bits_ok (lsb_bits : Z) (writes : list (nat * Z)) (d : list Z) :
  Forall (fun w => (w.1 < length d)%nat) writes ->
  exists out, store_bits lsb_bits d writes = Return out.
Proof.
  revert d. induction writes as [|[i bit] writes IH]; intros d Hw; [eexists; reflexivity|].
  apply Forall_cons_1 in Hw as [Hi Hw]. cbn [store_bits].
  destruct (lookup_lt_is_Some_2 d i Hi) as [sample ->].
  apply IH. rewrite length_insert. exact Hw.
Qed.

Lemma store_bits_out_of_range (lsb_bits : Z) (writes : list (nat * Z)) (d : list Z) :
  Exists (fun w => (length d <= w.1)%nat) writes ->
  exists i, store_bits lsb_bits d writes
            = Raise (IndexError (Z.of_nat i) (Z.of_nat (length d)))
            /\ (length d <= i)%nat.
Proof.
  revert d. induction writes as [|[i bit] writes IH]; intros d Hw.
  - apply Exists_nil in Hw. contradiction.
  - cbn [store_bits]. destruct (d !! i) as [sample|] eqn:Hi.
    + apply Exists_cons in Hw as [Hw|Hw].
      { apply lookup_lt_Some in Hi. simpl in Hw. zlia. }
      destruct (IH (<[i := set_lsb lsb_bits sample bit]> d)) as (j & Hj & Hlen).
      { rewrite length_insert. exact Hw. }
      rewrite length_insert in Hj, Hlen. exists j. split; assumption.
    + exists i. split; [reflexivity|]. apply lookup_ge_None. exact Hi.
Qed.

Lemma store_bits_other (lsb_bits : Z) (writes : list (nat * Z)) (d out : list Z) (p : nat) :
  store_bits lsb_bits d writes = Return out -> p ∉ writes.*1 -> out !! p = d !! p.
Proof.
  revert d. induction writes as [|[i bit] writes IH]; intros d H Hp; cbn [store_bits] in H.
  - injection H as <-. reflexivity.
  - destruct (d !! i) as [sample|]; [|discriminate].
    cbn [fmap list_fmap fst] in Hp. apply not_elem_of_cons in Hp as [Hpi Hp].
    rewrite (IH _ H Hp). apply list_lookup_insert_ne. congruence.
Qed.

Lemma store_bits_written (lsb_bits : Z) (writes : list (nat * Z)) (d out : list Z)
    (p : nat) (bit : Z) :
  NoDup writes.*1 -> (p, bit) ∈ writes ->
  store_bits lsb_bits d writes = Return out ->
  exists sample, d !! p = Some sample /\ out !! p = Some (set_lsb lsb_bits sample bit).
Proof.
  revert d. induction writes as [|[i b] writes IH]; intros d Hnd Hin H.
  - apply elem_of_nil in Hin. contradiction.
  - cbn [store_bits] in H. destruct (d !! i) as [sample|] eqn:Hi; [|discriminate].
    cbn [fmap list_fmap fst] in Hnd. apply list.NoDup_cons in Hnd as [Hni Hnd].
    apply elem_of_cons in Hin as [Heq|Hin].
    + injection Heq as -> ->. exists sample. split; [exact Hi|].
      rewrite (store_bits_other _ _ _ _ _ H Hni).
      apply list_lookup_insert_eq. apply lookup_lt_Some in Hi. exact Hi.
    + destruct (IH _ Hnd Hin H) as (s & Hs & Hout).
      exists s. split; [|exact Hout].
      rewrite list_lookup_insert_ne in Hs; [exact Hs|].
      intros ->. apply Hni. apply list_elem_of_fmap. exists (p, bit). split; [reflexivity|exact Hin].
Qed.

Lemma store_bits_high (lsb_bits : Z) (writes : list (nat * Z)) (d out : list Z)
    (p : nat) (sample : Z) :
  1 <= lsb_bits -> store_bits lsb_bits d writes = Return out -> d !! p = Some sample ->
  exists sample', out !! p = Some sample'
    /\ forall k, lsb_bits <= k -> Z.testbit sample' k = Z.testbit sample k.
Proof.
  intros Hl. revert d sample.
  induction writes as [|[i bit] writes IH]; intros d sample H Hp; cbn [store_bits] in H.
  - injection H as <-. exists sample. split; [exact Hp|reflexivity].
  - destruct (d !! i) as [si|] eqn:Hi; [|discriminate].
    destruct (decide (i = p)) as [->|Hne].
    + destruct (IH _ (set_lsb lsb_bits si bit) H) as (s' & Hs' & Hbits).
      { apply list_lookup_insert_eq. apply lookup_lt_Some in Hi. exact Hi. }
      exists s'. split; [exact Hs'|]. intros k Hk.
      rewrite (Hbits k Hk), set_lsb_high by zlia. congruence.
    + apply (IH _ sample H). rewrite list_lookup_insert_ne by exact Hne. exact Hp.
Qed.

Lemma read_bits_spec (too_short : string) (d : list Z) (positions : list nat)
    (bits : list Z) :
  Forall2 (fun p bit => exists sample, d !! p = Some sample /\ Z.land sample 1 = bit)
    positions bits ->
  read_bits too_short d positions = Return bits.
Proof.
  induction 1 as [|p bit positions bits (sample & Hs & Hb) _ IH]; [reflexivity|].
  cbn [read_bits]. rewrite Hs, IH, Hb. reflexivity.
Qed.

Lemma read_bits_short (too_short : string) (d : list Z) (positions : list nat) :
  Exists (fun p => (length d <= p)%nat) positions ->
  read_bits too_short d positions = Raise (StegoError (Text too_short)).
Proof.
  induction positions as [|p positions IH]; intros H.
  - apply Exists_nil in H. contradiction.
  - cbn [read_bits]. destruct (d !! p) as [sample|] eqn:Hp; [|reflexivity].
    apply Exists_cons in H as [H|H].
    + apply lookup_lt_Some in Hp. zlia.
    + rewrite (IH H). reflexivity.
Qed.

Lemma read_bits_prefix (too_short : string) (d : list Z) (n : nat) :
  (n <= length d)%nat ->
  read_bits too_short d (range n) = Return ((fun sample => Z.land sample 1) <$> take n d).
Proof.
  intros Hn. apply read_bits_spec. apply Forall2_same_length_lookup. split.
  - unfold range. rewrite length_seq, length_fmap, length_take. zlia.
  - intros i p bit Hp Hbit. unfold range in Hp. apply lookup_seq in Hp as [-> Hi].
    rewrite list_lookup_fmap, lookup_take, decide_True in Hbit by exact Hi.
    change (0 + i)%nat with i.
    destruct (d !! i) as [sample|] eqn:Hd; rewrite ?Hd in Hbit; simpl in Hbit;
      [|discriminate].
    injection Hbit as <-. exists sample. split; reflexivity.
Qed.

(** Reading back what was stored: distinct positions, bits that are bits. *)
Lemma read_after_store (too_short : string) (lsb_bits : Z) (writes sub : list (nat * Z))
    (d out : list Z) :
  1 <= lsb_bits -> NoDup writes.*1 -> Forall is_bit writes.*2 ->
  store_bits lsb_bits d writes = Return out ->
  Forall (fun w => w ∈ writes) sub ->
  read_bits too_short out sub.*1 = Return sub.*2.
Proof.
  intros Hl Hnd Hbits Hst Hsub. apply read_bits_spec.
  apply Forall2_fmap. induction Hsub as [|[p bit] sub Hin _ IH]; constructor; [|exact IH].
  destruct (store_bits_written _ _ _ _ _ _ Hnd Hin Hst) as (sample & _ & Hout).
  exists (set_lsb lsb_bits sample bit). split; [exact Hout|].
  apply set_lsb_low; [exact Hl|].
  rewrite list.Forall_forall in Hbits. apply Hbits.
  apply list_elem_of_fmap. exists (p, bit). split; [reflexivity|exact Hin].
Qed.

(** ** Running the services on the store *)

Lemma bind_run {A B} (m : M A) (f : A -> M B) (h h' : heap) (r : outcome A) :
  m h = (h', r) ->
  (m ≫= f) h = match r with Return a => f a h' | Raise e => (h', Raise e) end.
Proof. intros H. unfold mbind, M_bind. rewrite H. destruct r; reflexivity. Qed.

Lemma samples_new (h : heap) (d : list Z) (a : ndarray) :
  buffer a = length h -> samples (h ++ [d]) a = d.
Proof. intros Hb. unfold samples. apply list_lookup_total_middle. exact Hb. Qed.

Lemma samples_copy (h : heap) (d0 d : list Z) (a : ndarray) :
  buffer a = S (length h) -> samples (h ++ [d0; d]) a = d.
Proof.
  intros Hb. unfold samples. change (h ++ [d0; d]) with (h ++ [d0] ++ [d]).
  rewrite app_assoc. apply list_lookup_total_middle.
  rewrite Hb, length_app. simpl. zlia.
Qed.

Lemma valid_samples (h : heap) (a : ndarray) :
  valid h a -> h !! buffer a = Some (samples h a) /\ length (samples h a) = size a.
Proof.
  intros (d & Hd & Hlen). unfold samples.
  rewrite (list_lookup_total_correct _ _ _ Hd). split; assumption.
Qed.

Lemma read_lsb_run (h : heap) (fa : ndarray) (too_short : string) (idx : nat) :
  read_lsb fa too_short idx h
  = (h, match samples h fa !! idx with
        | Some sample => Return (Z.land sample 1)
        | None => Raise (StegoError (Text too_short))
        end).
Proof.
  unfold read_lsb, np_len, np_getitem, raise, mbind, M_bind, mret, M_ret.
  destruct (Nat.leb_spec (length (samples h fa)) idx) as [Hle|Hlt].
  - rewrite (proj2 (lookup_ge_None _ _) Hle). reflexivity.
  - destruct (lookup_lt_is_Some_2 _ _ Hlt) as [sample ->]. reflexivity.
Qed.

Lemma collect_read_run {A} (h : heap) (fa : ndarray) (too_short : string)
    (g : A -> nat) (xs : list A) :
  collect xs (fun x => read_lsb fa too_short (g x)) h
  = (h, read_bits too_short (samples h fa) (g <$> xs)).
Proof.
  induction xs as [|x xs IH]; [reflexivity|].
  cbn [collect fmap list_fmap read_bits].
  rewrite (bind_run _ _ _ _ _ (read_lsb_run h fa too_short (g x))).
  destruct (samples h fa !! g x) as [sample|]; [|reflexivity].
  rewrite (bind_run _ _ _ _ _ IH).
  destruct (read_bits too_short (samples h fa) (g <$> xs)); reflexivity.
Qed.

Lemma lift_bind_run {A B} (r : outcome A) (f : A -> M B) (h : heap) :
  (lift r ≫= f) h = match r with Return a => f a h | Raise e => (h, Raise e) end.
Proof. destruct r; reflexivity. Qed.

Lemma ret_bind_run {A B} (a : A) (f : A -> M B) (h : heap) : (mret a ≫= f) h = f a h.
Proof. reflexivity. Qed.

Lemma np_len_bind_run {B} (a : ndarray) (f : nat -> M B) (h : heap) :
  (np_len a ≫= f) h = f (length (samples h a)) h.
Proof. reflexivity. Qed.

Lemma lift_run {A} (r : outcome A) (h : heap) : lift r h = (h, r).
Proof. reflexivity. Qed.

(** [extract_message] allocates the flattened copy, reads it, and changes
    nothing else. *)
Lemma extract_message_run (h : heap) (a : ndarray) :
  extract_message a h
  = (h ++ [samples h a],
     reraise "Failed to extract message" (extract_samples (samples h a))).
Proof.
  unfold extract_message, reraiseM, extract_samples.
  set (d := samples h a). set (h1 := h ++ [d]).
  set (fa := {| buffer := length h; shape := [length d] |}).
  assert (Hfa : samples h1 fa = d) by (apply samples_new; reflexivity).
  assert (Hflat : np_flatten a h = (h1, Return fa)) by reflexivity.
  rewrite (bind_run _ _ _ _ _ Hflat).
  pose proof (collect_read_run h1 fa "Audio file too short for header" id
                (range (header_size * 8))) as Hhdr.
  rewrite list_fmap_id, Hfa in Hhdr.
  rewrite (bind_run _ _ _ _ _ Hhdr).
  destruct (read_bits _ d (range (header_size * 8))) as [header_bits|e]; [|reflexivity].
  cbn [mbind outcome_bind]. rewrite lift_bind_run.
  destruct (BitPacker.bits_to_bytes header_bits) as [header_bytes|e]; [|reflexivity].
  cbn [mbind outcome_bind]. rewrite lift_bind_run.
  destruct (_parse_header header_bytes) as [info|e]; [|reflexivity].
  cbn [mbind outcome_bind]. rewrite np_len_bind_run, Hfa.
  destruct (hi_scatter info).
  - destruct (_generate_scatter_indices _ _ (hi_salt info)) as [indices|e].
    2: { erewrite bind_run; [|rewrite lift_bind_run; reflexivity]. reflexivity. }
    erewrite bind_run; cycle 1.
    { rewrite lift_bind_run.
      rewrite (collect_read_run h1 fa _ (fun p => (header_size * 8 + p)%nat) indices), Hfa.
      reflexivity. }
    cbn [mbind outcome_bind].
    destruct (read_bits _ d _) as [payload_bits|e]; [|reflexivity].
    cbn [mbind outcome_bind]. rewrite lift_bind_run.
    destruct (BitPacker.bits_to_bytes payload_bits); reflexivity.
  - erewrite bind_run; cycle 1.
    { rewrite (collect_read_run h1 fa _ (fun p => (header_size * 8 + p)%nat)), Hfa.
      reflexivity. }
    cbn [mbind outcome_bind mret outcome_ret].
    destruct (read_bits _ d _) as [payload_bits|e]; [|reflexivity].
    cbn [mbind outcome_bind]. rewrite lift_bind_run.
    destruct (BitPacker.bits_to_bytes payload_bits); reflexivity.
Qed.

Lemma write_lsb_run_ok (h : heap) (d0 d : list Z) (fa : ndarray) (lsb_bits : Z)
    (i : nat) (bit sample : Z) :
  buffer fa = S (length h) -> 0 <= lsb_bits -> d !! i = Some sample ->
  write_lsb fa lsb_bits i bit (h ++ [d0; d])
  = (h ++ [d0; <[i := set_lsb lsb_bits sample bit]> d], Return tt).
Proof.
  intros Hb Hl Hi. unfold write_lsb.
  assert (Hget : np_getitem fa i (h ++ [d0; d]) = (h ++ [d0; d], Return sample)).
  { unfold np_getitem. rewrite (samples_copy h d0 d fa Hb), Hi. reflexivity. }
  rewrite (bind_run _ _ _ _ _ Hget), lift_bind_run. unfold shl.
  destruct (Z.ltb_spec lsb_bits 0) as [?|_]; [zlia|].
  unfold np_setitem. rewrite (samples_copy h d0 d fa Hb).
  apply lookup_lt_Some in Hi. destruct (Nat.ltb_spec i (length d)) as [_|?]; [|zlia].
  rewrite Hb, insert_app_r_alt by zlia.
  replace (S (length h) - length h)%nat with 1%nat by zlia. reflexivity.
Qed.

Lemma write_lsb_run_fail (h : heap) (d0 d : list Z) (fa : ndarray) (lsb_bits : Z)
    (i : nat) (bit : Z) :
  buffer fa = S (length h) -> d !! i = None ->
  write_lsb fa lsb_bits i bit (h ++ [d0; d])
  = (h ++ [d0; d], Raise (IndexError (Z.of_nat i) (Z.of_nat (length d)))).
Proof.
  intros Hb Hi. unfold write_lsb.
  assert (Hget : np_getitem fa i (h ++ [d0; d])
                 = (h ++ [d0; d], Raise (IndexError (Z.of_nat i) (Z.of_nat (length d))))).
  { unfold np_getitem. rewrite (samples_copy h d0 d fa Hb), Hi. reflexivity. }
  rewrite (bind_run _ _ _ _ _ Hget). reflexivity.
Qed.

(** The writing loops change the copy and nothing else; when every write is
    in range they leave [store_bits] in it. *)
Lemma for_each_write_run (h : heap) (d0 : list Z) (fa : ndarray) (lsb_bits : Z)
    (writes : list (nat * Z)) (d : list Z) :
  buffer fa = S (length h) -> 0 <= lsb_bits ->
  exists d',
    for_each writes (fun '(i, bit) => write_lsb fa lsb_bits i bit) (h ++ [d0; d])
    = (h ++ [d0; d'], store_bits lsb_bits d writes ≫= fun _ => Return tt)
    /\ forall out, store_bits lsb_bits d writes = Return out -> d' = out.
Proof.
  intros Hb Hl. revert d. induction writes as [|[i bit] writes IH]; intros d.
  - exists d. split; [reflexivity|]. intros out [= <-]. reflexivity.
  - cbn [for_each store_bits]. destruct (d !! i) as [sample|] eqn:Hi.
    + rewrite (bind_run _ _ _ _ _ (write_lsb_run_ok h d0 d fa lsb_bits i bit sample Hb Hl Hi)).
      apply IH.
    + rewrite (bind_run _ _ _ _ _ (write_lsb_run_fail h d0 d fa lsb_bits i bit Hb Hi)).
      exists d. split; [reflexivity|]. intros out [=].
Qed.

(** The payload loop looks its sample index up before it writes. *)
Lemma for_each_positions (fidx : nat -> M nat) (write : nat -> Z -> M unit)
    (base : nat) (positions : list nat) (bits : list Z) (k : nat) (h : heap) :
  (forall i p h', positions !! i = Some p -> fidx (k + i)%nat h' = (h', Return (base + p)%nat)) ->
  length positions = length bits ->
  for_each (zip (seq k (length bits)) bits)
    (fun '(i, bit) => sample_idx ← fidx i; write sample_idx bit) h
  = for_each (zip ((fun p => (base + p)%nat) <$> positions) bits)
      (fun '(i, bit) => write i bit) h.
Proof.
  revert positions k h. induction bits as [|bit bits IH]; intros positions k h Hf Hlen.
  - destruct positions; reflexivity.
  - destruct positions as [|p positions]; [discriminate|].
    cbn [length seq zip zip_with fmap list_fmap for_each].
    pose proof (Hf 0%nat p h eq_refl) as H0. rewrite Nat.add_0_r in H0.
    assert (E : (fidx k ≫= fun sample_idx => write sample_idx bit) h
                = write (base + p)%nat bit h)
      by (rewrite (bind_run _ _ _ _ _ H0); reflexivity).
    destruct (write (base + p)%nat bit h) as [h' r] eqn:Hw.
    rewrite (bind_run _ _ h h' r E), (bind_run _ _ h h' r Hw).
    destruct r as [[]|e]; [|reflexivity].
    apply IH; [|simpl in Hlen; zlia].
    intros i q h'' Hq. replace (S k + i)%nat with (k + S i)%nat by zlia.
    apply Hf. exact Hq.
Qed.

Lemma create_header_length (salt nonce : list byte) (payload_length lsb_bits : Z)
    (scatter : bool) (header : list byte) :
  _create_header salt nonce payload_length lsb_bits scatter = Return header ->
  length header = 42%nat.
Proof.
  unfold _create_header, pack_header, pack_B, pack_I, pack_s.
  change (byte_of_Z version) with (Some x01). cbn [mbind outcome_bind].
  destruct (byte_of_Z _) as [f|]; [|discriminate]. cbn [mbind outcome_bind].
  destruct ((0 <=? payload_length) && (payload_length <? 2 ^ 32)); [|discriminate].
  cbn [mbind outcome_bind mret outcome_ret].
  destruct ((0 <=? calculate_crc32 _) && (calculate_crc32 _ <? 2 ^ 32)); [|discriminate].
  cbn [reraise]. intros [= <-]. cbn [length].
  rewrite !length_app, !length_take, !length_replicate. cbn [length]. zlia.
Qed.

Lemma generate_scatter_indices_length (count : nat) (total_samples : Z)
    (salt : list byte) (indices : list nat) :
  _generate_scatter_indices count total_samples salt = Return indices ->
  length indices = count /\ NoDup indices
  /\ Forall (fun i => (i < Z.to_nat total_samples)%nat) indices
  /\ Z.of_nat count <= total_samples.
Proof using randbelow_lt.
  intros H. destruct (Z.le_gt_cases (Z.of_nat count) total_samples) as [Hle|Hgt].
  - destruct (generate_scatter_indices_ok count total_samples salt Hle)
      as (perm & _ & _ & Hok & Hlen & Hnd & Hlt).
    rewrite Hok in H. injection H as <-. auto.
  - rewrite generate_scatter_indices_short in H by zlia. discriminate.
Qed.

Lemma embed_message_run (h : heap) (a : ndarray) (encrypted_data salt nonce : list byte)
    (lsb_bits : Z) (scatter : bool) :
  length (samples h a) = size a ->
  exists extra,
    embed_message a encrypted_data salt nonce lsb_bits scatter h
    = (h ++ extra,
       reraise "Failed to embed message"
         (out ← embed_samples (samples h a) encrypted_data salt nonce lsb_bits scatter;
          mret {| buffer := S (length h); shape := shape a |}))
    /\ forall out,
         embed_samples (samples h a) encrypted_data salt nonce lsb_bits scatter = Return out ->
         extra = [samples h a; out].
Proof using randbelow_lt.
  intros Hlen. unfold embed_message, embed_samples, reraiseM. rewrite <- Hlen.
  set (d := samples h a) in *.
  rewrite lift_bind_run.
  destruct (_create_header salt nonce (Z.of_nat (length encrypted_data)) lsb_bits scatter)
    as [header|e] eqn:Hhdr.
  2: { exists []. rewrite app_nil_r. split; [reflexivity|intros out [=]]. }
  cbn [mbind outcome_bind]. cbv zeta.
  destruct (Z.of_nat (length (header ++ encrypted_data)) * 8 >? Z.of_nat (length d) * lsb_bits)
    eqn:Hcap.
  { exists []. rewrite app_nil_r. split; [reflexivity|intros out [=]]. }
  assert (Hl : 1 <= lsb_bits).
  { apply create_header_length in Hhdr. rewrite length_app, Hhdr in Hcap.
    destruct (Z.gtb_spec (Z.of_nat (42 + length encrypted_data) * 8)
                (Z.of_nat (length d) * lsb_bits)); [discriminate|]. znia. }
  set (flat := {| buffer := length h; shape := [length d] |}).
  set (fa := {| buffer := S (length h); shape := [length d] |}).
  assert (Hflat : np_flatten a h = (h ++ [d], Return flat)) by reflexivity.
  assert (Hcopy : np_copy flat (h ++ [d]) = (h ++ [d; d], Return fa)).
  { unfold np_copy, new_array. rewrite (samples_new h d flat eq_refl).
    rewrite <- app_assoc, length_app. subst fa. cbn [length app shape].
    do 3 f_equal. zlia. }
  rewrite (bind_run _ _ _ _ _ Hflat). cbv beta iota.
  rewrite (bind_run _ _ _ _ _ Hcopy). cbv beta iota.
  set (hbits := take (header_size * 8) (BitPacker.bytes_to_bits (header ++ encrypted_data))).
  set (pbits := drop (header_size * 8) (BitPacker.bytes_to_bits (header ++ encrypted_data))).
  assert (Hreshape : forall out,
            np_reshape fa (shape a) (h ++ [d; out])
            = (h ++ [d; out], Return {| buffer := S (length h); shape := shape a |})).
  { intros out. unfold np_reshape. change (foldr Nat.mul 1%nat (shape a)) with (size a).
    replace (size fa) with (size a) by (rewrite <- Hlen; unfold size; simpl; zlia).
    rewrite Nat.eqb_refl. reflexivity. }
  destruct (for_each_write_run h d fa lsb_bits (enumerate hbits) d eq_refl ltac:(zlia))
    as (d1' & Hrun1 & Hout1).
  rewrite (bind_run _ _ _ _ _ Hrun1).
  destruct (store_bits lsb_bits d (enumerate hbits)) as [d1|e].
  2: { exists [d; d1']. split; [reflexivity|intros out [=]]. }
  rewrite (Hout1 d1 eq_refl). clear d1' Hrun1 Hout1. cbn [mbind outcome_bind].
  assert (Hpayload : forall positions,
            length positions = length pbits ->
            (forall h', for_each (enumerate pbits)
               (fun '(i, bit) =>
                  sample_idx ←
                    (if scatter then
                       idx ← list_getitem positions i; mret (header_size * 8 + idx)%nat
                     else mret (header_size * 8 + i)%nat);
                  write_lsb fa lsb_bits sample_idx bit) h'
             = for_each (zip ((fun p => (header_size * 8 + p)%nat) <$>
                                (if scatter then positions else range (length pbits))) pbits)
                 (fun '(i, bit) => write_lsb fa lsb_bits i bit) h')).
  { intros positions Hpl h'. unfold enumerate.
    apply (for_each_positions
             (fun i => if scatter then
                         idx ← list_getitem positions i; mret (header_size * 8 + idx)%nat
                       else mret (header_size * 8 + i)%nat)
             (write_lsb fa lsb_bits) (header_size * 8)
             (if scatter then positions else range (length pbits)) pbits 0%nat h').
    - intros i p h'' Hp. cbn [Nat.add]. destruct scatter.
      + unfold list_getitem. rewrite Hp. reflexivity.
      + unfold range in Hp. apply lookup_seq in Hp as [-> _]. reflexivity.
    - destruct scatter; [exact Hpl|]. unfold range. apply length_seq. }
  destruct scatter.
  - rewrite lift_bind_run.
    destruct (_generate_scatter_indices (length pbits) _ salt) as [indices|e] eqn:Hgen.
    2: { exists [d; d1]. split; [reflexivity|intros out [=]]. }
    destruct (generate_scatter_indices_length _ _ _ _ Hgen) as (Hilen & _).
    cbn [mbind outcome_bind].
    destruct (for_each_write_run h d fa lsb_bits
                (zip ((fun p => (header_size * 8 + p)%nat) <$> indices) pbits) d1
                eq_refl ltac:(zlia)) as (d2' & Hrun2 & Hout2).
    rewrite (bind_run _ _ _ _ _ (eq_trans (Hpayload indices Hilen _) Hrun2)).
    destruct (store_bits lsb_bits d1 _) as [d2|e].
    2: { exists [d; d2']. split; [reflexivity|intros out [=]]. }
    rewrite (Hout2 d2 eq_refl). cbn [mbind outcome_bind]. rewrite Hreshape.
    exists [d; d2]. split; [reflexivity|]. intros out [= <-]. reflexivity.
  - rewrite ret_bind_run.
    destruct (for_each_write_run h d fa lsb_bits
                (zip ((fun p => (header_size * 8 + p)%nat) <$> range (length pbits)) pbits) d1
                eq_refl ltac:(zlia)) as (d2' & Hrun2 & Hout2).
    rewrite (bind_run _ _ _ _ _ (eq_trans (Hpayload (range (length pbits))
                                             ltac:(unfold range; apply length_seq) _) Hrun2)).
    cbn [mbind outcome_bind].
    destruct (store_bits lsb_bits d1 _) as [d2|e].
    2: { exists [d; d2']. split; [reflexivity|intros out [=]]. }
    rewrite (Hout2 d2 eq_refl). cbn [mbind outcome_bind]. rewrite Hreshape.
    exists [d; d2]. split; [reflexivity|]. intros out [= <-]. reflexivity.
Qed.

(** ** Embedding: when it succeeds and what it leaves *)

Lemma enumerate_fst {A} (xs : list A) : (enumerate xs).*1 = seq 0 (length xs).
Proof. unfold enumerate. apply fst_zip. rewrite length_seq. zlia. Qed.

Lemma enumerate_snd {A} (xs : list A) : (enumerate xs).*2 = xs.
Proof. unfold enumerate. apply snd_zip. rewrite length_seq. zlia. Qed.

Lemma header_bits_split (header encrypted_data : list byte) :
  length header = 42%nat ->
  take (header_size * 8) (BitPacker.bytes_to_bits (header ++ encrypted_data))
  = BitPacker.bytes_to_bits header
  /\ drop (header_size * 8) (BitPacker.bytes_to_bits (header ++ encrypted_data))
     = BitPacker.bytes_to_bits encrypted_data.
Proof.
  intros Hh. rewrite bytes_to_bits_app.
  assert (Hl : (header_size * 8)%nat = length (BitPacker.bytes_to_bits header))
    by (rewrite bytes_to_bits_length, Hh; reflexivity).
  rewrite Hl. split; [apply take_app_length|apply drop_app_length].
Qed.

Lemma embed_samples_unfold (d : list Z) (encrypted_data salt nonce header : list byte)
    (lsb_bits : Z) (scatter : bool) :
  _create_header salt nonce (Z.of_nat (length encrypted_data)) lsb_bits scatter
  = Return header ->
  embed_samples d encrypted_data salt nonce lsb_bits scatter
  = if Z.of_nat (42 + length encrypted_data) * 8 >? Z.of_nat (length d) * lsb_bits then
      Raise (StegoError (InsufficientCapacity (Z.of_nat (42 + length encrypted_data) * 8)
                           (Z.of_nat (length d) * lsb_bits)))
    else
      d1 ← store_bits lsb_bits d (enumerate (BitPacker.bytes_to_bits header));
      positions ← payload_positions scatter salt (8 * length encrypted_data) (length d);
      store_bits lsb_bits d1 (payload_writes positions encrypted_data).
Proof.
  intros Hhdr. unfold embed_samples, payload_positions, payload_writes.
  rewrite Hhdr. cbn [mbind outcome_bind]. cbv zeta.
  pose proof (create_header_length _ _ _ _ _ _ Hhdr) as Hlen.
  destruct (header_bits_split header encrypted_data Hlen) as [-> ->].
  rewrite length_app, Hlen, bytes_to_bits_length. reflexivity.
Qed.

Lemma payload_positions_spec (scatter : bool) (salt : list byte) (count samples_len : nat)
    (positions : list nat) :
  payload_positions scatter salt count samples_len = Return positions ->
  length positions = count /\ NoDup positions
  /\ (scatter = true ->
      Forall (fun p => (header_size * 8 + p < samples_len)%nat) positions)
  /\ (scatter = false -> positions = range count).
Proof using randbelow_lt.
  unfold payload_positions. destruct scatter; intros H.
  - destruct (generate_scatter_indices_length _ _ _ _ H) as (Hl & Hnd & Hlt & Hc).
    split; [exact Hl|]. split; [exact Hnd|]. split; [|discriminate].
    intros _. eapply list.Forall_impl; [exact Hlt|]. intros p Hp. unfold header_size in *. zlia.
  - injection H as <-. unfold range. rewrite length_seq.
    split; [reflexivity|]. split; [apply NoDup_seq|]. split; [discriminate|reflexivity].
Qed.

Lemma payload_writes_fst (positions : list nat) (encrypted_data : list byte) :
  length positions = (8 * length encrypted_data)%nat ->
  (payload_writes positions encrypted_data).*1
  = (fun p => (header_size * 8 + p)%nat) <$> positions
  /\ (payload_writes positions encrypted_data).*2 = BitPacker.bytes_to_bits encrypted_data.
Proof.
  intros Hl. unfold payload_writes.
  split; [apply fst_zip|apply snd_zip];
    rewrite length_fmap, bytes_to_bits_length; zlia.
Qed.

Lemma store_bits_in_range (lsb_bits : Z) (writes : list (nat * Z)) (d : list Z) :
  Forall (fun p => (p < length d)%nat) writes.*1 ->
  exists out, store_bits lsb_bits d writes = Return out.
Proof.
  intros H. apply store_bits_ok. apply Forall_fmap in H. exact H.
Qed.

(** Embedding succeeds when there is one sample for every bit of header and
    payload. *)
Lemma embed_samples_ok (d : list Z) (encrypted_data salt nonce : list byte)
    (lsb_bits : Z) (scatter : bool) :
  1 <= lsb_bits -> Z.of_nat (length encrypted_data) < 2 ^ 32 ->
  ((42 + length encrypted_data) * 8 <= length d)%nat ->
  exists out, embed_samples d encrypted_data salt nonce lsb_bits scatter = Return out.
Proof using randbelow_lt.
  intros Hl Hp Hcap.
  destruct (create_header_spec salt nonce (Z.of_nat (length encrypted_data)) lsb_bits scatter
              ltac:(zlia)) as (f & n & c & _ & _ & _ & _ & _ & _ & Hhdr).
  cbv zeta in Hhdr. revert Hhdr. generalize ((magic_bytes ++ [x01; f] ++ pack_s 16 salt ++ pack_s 12 nonce ++ n) ++ c).
  intros header Hhdr. rewrite (embed_samples_unfold _ _ _ _ _ _ _ Hhdr).
  pose proof (create_header_length _ _ _ _ _ _ Hhdr) as Hlen.
  destruct (Z.gtb_spec (Z.of_nat (42 + length encrypted_data) * 8)
              (Z.of_nat (length d) * lsb_bits)) as [?|_]; [znia|].
  destruct (store_bits_in_range lsb_bits (enumerate (BitPacker.bytes_to_bits header)) d)
    as [d1 Hd1].
  { rewrite enumerate_fst, bytes_to_bits_length, Hlen. apply Forall_seq. intros; zlia. }
  rewrite Hd1. cbn [mbind outcome_bind].
  pose proof (store_bits_length _ _ _ _ Hd1) as Hl1.
  assert (Hpos : exists positions,
            payload_positions scatter salt (8 * length encrypted_data) (length d)
            = Return positions).
  { unfold payload_positions. destruct scatter; [|eexists; reflexivity].
    destruct (generate_scatter_indices_ok (8 * length encrypted_data)
                (Z.of_nat (length d) - Z.of_nat (header_size * 8)) salt)
      as (perm & _ & _ & Hok & _); [unfold header_size; zlia|].
    eexists. exact Hok. }
  destruct Hpos as [positions Hpos]. rewrite Hpos. cbn [mbind outcome_bind].
  destruct (payload_positions_spec _ _ _ _ _ Hpos) as (Hpl & _ & Hsc & Hseq).
  apply store_bits_in_range.
  destruct (payload_writes_fst positions encrypted_data Hpl) as [-> _].
  apply Forall_fmap. rewrite Hl1. destruct scatter.
  - apply Hsc. reflexivity.
  - rewrite (Hseq eq_refl). unfold range. apply Forall_seq. intros p Hp'.
    simpl. unfold header_size. zlia.
Qed.

(** Embedding fails when the buffer has fewer samples than there are bits
    to store, whatever [lsb_bits] is. *)
Lemma embed_samples_short (d : list Z) (encrypted_data salt nonce : list byte)
    (lsb_bits : Z) (scatter : bool) :
  (length d < (42 + length encrypted_data) * 8)%nat ->
  exists e, embed_samples d encrypted_data salt nonce lsb_bits scatter = Raise e.
Proof using randbelow_lt.
  intros Hshort.
  destruct (_create_header salt nonce (Z.of_nat (length encrypted_data)) lsb_bits scatter)
    as [header|e] eqn:Hhdr.
  2: { unfold embed_samples. rewrite Hhdr. eexists. reflexivity. }
  rewrite (embed_samples_unfold _ _ _ _ _ _ _ Hhdr).
  pose proof (create_header_length _ _ _ _ _ _ Hhdr) as Hlen.
  destruct (_ >? _); [eexists; reflexivity|].
  destruct (store_bits lsb_bits d (enumerate (BitPacker.bytes_to_bits header)))
    as [d1|e] eqn:Hd1; [|eexists; reflexivity].
  cbn [mbind outcome_bind].
  pose proof (store_bits_length _ _ _ _ Hd1) as Hl1.
  assert (Hhdr_fits : (header_size * 8 <= length d)%nat).
  { destruct (Nat.le_gt_cases (header_size * 8) (length d)) as [?|Hlt]; [assumption|].
    exfalso.
    destruct (lookup_lt_is_Some_2 (BitPacker.bytes_to_bits header) (length d))
      as [bit Hbit]; [rewrite bytes_to_bits_length, Hlen; exact Hlt|].
    destruct (store_bits_out_of_range lsb_bits
                (enumerate (BitPacker.bytes_to_bits header)) d) as (j & Hj & _).
    { apply list.Exists_exists. exists (length d, bit). split; [|simpl; zlia].
      apply list_elem_of_lookup. exists (length d). apply lookup_zip_Some.
      split; [|exact Hbit]. apply lookup_seq.
      rewrite bytes_to_bits_length, Hlen. split; [reflexivity|exact Hlt]. }
    rewrite Hj in Hd1. discriminate. }
  destruct (payload_positions scatter salt (8 * length encrypted_data) (length d))
    as [positions|e] eqn:Hpos; [|eexists; reflexivity].
  cbn [mbind outcome_bind].
  destruct (payload_positions_spec _ _ _ _ _ Hpos) as (Hpl & _ & _ & Hseq).
  destruct scatter.
  - unfold payload_positions in Hpos.
    rewrite generate_scatter_indices_short in Hpos; [discriminate|].
    unfold header_size in *. zlia.
  - rewrite (Hseq eq_refl) in *.
    destruct (lookup_lt_is_Some_2 (BitPacker.bytes_to_bits encrypted_data)
                (length d - header_size * 8)) as [bit Hbit].
    { rewrite bytes_to_bits_length. unfold header_size in *. zlia. }
    destruct (store_bits_out_of_range lsb_bits
                (payload_writes (range (8 * length encrypted_data)) encrypted_data) d1)
      as (j & Hj & _).
    { apply list.Exists_exists. exists (length d, bit). split; [|simpl; zlia].
      apply list_elem_of_lookup. exists (length d - header_size * 8)%nat.
      apply lookup_zip_Some. split; [|exact Hbit].
      rewrite list_lookup_fmap. unfold range. rewrite lookup_seq_lt
        by (unfold header_size in *; zlia).
      simpl. f_equal. unfold header_size in *. zlia. }
    rewrite Hj. eexists. reflexivity.
Qed.

Lemma create_header_payload_range (salt nonce : list byte) (payload_length lsb_bits : Z)
    (scatter : bool) (header : list byte) :
  _create_header salt nonce payload_length lsb_bits scatter = Return header ->
  0 <= payload_length < 2 ^ 32.
Proof.
  intros H. destruct (Z.le_gt_cases 0 payload_length), (Z.lt_ge_cases payload_length (2 ^ 32));
    try zlia.
  all: unfold _create_header, pack_header in H;
    rewrite (pack_I_fails payload_length) in H by zlia;
    destruct (pack_B version); [|discriminate]; cbn [mbind outcome_bind] in H;
    destruct (pack_B _); discriminate.
Qed.

#[local] Instance shift_inj (base : nat) : Inj eq eq (fun p => (base + p)%nat).
Proof. intros p q H. zlia. Qed.

(** What a successful embedding did: one in-range write per bit, all to
    different samples, the header bits to samples 0, 1, 2, ... *)
Lemma embed_samples_inv (d out : list Z) (encrypted_data salt nonce : list byte)
    (lsb_bits : Z) (scatter : bool) :
  embed_samples d encrypted_data salt nonce lsb_bits scatter = Return out ->
  exists header positions,
    _create_header salt nonce (Z.of_nat (length encrypted_data)) lsb_bits scatter
    = Return header
    /\ 1 <= lsb_bits
    /\ Z.of_nat (length encrypted_data) < 2 ^ 32
    /\ ((42 + length encrypted_data) * 8 <= length d)%nat
    /\ payload_positions scatter salt (8 * length encrypted_data) (length d)
       = Return positions
    /\ let writes := enumerate (BitPacker.bytes_to_bits header)
                     ++ payload_writes positions encrypted_data in
       store_bits lsb_bits d writes = Return out
       /\ writes.*1 = seq 0 (header_size * 8)
                      ++ ((fun p => (header_size * 8 + p)%nat) <$> positions)
       /\ writes.*2 = BitPacker.bytes_to_bits (header ++ encrypted_data)
       /\ NoDup writes.*1.
Proof using randbelow_lt.
  intros H.
  assert (Hfit : ((42 + length encrypted_data) * 8 <= length d)%nat).
  { destruct (Nat.le_gt_cases ((42 + length encrypted_data) * 8) (length d)) as [?|Hlt];
      [assumption|].
    destruct (embed_samples_short d encrypted_data salt nonce lsb_bits scatter Hlt) as [e He].
    rewrite He in H. discriminate. }
  destruct (_create_header salt nonce (Z.of_nat (length encrypted_data)) lsb_bits scatter)
    as [header|e] eqn:Hhdr.
  2: { unfold embed_samples in H. rewrite Hhdr in H. discriminate. }
  rewrite (embed_samples_unfold _ _ _ _ _ _ _ Hhdr) in H.
  pose proof (create_header_length _ _ _ _ _ _ Hhdr) as Hlen.
  pose proof (create_header_payload_range _ _ _ _ _ _ Hhdr) as Hrange.
  destruct (Z.gtb_spec (Z.of_nat (42 + length encrypted_data) * 8)
              (Z.of_nat (length d) * lsb_bits)) as [?|Hcap]; [discriminate|].
  destruct (store_bits lsb_bits d (enumerate (BitPacker.bytes_to_bits header)))
    as [d1|e] eqn:Hd1; [|discriminate].
  cbn [mbind outcome_bind] in H.
  destruct (payload_positions scatter salt (8 * length encrypted_data) (length d))
    as [positions|e] eqn:Hpos; [|discriminate].
  cbn [mbind outcome_bind] in H.
  destruct (payload_positions_spec _ _ _ _ _ Hpos) as (Hpl & Hnd & _ & _).
  destruct (payload_writes_fst positions encrypted_data Hpl) as [Hfst Hsnd].
  exists header, positions.
  split; [reflexivity|]. split; [znia|]. split; [zlia|]. split; [exact Hfit|].
  split; [reflexivity|]. cbv zeta.
  split; [rewrite store_bits_app, Hd1; exact H|].
  assert (Hpos1 : (enumerate (BitPacker.bytes_to_bits header) ++
                   payload_writes positions encrypted_data).*1
                  = seq 0 (header_size * 8)
                    ++ ((fun p => (header_size * 8 + p)%nat) <$> positions)).
  { rewrite fmap_app, enumerate_fst, Hfst, bytes_to_bits_length, Hlen. reflexivity. }
  split; [exact Hpos1|].
  split; [rewrite fmap_app, enumerate_snd, Hsnd, bytes_to_bits_app; reflexivity|].
  rewrite Hpos1. apply list.NoDup_app. split; [apply NoDup_seq|]. split.
  - intros x Hx Hx'. apply elem_of_seq in Hx.
    apply list_elem_of_fmap in Hx' as (p & -> & _). zlia.
  - apply NoDup_fmap_2; [apply shift_inj|exact Hnd].
Qed.

(** Extraction undoes embedding, on the samples. *)
Lemma extract_embed_samples (d out : list Z) (encrypted_data salt nonce : list byte)
    (lsb_bits : Z) (scatter : bool) :
  length salt = 16%nat -> length nonce = 12%nat -> lsb_bits = 1 \/ lsb_bits = 2 ->
  embed_samples d encrypted_data salt nonce lsb_bits scatter = Return out ->
  extract_samples out = Return (encrypted_data, salt, nonce).
Proof using randbelow_lt.
  intros Hs Hn Hlsb Hembed.
  destruct (embed_samples_inv _ _ _ _ _ _ _ Hembed)
    as (header & positions & Hhdr & Hl & Hrange & Hfit & Hpos & Hst & Hfst & Hsnd & Hnd).
  cbv zeta in Hst, Hfst, Hsnd, Hnd.
  set (writes := enumerate (BitPacker.bytes_to_bits header)
                 ++ payload_writes positions encrypted_data) in *.
  pose proof (create_header_length _ _ _ _ _ _ Hhdr) as Hlen.
  destruct (create_then_parse_header salt nonce (Z.of_nat (length encrypted_data))
              lsb_bits scatter Hs Hn ltac:(zlia) Hlsb)
    as (header' & Hhdr' & _ & _ & Hparse).
  rewrite Hhdr in Hhdr'. injection Hhdr' as <-.
  destruct (payload_positions_spec _ _ _ _ _ Hpos) as (Hpl & _).
  destruct (payload_writes_fst positions encrypted_data Hpl) as [Hpfst Hpsnd].
  assert (Hbits : Forall is_bit writes.*2)
    by (rewrite Hsnd; apply bytes_to_bits_Forall).
  assert (Hread : forall (too_short : string) (sub : list (nat * Z)),
            Forall (fun w => w ∈ writes) sub ->
            read_bits too_short out sub.*1 = Return sub.*2)
    by (intros too_short sub Hsub;
        apply (read_after_store too_short lsb_bits writes sub d out Hl Hnd Hbits Hst Hsub)).
  unfold extract_samples.
  pose proof (Hread "Audio file too short for header"%string
                (enumerate (BitPacker.bytes_to_bits header))) as Hr1.
  rewrite enumerate_fst, enumerate_snd, bytes_to_bits_length, Hlen in Hr1.
  change (seq 0 (8 * 42)) with (range (header_size * 8)) in Hr1.
  rewrite Hr1.
  2: { apply list.Forall_forall. intros w Hw. apply elem_of_app. left. exact Hw. }
  cbn [mbind outcome_bind]. rewrite bits_to_bytes_to_bits. cbn [mbind outcome_bind].
  rewrite Hparse. cbn [mbind outcome_bind hi_payload_length hi_scatter hi_salt hi_nonce].
  replace (Z.to_nat (Z.of_nat (length encrypted_data) * 8))
    with (8 * length encrypted_data)%nat by zlia.
  rewrite (store_bits_length _ _ _ _ Hst).
  fold (payload_positions scatter salt (8 * length encrypted_data) (length d)).
  rewrite Hpos. cbn [mbind outcome_bind].
  pose proof (Hread "Audio file too short for complete message"%string
                (payload_writes positions encrypted_data)) as Hr2.
  rewrite Hpfst, Hpsnd in Hr2. rewrite Hr2.
  2: { apply list.Forall_forall. intros w Hw. apply elem_of_app. right. exact Hw. }
  cbn [mbind outcome_bind]. rewrite bits_to_bytes_to_bits. reflexivity.
Qed.

(** ** The embedding engine on the store *)

(** Extraction undoes embedding whenever the buffer has a sample for every
    bit: in particular for [lsb_bits = 1] and any ciphertext within the
    reported capacity. *)
Lemma extract_embed_roundtrip (h : heap) (a : ndarray) (encrypted_data salt nonce : list byte)
    (lsb_bits : Z) (scatter : bool) :
  valid h a -> length salt = 16%nat -> length nonce = 12%nat ->
  lsb_bits = 1 \/ lsb_bits = 2 ->
  Z.of_nat (length encrypted_data) < 2 ^ 32 ->
  ((42 + length encrypted_data) * 8 <= size a)%nat ->
  exists h' a',
    embed_message a encrypted_data salt nonce lsb_bits scatter h = (h', Return a')
    /\ (extract_message a' h').2 = Return (encrypted_data, salt, nonce).
Proof using randbelow_lt.
  intros Hv Hs Hn Hlsb Hrange Hfit. destruct (valid_samples h a Hv) as [_ Hlen].
  destruct (embed_samples_ok (samples h a) encrypted_data salt nonce lsb_bits scatter)
    as [out Hout]; [zlia|exact Hrange|zlia|].
  destruct (embed_message_run h a encrypted_data salt nonce lsb_bits scatter Hlen)
    as (extra & Hrun & Hextra).
  rewrite (Hextra out Hout), Hout in Hrun.
  cbn [mbind outcome_bind mret outcome_ret reraise] in Hrun.
  eexists _, _. split; [exact Hrun|].
  rewrite extract_message_run. cbn [snd].
  rewrite (samples_copy h (samples h a) out
             {| buffer := S (length h); shape := shape a |} eq_refl).
  rewrite (extract_embed_samples _ _ _ _ _ _ _ Hs Hn Hlsb Hout). reflexivity.
Qed.

(** When [embed_message] returns and when it raises. *)
Lemma embed_message_succeeds_iff (h : heap) (a : ndarray)
    (encrypted_data salt nonce : list byte) (lsb_bits : Z) (scatter : bool) :
  valid h a ->
  (exists a', (embed_message a encrypted_data salt nonce lsb_bits scatter h).2 = Return a')
  <-> 1 <= lsb_bits /\ Z.of_nat (length encrypted_data) < 2 ^ 32
      /\ ((42 + length encrypted_data) * 8 <= size a)%nat.
Proof using randbelow_lt.
  intros Hv. destruct (valid_samples h a Hv) as [_ Hlen].
  destruct (embed_message_run h a encrypted_data salt nonce lsb_bits scatter Hlen)
    as (extra & Hrun & _).
  rewrite Hrun. cbn [snd]. split.
  - intros [a' Ha'].
    destruct (embed_samples (samples h a) encrypted_data salt nonce lsb_bits scatter)
      as [out|e] eqn:Hout; [|discriminate].
    destruct (embed_samples_inv _ _ _ _ _ _ _ Hout)
      as (_ & _ & _ & Hl & Hrange & Hfit & _).
    rewrite Hlen in Hfit. auto.
  - intros (Hl & Hrange & Hfit).
    destruct (embed_samples_ok (samples h a) encrypted_data salt nonce lsb_bits scatter)
      as [out Hout]; [exact Hl|exact Hrange|zlia|].
    rewrite Hout. eexists. reflexivity.
Qed.

Lemma store_bits_error (lsb_bits : Z) (writes : list (nat * Z)) (d : list Z) (e : exn) :
  store_bits lsb_bits d writes = Raise e -> exists i n, e = IndexError i n.
Proof.
  revert d. induction writes as [|[i bit] writes IH]; intros d H; [discriminate|].
  cbn [store_bits] in H. destruct (d !! i); [exact (IH _ H)|].
  injection H as <-. eauto.
Qed.

Lemma payload_positions_error (scatter : bool) (salt : list byte) (count samples_len : nat)
    (e : exn) :
  payload_positions scatter salt count samples_len = Raise e ->
  exists e', e = StegoError (Because "Failed to generate scatter indices" e').
Proof.
  unfold payload_positions. destruct scatter; [|discriminate].
  unfold _generate_scatter_indices, reraise.
  destruct (if _ >? _ then _ else _); [discriminate|]. intros [= <-]. eauto.
Qed.

(** The capacity test of [embed_message]: it raises the insufficient-capacity
    error, naming the bits needed and the bits available, exactly when the
    first exceeds the second (for a payload whose length fits the header). *)
Lemma embed_message_capacity_error (h : heap) (a : ndarray)
    (encrypted_data salt nonce : list byte) (lsb_bits : Z) (scatter : bool) :
  valid h a -> Z.of_nat (length encrypted_data) < 2 ^ 32 ->
  let required_bits := Z.of_nat (42 + length encrypted_data) * 8 in
  let available_bits := Z.of_nat (size a) * lsb_bits in
  required_bits > available_bits <->
  (embed_message a encrypted_data salt nonce lsb_bits scatter h).2
  = Raise (StegoError (Because "Failed to embed message"
             (StegoError (InsufficientCapacity required_bits available_bits)))).
Proof using randbelow_lt.
  intros Hv Hrange. cbv zeta. destruct (valid_samples h a Hv) as [_ Hlen].
  destruct (embed_message_run h a encrypted_data salt nonce lsb_bits scatter Hlen)
    as (extra & Hrun & _).
  rewrite Hrun. cbn [snd].
  destruct (create_header_spec salt nonce (Z.of_nat (length encrypted_data)) lsb_bits scatter
              ltac:(zlia)) as (f & n & c & _ & _ & _ & _ & _ & _ & Hhdr).
  cbv zeta in Hhdr. revert Hhdr.
  generalize ((magic_bytes ++ [x01; f] ++ pack_s 16 salt ++ pack_s 12 nonce ++ n) ++ c).
  intros header Hhdr. rewrite (embed_samples_unfold _ _ _ _ _ _ _ Hhdr), Hlen.
  destruct (Z.gtb_spec (Z.of_nat (42 + length encrypted_data) * 8)
              (Z.of_nat (size a) * lsb_bits)) as [Hgt|Hle].
  - split; [reflexivity|zlia].
  - split; [zlia|]. intros H. exfalso.
    destruct (store_bits lsb_bits (samples h a) _) as [d1|e] eqn:Hd1.
    2: { apply store_bits_error in Hd1 as (i & m & ->). discriminate. }
    cbn [mbind outcome_bind] in H.
    destruct (payload_positions scatter salt _ _) as [positions|e] eqn:Hpos.
    2: { apply payload_positions_error in Hpos as (e' & ->). discriminate. }
    cbn [mbind outcome_bind] in H.
    destruct (store_bits lsb_bits d1 _) as [d2|e] eqn:Hd2; [discriminate|].
    apply store_bits_error in Hd2 as (i & m & ->). discriminate.
Qed.

(** C10. [embed_message] never writes to a buffer that existed before the
    call: it only allocates.  The caller's array reads the same afterwards,
    whether the call returned or raised, and the array it returns lives in
    a buffer allocated during the call. *)
Theorem embed_message_leaves_input (h : heap) (a : ndarray)
    (encrypted_data salt nonce : list byte) (lsb_bits : Z) (scatter : bool) :
  valid h a ->
  exists extra,
    (embed_message a encrypted_data salt nonce lsb_bits scatter h).1 = h ++ extra
    /\ (forall l d, h !! l = Some d -> (h ++ extra) !! l = Some d)
    /\ samples (h ++ extra) a = samples h a
    /\ forall a',
         (embed_message a encrypted_data salt nonce lsb_bits scatter h).2 = Return a' ->
         (length h <= buffer a')%nat /\ buffer a' <> buffer a.
Proof using randbelow_lt.
  intros Hv. destruct (valid_samples h a Hv) as [Hbuf Hlen].
  destruct (embed_message_run h a encrypted_data salt nonce lsb_bits scatter Hlen)
    as (extra & Hrun & _).
  exists extra. rewrite Hrun. cbn [fst snd].
  pose proof (lookup_lt_Some _ _ _ Hbuf) as Hlt.
  split; [reflexivity|]. split; [|split].
  - intros l d Hl. rewrite lookup_app_l by (apply lookup_lt_Some in Hl; exact Hl). exact Hl.
  - unfold samples. apply lookup_total_app_l. exact Hlt.
  - intros a' Ha'.
    destruct (embed_samples (samples h a) encrypted_data salt nonce lsb_bits scatter);
      [|discriminate].
    injection Ha' as <-. cbn [buffer]. zlia.
Qed.

(** C4, as the code has it.  When [embed_message] returns, the array it
    returns has the shape and the length of its argument.  Bit [i] of the
    header goes to sample [i], whatever the scatter flag; payload bit [j] goes
    to sample [42 * 8 + positions[j]].  A write clears the [lsb_bits] lowest
    bits of its sample and puts the data bit in bit 0: with [lsb_bits = 1]
    only bit 0 changes, with [lsb_bits = 2] bit 1 of every written sample is
    cleared as well.  Bits [lsb_bits] and above of every sample, and every
    sample that is not written, are as they were. *)
Theorem embed_message_frame (h h' : heap) (a a' : ndarray)
    (encrypted_data salt nonce : list byte) (lsb_bits : Z) (scatter : bool) :
  valid h a -> lsb_bits = 1 \/ lsb_bits = 2 ->
  embed_message a encrypted_data salt nonce lsb_bits scatter h = (h', Return a') ->
  exists header positions,
    _create_header salt nonce (Z.of_nat (length encrypted_data)) lsb_bits scatter
    = Return header
    /\ payload_positions scatter salt (8 * length encrypted_data) (size a) = Return positions
    /\ shape a' = shape a
    /\ length (samples h' a') = length (samples h a)
    /\ (forall i bit,
          BitPacker.bytes_to_bits header !! i = Some bit ->
          exists sample,
            samples h a !! i = Some sample
            /\ samples h' a' !! i = Some (set_lsb lsb_bits sample bit))
    /\ (forall j p bit,
          positions !! j = Some p ->
          BitPacker.bytes_to_bits encrypted_data !! j = Some bit ->
          exists sample,
            samples h a !! (header_size * 8 + p)%nat = Some sample
            /\ samples h' a' !! (header_size * 8 + p)%nat
               = Some (set_lsb lsb_bits sample bit))
    /\ (forall p,
          (header_size * 8 <= p)%nat -> (p - header_size * 8)%nat ∉ positions ->
          samples h' a' !! p = samples h a !! p)
    /\ (forall sample bit,
          is_bit bit ->
          Z.land (set_lsb lsb_bits sample bit) 1 = bit
          /\ (forall k, lsb_bits <= k ->
                Z.testbit (set_lsb lsb_bits sample bit) k = Z.testbit sample k)
          /\ (forall k, 1 <= k < lsb_bits ->
                Z.testbit (set_lsb lsb_bits sample bit) k = false))
    /\ (forall p sample sample' k,
          samples h a !! p = Some sample -> samples h' a' !! p = Some sample' ->
          lsb_bits <= k -> Z.testbit sample' k = Z.testbit sample k).
Proof using randbelow_lt.
  intros Hv Hlsb Hembed. destruct (valid_samples h a Hv) as [_ Hlen].
  destruct (embed_message_run h a encrypted_data salt nonce lsb_bits scatter Hlen)
    as (extra & Hrun & Hextra).
  rewrite Hembed in Hrun.
  destruct (embed_samples (samples h a) encrypted_data salt nonce lsb_bits scatter)
    as [out|e] eqn:Hout; [|discriminate].
  rewrite (Hextra out eq_refl) in Hrun. injection Hrun as -> ->.
  rewrite (samples_copy h (samples h a) out
             {| buffer := S (length h); shape := shape a |} eq_refl).
  destruct (embed_samples_inv _ _ _ _ _ _ _ Hout)
    as (header & positions & Hhdr & Hl & Hrange & Hfit & Hpos & Hst & Hfst & Hsnd & Hnd).
  cbv zeta in Hst, Hfst, Hsnd, Hnd. rewrite Hlen in Hpos.
  exists header, positions.
  split; [exact Hhdr|]. split; [exact Hpos|]. split; [reflexivity|].
  split; [exact (store_bits_length _ _ _ _ Hst)|].
  split; [|split; [|split; [|split]]].
  - intros i bit Hbit. eapply store_bits_written; [exact Hnd| |exact Hst].
    apply elem_of_app. left. apply list_elem_of_lookup. exists i.
    apply lookup_zip_Some. split; [|exact Hbit].
    apply lookup_seq. split; [reflexivity|]. apply lookup_lt_Some in Hbit. exact Hbit.
  - intros j p bit Hp Hbit. eapply store_bits_written; [exact Hnd| |exact Hst].
    apply elem_of_app. right. apply list_elem_of_lookup. exists j.
    apply lookup_zip_Some. split; [|exact Hbit].
    rewrite list_lookup_fmap, Hp. reflexivity.
  - intros p Hp Hnot. eapply store_bits_other; [exact Hst|].
    rewrite Hfst. intros Hin. apply elem_of_app in Hin as [Hin|Hin].
    + apply elem_of_seq in Hin. zlia.
    + apply list_elem_of_fmap in Hin as (q & -> & Hq). apply Hnot.
      replace (header_size * 8 + q - header_size * 8)%nat with q by zlia. exact Hq.
  - intros sample bit Hbit. split; [apply set_lsb_low; [exact Hl|exact Hbit]|]. split.
    + intros k Hk. apply set_lsb_high; [exact Hl|exact Hk].
    + intros k Hk. apply set_lsb_cleared. exact Hk.
  - intros p sample sample' k Hp Hp' Hk.
    destruct (store_bits_high lsb_bits _ _ _ p sample Hl Hst Hp) as (s' & Hs' & Hbits).
    rewrite Hs' in Hp'. injection Hp' as <-. apply Hbits. exact Hk.
Qed.

(** C2, at a failing input.  340 samples and [lsb_bits = 2]: a one-byte
    ciphertext needs 344 bits and the capacity test counts 680, yet the
    payload loop runs off the end of the buffer. *)
Theorem embed_lsb2_within_capacity_raises :
  let h := [replicate 340 0] in
  let a := {| buffer := 0; shape := [340%nat] |} in
  let encrypted_data := [x41] in
  Z.of_nat (42 + length encrypted_data) * 8 <= Z.of_nat (size a) * 2
  /\ (embed_message a encrypted_data (replicate 16 x00) (replicate 12 x00) 2 false h).2
     = Raise (StegoError (Because "Failed to embed message" (IndexError 340 340))).
Proof. vm_compute. split; [discriminate|reflexivity]. Qed.

(** C1, at a failing input.  344 samples and [lsb_bits = 2] give a capacity
    of 44 bytes; embedding a 44-byte ciphertext raises, so there is nothing
    to extract. *)
Theorem roundtrip_lsb2_at_capacity_raises :
  let h := [replicate 344 0] in
  let a := {| buffer := 0; shape := [344%nat] |} in
  let encrypted_data := replicate 44 x41 in
  Z.of_nat (length encrypted_data) = Z.max 0 (Z.of_nat (size a) * 2 / 8 - Z.of_nat header_size)
  /\ (embed_message a encrypted_data (replicate 16 x00) (replicate 12 x00) 2 false h).2
     = Raise (StegoError (Because "Failed to embed message" (IndexError 344 344))).
Proof. vm_compute. split; reflexivity. Qed.

(** ** The claims about the packer, the capacity and the header checks *)

(** C8. [bytes_to_bits] expands each byte into eight bits, most significant
    first, so [8 * len] bits in all, and [bits_to_bytes] undoes it.  On a bit
    list whose length is not a multiple of eight, [bits_to_bytes] appends
    zero bits up to the next multiple and packs the result. *)
Theorem bit_packer_invertible (data : list byte) (bits : list Z) :
  length (BitPacker.bytes_to_bits data) = (8 * length data)%nat
  /\ (forall k j b, data !! k = Some b -> (j < 8)%nat ->
        BitPacker.bytes_to_bits data !! (8 * k + j)%nat
        = Some (Z.b2z (Z.testbit (byte_to_Z b) (7 - Z.of_nat j))))
  /\ BitPacker.bits_to_bytes (BitPacker.bytes_to_bits data) = Return data
  /\ ((length bits mod 8 <> 0)%nat ->
      let padded := bits ++ replicate (8 - length bits mod 8) 0 in
      BitPacker.pad bits = padded
      /\ (length padded mod 8 = 0)%nat
      /\ BitPacker.bits_to_bytes bits = BitPacker.bits_to_bytes padded
      /\ (Forall is_bit bits ->
          exists bs, BitPacker.bits_to_bytes bits = Return bs
                     /\ BitPacker.bytes_to_bits bs = padded)).
Proof.
  split; [apply bytes_to_bits_length|].
  split; [intros k j b; apply bytes_to_bits_lookup|].
  split; [apply bits_to_bytes_to_bits|].
  intros Hmod. cbv zeta.
  assert (Hcount : pad_count bits = (8 - length bits mod 8)%nat)
    by (unfold pad_count; dlia).
  pose proof (pad_spec bits) as Hpad. rewrite Hcount in Hpad.
  pose proof (pad_loop_multiple bits) as Hmult. rewrite Hpad in Hmult.
  split; [exact Hpad|]. split; [exact Hmult|]. split.
  - unfold BitPacker.bits_to_bytes. rewrite Hpad, (pad_multiple _ Hmult). reflexivity.
  - intros Hbits. destruct (bits_to_bytes_bits bits Hbits) as (bs & Hbs & Hexp & _).
    exists bs. rewrite Hcount in Hexp. split; assumption.
Qed.

(** C7. For a loaded array of one or two dimensions, the capacity is
    [max(0, floor(total_samples * lsb_bits / 8) - 42)]; 100000 samples at one
    bit per sample give 12458 bytes. *)
Theorem capacity_formula (audio_file : string) (lsb_bits sample_rate : Z) (h h1 : heap)
    (audio_data : ndarray) (n c : nat) :
  load_audio audio_file h = (h1, Return (audio_data, sample_rate)) ->
  shape audio_data = [n] \/ shape audio_data = [n; c] ->
  let total_samples := Z.of_nat (size audio_data) in
  calculate_capacity audio_file lsb_bits h
  = (h1, Return (Z.max 0 (total_samples * lsb_bits / 8 - 42)))
  /\ (total_samples = 100000 -> lsb_bits = 1 ->
      calculate_capacity audio_file lsb_bits h = (h1, Return 12458)).
Proof.
  intros Hload Hshape. cbv zeta.
  assert (Hcap : calculate_capacity audio_file lsb_bits h
                 = (h1, Return (Z.max 0 (Z.of_nat (size audio_data) * lsb_bits / 8 - 42)))).
  { unfold calculate_capacity, reraiseM. rewrite (bind_run _ _ _ _ _ Hload).
    cbv beta iota. rewrite lift_bind_run. unfold size.
    destruct Hshape as [-> | ->]; cbn [shape_samples foldr].
    - rewrite Nat.mul_1_r. reflexivity.
    - rewrite Nat.mul_1_r, Nat2Z.inj_mul. reflexivity. }
  split; [exact Hcap|]. intros Ht ->. rewrite Hcap, Ht. reflexivity.
Qed.

(** C3, at a failing input: a well-formed header whose flags byte is 0x03.
    Its two low bits decode to 3, and [_parse_header] returns it. *)
Theorem parse_header_accepts_lsb_bits_3 :
  header_flags3 !! 5%nat = Some x03
  /\ _parse_header header_flags3
     = Return {| hi_version := 1; hi_lsb_bits := 3; hi_scatter := false;
                 hi_salt := replicate 16 x00; hi_nonce := replicate 12 x00;
                 hi_payload_length := 0 |}.
Proof. vm_compute. split; reflexivity. Qed.

(** What the flags test of [_parse_header] lets through: on 42 bytes that
    pass the CRC, magic and version tests, the decoded value 0 is refused and
    1, 2 and 3 are returned. *)
Lemma parse_header_lsb_bits (hb : list byte) :
  length hb = 42%nat ->
  calculate_crc32 (take 38 hb) = int_from_bytes_big (drop 38 hb) ->
  take 4 hb = magic_bytes -> hb !! 4%nat = Some x01 ->
  let lsb_bits := Z.land (byte_to_Z (default x00 (hb !! 5%nat))) 3 in
  (lsb_bits = 0 ->
   _parse_header hb
   = Raise (StegoError (Because "Failed to parse header"
              (StegoError (InvalidLsbBits 0)))))
  /\ (lsb_bits <> 0 ->
      exists info, _parse_header hb = Return info /\ hi_lsb_bits info = lsb_bits).
Proof.
  intros Hlen Hcrc Hmagic Hver. cbv zeta.
  rewrite (parse_header_42 hb Hlen). unfold parse_42.
  rewrite Hcrc, Z.eqb_refl. cbn [negb].
  rewrite take_take. change (4 `min` 38)%nat with 4%nat.
  rewrite Hmagic, bool_decide_eq_true_2 by reflexivity. cbn [negb].
  rewrite !lookup_take, !decide_True by zlia. rewrite Hver.
  change (byte_to_Z (default x00 (Some x01)) =? version) with true. cbn [negb].
  destruct (land_3_cases (byte_to_Z (default x00 (hb !! 5%nat)))) as [E|[E|[E|E]]];
    rewrite E; split; intros H; try zlia; try reflexivity; try discriminate.
  all: eexists; split; [reflexivity|reflexivity].
Qed.

Lemma parse_header_not_42 (hb : list byte) :
  length hb <> 42%nat -> exists e, _parse_header hb = Raise e.
Proof.
  intros Hlen. unfold _parse_header.
  destruct (Nat.ltb_spec (length hb) header_size) as [Hlt|Hge]; [eexists; reflexivity|].
  unfold unpack_I. rewrite length_drop.
  replace (length hb - (length hb - 4) =? 4)%nat with true
    by (symmetry; apply Nat.eqb_eq; unfold header_size in Hge; zlia).
  cbn [mbind outcome_bind].
  destruct (negb _); [eexists; reflexivity|].
  unfold unpack_header. rewrite length_take.
  replace ((length hb - 4) `min` length hb =? 38)%nat with false
    by (symmetry; apply Nat.eqb_neq; unfold header_size in Hge; zlia).
  eexists. reflexivity.
Qed.

Lemma byte_to_Z_inj (b1 b2 : byte) : byte_to_Z b1 = byte_to_Z b2 -> b1 = b2.
Proof.
  intros H. pose proof (byte_of_to_Z b1) as H1. rewrite H, byte_of_to_Z in H1.
  congruence.
Qed.

Lemma header_lsbs_bytes (d : list Z) :
  (header_size * 8 <= length d)%nat ->
  exists hb, BitPacker.bits_to_bytes (header_lsbs d) = Return hb /\ length hb = 42%nat.
Proof.
  intros Hd.
  destruct (bits_to_bytes_bits (header_lsbs d)) as (hb & Hhb & _ & Hlen).
  { unfold header_lsbs. apply Forall_fmap, list.Forall_forall. intros s _.
    apply land_1_is_bit. }
  exists hb. split; [exact Hhb|].
  unfold pad_count, header_lsbs in Hlen. rewrite length_fmap, length_take in Hlen.
  unfold header_size in *. dlia.
Qed.

(** C5. [_parse_header] returns only for 42 bytes whose last four are the
    CRC-32 of the first 38, whose magic is ASTG and whose version is 1.  On
    42 bytes the CRC is tested first: a mismatch is the checksum error
    whatever the magic, version and flags are; with the CRC right, a wrong
    magic and then a wrong version are refused.  [extract_message] on a
    buffer whose first 42 * 8 low bits carry a bad CRC raises that error
    whatever the remaining samples are, and [decode_worker] passes it on
    whatever the crypto primitives would have answered. *)
Theorem header_crc_checked_first :
  (forall hb,
     (forall info, _parse_header hb = Return info ->
        length hb = 42%nat
        /\ calculate_crc32 (take 38 hb) = int_from_bytes_big (drop 38 hb)
        /\ take 4 hb = magic_bytes /\ hb !! 4%nat = Some x01)
     /\ (length hb = 42%nat ->
         calculate_crc32 (take 38 hb) <> int_from_bytes_big (drop 38 hb) ->
         _parse_header hb
         = Raise (StegoError (Because "Failed to parse header"
                    (StegoError (Text "Header CRC verification failed")))))
     /\ (length hb = 42%nat ->
         calculate_crc32 (take 38 hb) = int_from_bytes_big (drop 38 hb) ->
         take 4 hb <> magic_bytes ->
         _parse_header hb
         = Raise (StegoError (Because "Failed to parse header"
                    (StegoError (Text "Invalid magic bytes - file not encoded with this tool")))))
     /\ (length hb = 42%nat ->
         calculate_crc32 (take 38 hb) = int_from_bytes_big (drop 38 hb) ->
         take 4 hb = magic_bytes ->
         forall v, hb !! 4%nat = Some v -> v <> x01 ->
         _parse_header hb
         = Raise (StegoError (Because "Failed to parse header"
                    (StegoError (UnsupportedVersion (byte_to_Z v)))))))
  /\ (forall h a,
        valid h a -> (header_size * 8 <= size a)%nat ->
        exists hb,
          BitPacker.bits_to_bytes (header_lsbs (samples h a)) = Return hb
          /\ length hb = 42%nat
          /\ (calculate_crc32 (take 38 hb) <> int_from_bytes_big (drop 38 hb) ->
              let failure :=
                StegoError (Because "Failed to extract message"
                  (StegoError (Because "Failed to parse header"
                     (StegoError (Text "Header CRC verification failed"))))) in
              extract_message a h = (h ++ [samples h a], Raise failure)
              /\ forall input_file password h0 sample_rate,
                   load_audio input_file h0 = (h, Return (a, sample_rate)) ->
                   decode_worker input_file password h0
                   = (h ++ [samples h a], Raise failure))).
Proof.
  split.
  - intros hb.
    assert (Hcrc : length hb = 42%nat ->
              calculate_crc32 (take 38 hb) <> int_from_bytes_big (drop 38 hb) ->
              _parse_header hb
              = Raise (StegoError (Because "Failed to parse header"
                         (StegoError (Text "Header CRC verification failed"))))).
    { intros Hlen Hne. rewrite (parse_header_42 hb Hlen). unfold parse_42.
      apply Z.eqb_neq in Hne. rewrite Hne. reflexivity. }
    assert (Hmagic : length hb = 42%nat ->
              calculate_crc32 (take 38 hb) = int_from_bytes_big (drop 38 hb) ->
              take 4 hb <> magic_bytes ->
              _parse_header hb
              = Raise (StegoError (Because "Failed to parse header"
                         (StegoError (Text "Invalid magic bytes - file not encoded with this tool"))))).
    { intros Hlen Heq Hm. rewrite (parse_header_42 hb Hlen). unfold parse_42.
      rewrite Heq, Z.eqb_refl. cbn [negb].
      rewrite take_take. change (4 `min` 38)%nat with 4%nat.
      rewrite bool_decide_eq_false_2 by exact Hm. reflexivity. }
    assert (Hver : length hb = 42%nat ->
              calculate_crc32 (take 38 hb) = int_from_bytes_big (drop 38 hb) ->
              take 4 hb = magic_bytes ->
              forall v, hb !! 4%nat = Some v -> v <> x01 ->
              _parse_header hb
              = Raise (StegoError (Because "Failed to parse header"
                         (StegoError (UnsupportedVersion (byte_to_Z v)))))).
    { intros Hlen Heq Hm v Hv Hne. rewrite (parse_header_42 hb Hlen). unfold parse_42.
      rewrite Heq, Z.eqb_refl. cbn [negb].
      rewrite take_take. change (4 `min` 38)%nat with 4%nat.
      rewrite bool_decide_eq_true_2 by exact Hm. cbn [negb].
      rewrite !lookup_take, !decide_True by zlia. rewrite Hv. cbn [default from_option id].
      destruct (Z.eqb_spec (byte_to_Z v) version) as [E|_]; [|reflexivity].
      exfalso. apply Hne. apply byte_to_Z_inj. exact E. }
    split; [|split; [exact Hcrc|split; [exact Hmagic|exact Hver]]].
    intros info Hinfo.
    destruct (Nat.eq_dec (length hb) 42%nat) as [Hlen|Hlen].
    2: { destruct (parse_header_not_42 hb Hlen) as [e He]. congruence. }
    split; [exact Hlen|].
    destruct (Z.eq_dec (calculate_crc32 (take 38 hb)) (int_from_bytes_big (drop 38 hb)))
      as [Heq|Hne]; [|rewrite (Hcrc Hlen Hne) in Hinfo; discriminate].
    split; [exact Heq|].
    destruct (decide (take 4 hb = magic_bytes)) as [Hm|Hm];
      [|rewrite (Hmagic Hlen Heq Hm) in Hinfo; discriminate].
    split; [exact Hm|].
    destruct (lookup_lt_is_Some_2 hb 4%nat) as [v Hv]; [zlia|].
    destruct (decide (v = x01)) as [->|Hne]; [exact Hv|].
    rewrite (Hver Hlen Heq Hm v Hv Hne) in Hinfo. discriminate.
  - intros h a Hv Hsize. destruct (valid_samples h a Hv) as [_ Hlen].
    destruct (header_lsbs_bytes (samples h a)) as (hb & Hhb & Hhlen); [zlia|].
    exists hb. split; [exact Hhb|]. split; [exact Hhlen|].
    intros Hne. cbv zeta.
    assert (Hext : extract_message a h
                   = (h ++ [samples h a],
                      Raise (StegoError (Because "Failed to extract message"
                        (StegoError (Because "Failed to parse header"
                           (StegoError (Text "Header CRC verification failed")))))))).
    { rewrite extract_message_run. f_equal. unfold extract_samples.
      rewrite read_bits_prefix by zlia. cbn [mbind outcome_bind].
      fold (header_lsbs (samples h a)). rewrite Hhb. cbn [mbind outcome_bind].
      rewrite (parse_header_42 hb Hhlen). unfold parse_42.
      apply Z.eqb_neq in Hne. rewrite Hne. reflexivity. }
    split; [exact Hext|].
    intros input_file password h0 sample_rate Hload. unfold decode_worker.
    rewrite (bind_run _ _ _ _ _ Hload). cbv beta iota.
    rewrite (bind_run _ _ _ _ _ Hext). reflexivity.
Qed.

(** ** The crypto service *)

(** Decryption undoes encryption, for a cipher that decrypts what it
    encrypted and a text codec that decodes what it encoded. *)
Lemma decrypt_encrypt_message (urandom_salt urandom_nonce : list byte)
    (message password : string) (encrypted_data salt nonce : list byte) :
  (forall key n data c,
     aesgcm_encrypt key n data = Return c -> aesgcm_decrypt key n c = Return data) ->
  (forall s, utf8_decode (utf8_encode s) = Return s) ->
  encrypt_message urandom_salt urandom_nonce message password
  = Return (encrypted_data, salt, nonce) ->
  salt = urandom_salt /\ nonce = urandom_nonce
  /\ decrypt_message encrypted_data password salt nonce = Return message.
Proof.
  intros Haead Hutf8. unfold encrypt_message, decrypt_message. cbv zeta.
  destruct (_derive_key password urandom_salt) as [key|e] eqn:Hkey; [|discriminate].
  cbn [mbind outcome_bind].
  destruct (aesgcm_encrypt key urandom_nonce (utf8_encode message)) as [c|e] eqn:Henc;
    [|discriminate].
  cbn [mbind outcome_bind mret outcome_ret reraise]. intros [= <- <- <-].
  split; [reflexivity|]. split; [reflexivity|].
  rewrite Hkey. cbn [mbind outcome_bind]. rewrite (Haead _ _ _ _ Henc).
  cbn [mbind outcome_bind]. rewrite Hutf8. reflexivity.
Qed.

(** ** The header codec on every input *)

Lemma pack_s_length (n : nat) (b : list byte) : length (pack_s n b) = n.
Proof. unfold pack_s. rewrite length_app, length_take, length_replicate. zlia. Qed.

Lemma flags_decode_land (lsb_bits : Z) (scatter : bool) (f : byte) :
  byte_of_Z (if scatter then Z.lor (Z.land lsb_bits 3) 4 else Z.land lsb_bits 3) = Some f ->
  Z.land (byte_to_Z f) 3 = Z.land lsb_bits 3
  /\ negb (Z.land (byte_to_Z f) 4 =? 0) = scatter.
Proof.
  intros Hf. apply byte_to_of_Z in Hf. rewrite Hf.
  destruct (land_3_cases lsb_bits) as [->|[->|[->| ->]]], scatter;
    vm_compute; split; reflexivity.
Qed.

(** X8. What [_parse_header] makes of a header [_create_header] built,
    without the caller keeping to 16, 12 and 1..2: the salt and the nonce
    come back cut or zero-filled to 16 and 12 bytes, [lsb_bits] comes back
    modulo 4, and a header built with [lsb_bits] a multiple of 4 is built
    without complaint and then refused as [Invalid LSB bits: 0]. *)
Theorem header_codec_any_input (salt nonce : list byte) (payload_length lsb_bits : Z)
    (scatter : bool) :
  0 <= payload_length < 2 ^ 32 ->
  exists header,
    _create_header salt nonce payload_length lsb_bits scatter = Return header
    /\ length header = 42%nat
    /\ _parse_header header
       = if Z.land lsb_bits 3 =? 0 then
           Raise (StegoError (Because "Failed to parse header"
                    (StegoError (InvalidLsbBits 0))))
         else
           Return {| hi_version := 1; hi_lsb_bits := Z.land lsb_bits 3;
                     hi_scatter := scatter;
                     hi_salt := pack_s 16 salt; hi_nonce := pack_s 12 nonce;
                     hi_payload_length := payload_length |}.
Proof.
  intros Hp.
  destruct (create_header_spec salt nonce payload_length lsb_bits scatter Hp)
    as (f & n & c & Hf & Hnl & Hnv & Hc & Hcl & Hcv & Hcreate).
  cbv zeta in Hc, Hcv, Hcreate.
  pose proof (pack_s_length 16 salt) as Hs. pose proof (pack_s_length 12 nonce) as Hn.
  revert Hs Hn Hc Hcv Hcreate.
  generalize (pack_s 16 salt) (pack_s 12 nonce). intros salt16 nonce12 Hs Hn Hc Hcv Hcreate.
  destruct (flags_decode_land lsb_bits scatter f Hf) as [Hlsb Hsc].
  exists ((magic_bytes ++ [x01; f] ++ salt16 ++ nonce12 ++ n) ++ c).
  split; [exact Hcreate|].
  assert (Hl38 : length (magic_bytes ++ [x01; f] ++ salt16 ++ nonce12 ++ n) = 38%nat).
  { rewrite !length_app, Hs, Hn, Hnl. reflexivity. }
  split; [rewrite length_app, Hl38, Hcl; reflexivity|].
  rewrite parse_header_42 by (rewrite length_app, Hl38, Hcl; reflexivity).
  unfold parse_42.
  rewrite take_app_length', drop_app_length' by (symmetry; exact Hl38).
  rewrite Hcv, Z.eqb_refl. cbn [negb]. cbn match.
  rewrite <- Hnv. clear Hcreate Hc Hcv Hl38 Hnv Hp Hf.
  change magic_bytes with [x41; x53; x54; x47].
  explicit_bytes salt16 Hs. explicit_bytes nonce12 Hn. explicit_bytes n Hnl.
  cbn [app take drop lookup list_lookup default from_option id].
  rewrite bool_decide_eq_true_2 by reflexivity.
  change (byte_to_Z x01 =? version) with true. cbn [negb]. cbn match.
  rewrite Hlsb, Hsc.
  destruct (land_3_cases lsb_bits) as [->|[->|[->| ->]]]; reflexivity.
Qed.

(** X9. [_create_header] returns exactly when the payload length fits the
    32-bit field, whatever the salt, the nonce and [lsb_bits] are; outside
    0..2^32-1 it raises the [struct.error] of the length field, wrapped. *)
Theorem create_header_returns_iff (salt nonce : list byte) (payload_length lsb_bits : Z)
    (scatter : bool) :
  ((exists header,
      _create_header salt nonce payload_length lsb_bits scatter = Return header)
   <-> 0 <= payload_length < 2 ^ 32)
  /\ (~ 0 <= payload_length < 2 ^ 32 ->
      _create_header salt nonce payload_length lsb_bits scatter
      = Raise (StegoError (Because "Failed to create header" StructError))).
Proof.
  split; [split|].
  - intros [header Hh]. exact (create_header_payload_range _ _ _ _ _ _ Hh).
  - intros Hp. destruct (create_header_spec salt nonce payload_length lsb_bits scatter Hp)
      as (f & n & c & _ & _ & _ & _ & _ & _ & Hcreate).
    eexists. exact Hcreate.
  - intros Hp. unfold _create_header, pack_header.
    rewrite (pack_I_fails payload_length Hp).
    change (pack_B version) with (Return [x01]). cbn [mbind outcome_bind].
    unfold pack_B.
    destruct (byte_of_Z (if scatter then Z.lor (Z.land lsb_bits 3) 4 else Z.land lsb_bits 3))
      as [f|] eqn:Hf; [reflexivity|].
    exfalso. destruct (byte_of_Z_is_Some
              (if scatter then Z.lor (Z.land lsb_bits 3) 4 else Z.land lsb_bits 3))
      as [f' Hf']; [|congruence].
    destruct (land_3_cases lsb_bits) as [->|[->|[->| ->]]], scatter;
      vm_compute; split; congruence.
Qed.

(** X10. The two length errors of [_parse_header]: fewer than 42 bytes are
    [Header too short]; and the [struct.error] handler is reached exactly by
    more than 42 bytes whose last four are the CRC-32 of the rest. *)
Theorem parse_header_length_errors (hb : list byte) :
  (_parse_header hb
   = Raise (StegoError (Because "Failed to parse header"
              (StegoError (Text "Header too short"))))
   <-> (length hb < 42)%nat)
  /\ (_parse_header hb
      = Raise (StegoError (Because "Header parsing failed" StructError))
      <-> (42 < length hb)%nat
          /\ calculate_crc32 (take (length hb - 4) hb)
             = int_from_bytes_big (drop (length hb - 4) hb)).
Proof.
  destruct (Nat.lt_trichotomy (length hb) 42) as [Hlt|[Heq|Hgt]].
  - unfold _parse_header.
    replace (length hb <? header_size)%nat with true
      by (symmetry; apply Nat.ltb_lt; exact Hlt).
    cbn [parse_handlers]. split.
    + split; [intros _; exact Hlt|reflexivity].
    + split; [discriminate|intros [H _]; zlia].
  - rewrite (parse_header_42 hb Heq). unfold parse_42. split.
    + split; [|intros H; zlia].
      repeat (destruct (negb _) || destruct (_ || _)); discriminate.
    + split; [|intros [H _]; zlia].
      repeat (destruct (negb _) || destruct (_ || _)); discriminate.
  - unfold _parse_header.
    replace (length hb <? header_size)%nat with false
      by (symmetry; apply Nat.ltb_ge; unfold header_size; zlia).
    cbn match. unfold unpack_I. rewrite length_drop.
    replace (length hb - (length hb - 4) =? 4)%nat with true
      by (symmetry; apply Nat.eqb_eq; zlia).
    cbn [mbind outcome_bind].
    destruct (Z.eqb_spec (calculate_crc32 (take (length hb - 4) hb))
                (int_from_bytes_big (drop (length hb - 4) hb))) as [Hcrc|Hcrc];
      cbn [negb]; cbn match.
    + unfold unpack_header. rewrite length_take.
      replace ((length hb - 4) `min` length hb =? 38)%nat with false
        by (symmetry; apply Nat.eqb_neq; zlia).
      cbn [mbind outcome_bind parse_handlers]. split.
      * split; [discriminate|intros H; zlia].
      * split; [intros _; split; [exact Hgt|exact Hcrc]|reflexivity].
    + cbn [parse_handlers]. split.
      * split; [discriminate|intros H; zlia].
      * split; [discriminate|intros [_ H]; contradiction].
Qed.

(** ** Extraction: what it leaves, when it returns and what it raises *)

Lemma read_bits_ok (too_short : string) (d : list Z) (positions : list nat) :
  Forall (fun p => (p < length d)%nat) positions ->
  exists bits,
    read_bits too_short d positions = Return bits
    /\ length bits = length positions /\ Forall is_bit bits.
Proof.
  induction 1 as [|p positions Hp _ (bits & Hbits & Hlen & Hall)].
  - exists []. repeat split. constructor.
  - destruct (lookup_lt_is_Some_2 _ _ Hp) as [sample Hs].
    exists (Z.land sample 1 :: bits). cbn [read_bits]. rewrite Hs, Hbits.
    cbn [mbind outcome_bind mret outcome_ret length].
    split; [reflexivity|]. split; [zlia|].
    constructor; [apply land_1_is_bit|exact Hall].
Qed.

(** X11. [extract_message] never writes to a buffer that existed before
    the call: it allocates one buffer, the flattened copy, and what it
    returns or raises depends on the samples of its argument alone. *)
Theorem extract_message_only_allocates (h : heap) (a : ndarray) :
  (extract_message a h).1 = h ++ [samples h a]
  /\ (forall l d, h !! l = Some d -> (extract_message a h).1 !! l = Some d)
  /\ (forall h2 a2,
        samples h2 a2 = samples h a ->
        (extract_message a2 h2).2 = (extract_message a h).2).
Proof.
  rewrite extract_message_run. cbn [fst snd]. split; [reflexivity|]. split.
  - intros l d Hl. rewrite lookup_app_l by (apply lookup_lt_Some in Hl; exact Hl). exact Hl.
  - intros h2 a2 Hsame. rewrite extract_message_run, Hsame. reflexivity.
Qed.

(** X12. On fewer than 42 * 8 samples [extract_message] raises
    [Audio file too short for header], the empty array included. *)
Theorem extract_message_too_short_for_header (h : heap) (a : ndarray) :
  (length (samples h a) < header_size * 8)%nat ->
  (extract_message a h).2
  = Raise (StegoError (Because "Failed to extract message"
             (StegoError (Text "Audio file too short for header")))).
Proof.
  intros Hshort. rewrite extract_message_run. cbn [snd]. unfold extract_samples.
  rewrite read_bits_short; [reflexivity|].
  apply list.Exists_exists. exists (length (samples h a)). split; [|zlia].
  unfold range. apply elem_of_seq. zlia.
Qed.

Lemma extract_samples_parsed (d : list Z) (hb : list byte) (info : header_info) :
  (header_size * 8 <= length d)%nat ->
  BitPacker.bits_to_bytes (header_lsbs d) = Return hb ->
  _parse_header hb = Return info ->
  extract_samples d
  = (positions ← payload_positions (hi_scatter info) (hi_salt info)
                   (Z.to_nat (hi_payload_length info * 8)) (length d);
     payload_bits ← read_bits "Audio file too short for complete message" d
                      ((fun p => (header_size * 8 + p)%nat) <$> positions);
     encrypted_data ← BitPacker.bits_to_bytes payload_bits;
     mret (encrypted_data, hi_salt info, hi_nonce info)).
Proof.
  intros Hlen Hhb Hparse. unfold extract_samples, payload_positions.
  rewrite (read_bits_prefix _ _ _ Hlen). cbn [mbind outcome_bind].
  fold (header_lsbs d). rewrite Hhb. cbn [mbind outcome_bind].
  rewrite Hparse. reflexivity.
Qed.

(** X13. A buffer whose first 42 * 8 low bits are a header that parses,
    and which has a sample left for each of the [8 * payload_length] bits
    the header announces, is extracted without any further test: the
    result is [payload_length] bytes with the header's salt and nonce. *)
Theorem extract_message_returns (h : heap) (a : ndarray) (hb : list byte)
    (info : header_info) :
  (header_size * 8 <= length (samples h a))%nat ->
  BitPacker.bits_to_bytes (header_lsbs (samples h a)) = Return hb ->
  _parse_header hb = Return info ->
  Z.of_nat (header_size * 8) + 8 * hi_payload_length info
  <= Z.of_nat (length (samples h a)) ->
  exists encrypted_data,
    (extract_message a h).2 = Return (encrypted_data, hi_salt info, hi_nonce info)
    /\ Z.of_nat (length encrypted_data) = Z.max 0 (hi_payload_length info).
Proof using randbelow_lt.
  intros Hlen Hhb Hparse Hfit. rewrite extract_message_run. cbn [snd].
  set (d := samples h a) in *.
  set (count := Z.to_nat (hi_payload_length info * 8)).
  assert (Hcount : (header_size * 8 + count <= length d)%nat) by (subst count; zlia).
  rewrite (extract_samples_parsed d hb info Hlen Hhb Hparse). fold count.
  assert (Hpos : exists positions,
            payload_positions (hi_scatter info) (hi_salt info) count (length d)
            = Return positions
            /\ length positions = count
            /\ Forall (fun p => (header_size * 8 + p < length d)%nat) positions).
  { unfold payload_positions. destruct (hi_scatter info).
    - destruct (generate_scatter_indices_ok count
                  (Z.of_nat (length d) - Z.of_nat (header_size * 8)) (hi_salt info)
                  ltac:(zlia)) as (perm & _ & _ & Hok & Hl & _ & Hlt).
      eexists. split; [exact Hok|]. split; [exact Hl|].
      eapply list.Forall_impl; [exact Hlt|]. intros p Hp. cbv beta in Hp. zlia.
    - eexists. split; [reflexivity|]. unfold range. rewrite length_seq.
      split; [reflexivity|]. apply list.Forall_forall. intros p Hp.
      apply elem_of_seq in Hp. zlia. }
  destruct Hpos as (positions & -> & Hpl & Hin). cbn [mbind outcome_bind].
  destruct (read_bits_ok "Audio file too short for complete message" d
              ((fun p => (header_size * 8 + p)%nat) <$> positions))
    as (bits & -> & Hbl & Hbits); [apply Forall_fmap; exact Hin|].
  cbn [mbind outcome_bind].
  destruct (bits_to_bytes_bits bits Hbits) as (bs & -> & _ & Hbs).
  cbn [mbind outcome_bind mret outcome_ret reraise].
  exists bs. split; [reflexivity|].
  rewrite length_fmap, Hpl in Hbl. unfold pad_count in Hbs. subst count.
  dlia.
Qed.

(** X14. The same header on a buffer that is too short for the announced
    payload: without scatter the sequential read runs off the end and
    raises [Audio file too short for complete message]; with scatter the
    index generator refuses first, [Not enough samples for scatter
    pattern]. *)
Theorem extract_message_truncated (h : heap) (a : ndarray) (hb : list byte)
    (info : header_info) :
  (header_size * 8 <= length (samples h a))%nat ->
  BitPacker.bits_to_bytes (header_lsbs (samples h a)) = Return hb ->
  _parse_header hb = Return info ->
  Z.of_nat (length (samples h a))
  < Z.of_nat (header_size * 8) + 8 * hi_payload_length info ->
  (extract_message a h).2
  = Raise (StegoError (Because "Failed to extract message"
             (if hi_scatter info then
                StegoError (Because "Failed to generate scatter indices"
                  (StegoError (Text "Not enough samples for scatter pattern")))
              else StegoError (Text "Audio file too short for complete message")))).
Proof.
  intros Hlen Hhb Hparse Hshort. rewrite extract_message_run. cbn [snd].
  set (d := samples h a) in *.
  rewrite (extract_samples_parsed d hb info Hlen Hhb Hparse).
  unfold payload_positions. destruct (hi_scatter info).
  - rewrite generate_scatter_indices_short by zlia. reflexivity.
  - cbn [mbind outcome_bind]. rewrite read_bits_short; [reflexivity|].
    apply list.Exists_exists. exists (header_size * 8 + (length d - header_size * 8))%nat.
    split; [|zlia].
    apply list_elem_of_fmap. exists (length d - header_size * 8)%nat.
    split; [reflexivity|]. unfold range. apply elem_of_seq. zlia.
Qed.

(** ** Embedding and extraction together *)

(** X15. Extraction undoes embedding whenever the array has a sample for
    every bit of header and ciphertext, for [lsb_bits] 1 and 2 and either
    scatter flag: [extract_message] of what [embed_message] returned gives
    back the ciphertext, the salt and the nonce. *)
Theorem extract_after_embed (h : heap) (a : ndarray) (encrypted_data salt nonce : list byte)
    (lsb_bits : Z) (scatter : bool) :
  valid h a -> length salt = 16%nat -> length nonce = 12%nat ->
  lsb_bits = 1 \/ lsb_bits = 2 ->
  Z.of_nat (length encrypted_data) < 2 ^ 32 ->
  ((42 + length encrypted_data) * 8 <= size a)%nat ->
  exists h' a',
    embed_message a encrypted_data salt nonce lsb_bits scatter h = (h', Return a')
    /\ (extract_message a' h').2 = Return (encrypted_data, salt, nonce).
Proof using randbelow_lt.
  apply extract_embed_roundtrip.
Qed.


(** X17. The capacity test of [embed_message]: it raises the
    insufficient-capacity error, naming the bits needed and the bits it
    counts as available, exactly when [(42 + len) * 8] exceeds
    [size * lsb_bits]. *)
Theorem embed_message_insufficient_capacity_iff (h : heap) (a : ndarray)
    (encrypted_data salt nonce : list byte) (lsb_bits : Z) (scatter : bool) :
  valid h a -> Z.of_nat (length encrypted_data) < 2 ^ 32 ->
  let required_bits := Z.of_nat (42 + length encrypted_data) * 8 in
  let available_bits := Z.of_nat (size a) * lsb_bits in
  required_bits > available_bits <->
  (embed_message a encrypted_data salt nonce lsb_bits scatter h).2
  = Raise (StegoError (Because "Failed to embed message"
             (StegoError (InsufficientCapacity required_bits available_bits)))).
Proof using randbelow_lt.
  apply embed_message_capacity_error.
Qed.

Lemma high_bits_quotient (n a b : Z) :
  0 <= n -> (forall k, n <= k -> Z.testbit a k = Z.testbit b k) ->
  a / 2 ^ n = b / 2 ^ n.
Proof.
  intros Hn H. rewrite <- !Z.shiftr_div_pow2 by exact Hn.
  apply Z.bits_inj'. intros k Hk. rewrite !Z.shiftr_spec by exact Hk.
  apply H. zlia.
Qed.

(** X18. How far embedding moves a sample: every sample of the returned
    array differs from the caller's by less than [2 ** lsb_bits], and a
    sample that was a 16-bit one is a 16-bit one afterwards, so storing it
    in the [int16] array never wraps. *)
Theorem embed_message_distortion (h h' : heap) (a a' : ndarray)
    (encrypted_data salt nonce : list byte) (lsb_bits : Z) (scatter : bool) :
  valid h a -> lsb_bits = 1 \/ lsb_bits = 2 ->
  embed_message a encrypted_data salt nonce lsb_bits scatter h = (h', Return a') ->
  Forall2
    (fun sample sample' =>
       Z.abs (sample' - sample) < 2 ^ lsb_bits
       /\ (-32768 <= sample < 32768 -> -32768 <= sample' < 32768))
    (samples h a) (samples h' a').
Proof using randbelow_lt.
  intros Hv Hlsb Hembed. destruct (valid_samples h a Hv) as [_ Hlen].
  destruct (embed_message_run h a encrypted_data salt nonce lsb_bits scatter Hlen)
    as (extra & Hrun & Hextra).
  rewrite Hembed in Hrun.
  destruct (embed_samples (samples h a) encrypted_data salt nonce lsb_bits scatter)
    as [out|e] eqn:Hout; [|discriminate].
  rewrite (Hextra out eq_refl) in Hrun. injection Hrun as -> ->.
  rewrite (samples_copy h (samples h a) out
             {| buffer := S (length h); shape := shape a |} eq_refl).
  destruct (embed_samples_inv _ _ _ _ _ _ _ Hout)
    as (header & positions & _ & Hl & _ & _ & _ & Hst & _).
  cbv zeta in Hst.
  apply Forall2_same_length_lookup. split; [symmetry; exact (store_bits_length _ _ _ _ Hst)|].
  intros p sample sample' Hp Hp'.
  destruct (store_bits_high lsb_bits _ _ _ p sample Hl Hst Hp) as (s' & Hs' & Hbits).
  rewrite Hs' in Hp'. injection Hp' as <-.
  pose proof (high_bits_quotient lsb_bits s' sample ltac:(zlia) Hbits) as Hq.
  clear Hst Hbits Hs' Hp Hout Hextra Hembed.
  destruct Hlsb as [-> | ->].
  - change (2 ^ 1) with 2 in *. dlia.
  - change (2 ^ 2) with 4 in *. dlia.
Qed.

(** X19. The scatter indices for a smaller count are the first indices of
    those for a larger one, the salt and the sample count being the same:
    where a payload bit goes does not depend on how long the payload is. *)
Theorem scatter_indices_prefix (count1 count2 : nat) (total_samples : Z)
    (salt : list byte) :
  (count1 <= count2)%nat -> Z.of_nat count2 <= total_samples ->
  exists indices,
    _generate_scatter_indices count2 total_samples salt = Return indices
    /\ _generate_scatter_indices count1 total_samples salt
       = Return (take count1 indices).
Proof using randbelow_lt.
  intros H12 H2.
  destruct (generate_scatter_indices_ok count2 total_samples salt H2)
    as (perm & Hperm & _ & Hok2 & _).
  destruct (generate_scatter_indices_ok count1 total_samples salt ltac:(zlia))
    as (perm' & Hperm' & _ & Hok1 & _).
  rewrite Hperm in Hperm'. injection Hperm' as <-.
  eexists. split; [exact Hok2|]. rewrite Hok1, take_take.
  replace (count1 `min` count2)%nat with count1 by zlia. reflexivity.
Qed.

(** Where the header sits after embedding: in the low bits of the first
    42 * 8 samples, whatever the scatter flag. *)
Lemma embed_samples_header_lsbs (d out : list Z) (encrypted_data salt nonce : list byte)
    (lsb_bits : Z) (scatter : bool) :
  embed_samples d encrypted_data salt nonce lsb_bits scatter = Return out ->
  exists header,
    _create_header salt nonce (Z.of_nat (length encrypted_data)) lsb_bits scatter
    = Return header
    /\ (header_size * 8 <= length out)%nat
    /\ header_lsbs out = BitPacker.bytes_to_bits header.
Proof using randbelow_lt.
  intros Hembed.
  destruct (embed_samples_inv _ _ _ _ _ _ _ Hembed)
    as (header & positions & Hhdr & Hl & Hrange & Hfit & Hpos & Hst & Hfst & Hsnd & Hnd).
  cbv zeta in Hst, Hfst, Hsnd, Hnd.
  pose proof (create_header_length _ _ _ _ _ _ Hhdr) as Hlen.
  assert (Hout : (header_size * 8 <= length out)%nat)
    by (rewrite (store_bits_length _ _ _ _ Hst); unfold header_size; zlia).
  exists header. split; [exact Hhdr|]. split; [exact Hout|].
  assert (Hbits : Forall is_bit (enumerate (BitPacker.bytes_to_bits header)
                                 ++ payload_writes positions encrypted_data).*2)
    by (rewrite Hsnd; apply bytes_to_bits_Forall).
  pose proof (read_after_store "x" lsb_bits _
                (enumerate (BitPacker.bytes_to_bits header)) d out Hl Hnd Hbits Hst) as Hr.
  rewrite enumerate_fst, enumerate_snd, bytes_to_bits_length, Hlen in Hr.
  change (seq 0 (8 * 42)) with (range (header_size * 8)) in Hr.
  rewrite (read_bits_prefix _ _ _ Hout) in Hr. fold (header_lsbs out) in Hr.
  assert (Hsub : Forall (fun w => w ∈ enumerate (BitPacker.bytes_to_bits header)
                                      ++ payload_writes positions encrypted_data)
                   (enumerate (BitPacker.bytes_to_bits header))).
  { apply list.Forall_forall. intros w Hw. apply elem_of_app. left. exact Hw. }
  specialize (Hr Hsub). congruence.
Qed.

(** ** The analysis *)

Lemma collect_getitem_run (h : heap) (fa : ndarray) (k m : nat) :
  (k + m <= length (samples h fa))%nat ->
  collect (seq k m) (fun i => sample ← np_getitem fa i; mret (Z.land sample 1)) h
  = (h, Return ((fun sample => Z.land sample 1) <$> take m (drop k (samples h fa)))).
Proof.
  revert k. induction m as [|m IH]; intros k Hk; [reflexivity|].
  destruct (lookup_lt_is_Some_2 (samples h fa) k ltac:(zlia)) as [sample Hs].
  cbn [seq collect].
  assert (Hget : (sample ← np_getitem fa k; mret (Z.land sample 1)) h
                 = (h, Return (Z.land sample 1))).
  { unfold np_getitem, mbind, M_bind. rewrite Hs. reflexivity. }
  rewrite (bind_run _ _ _ _ _ Hget). cbv beta iota.
  rewrite (bind_run _ _ _ _ _ (IH (S k) ltac:(zlia))). cbv beta iota.
  rewrite (drop_S _ _ _ Hs). reflexivity.
Qed.

Lemma analyze_audio_for_stego_run {float : Type} (true_div : Z -> Z -> float)
    (near_half : float -> bool) (h : heap) (a : ndarray) :
  let d := samples h a in
  let lsb_ones := foldr Z.add 0 ((fun sample => Z.land sample 1) <$> d) in
  let lsb_ratio :=
    if (0 <? length d)%nat then Float (true_div lsb_ones (Z.of_nat (length d)))
    else Int 0 in
  analyze_audio_for_stego true_div near_half a h
  = (h ++ [d],
     Return (Analysis
       {| sa_total_samples := length d;
          sa_lsb_ones_ratio := lsb_ratio;
          sa_lsb_distribution_suspicious := distribution_suspicious near_half lsb_ratio;
          sa_has_stego_header := starts_with_magic d;
          sa_estimated_capacity_1lsb := Z.of_nat (length d) / 8 - Z.of_nat header_size;
          sa_estimated_capacity_2lsb := Z.of_nat (length d) / 4 - Z.of_nat header_size |})).
Proof.
  cbv zeta. unfold analyze_audio_for_stego.
  set (d := samples h a). set (h1 := h ++ [d]).
  set (fa := {| buffer := length h; shape := [length d] |}).
  assert (Hfa : samples h1 fa = d) by (apply samples_new; reflexivity).
  assert (Hflat : np_flatten a h = (h1, Return fa)) by reflexivity.
  rewrite (bind_run _ _ _ _ _ Hflat). cbv beta iota.
  assert (Hsum : np_sum_lsb fa h1
                 = (h1, Return (foldr Z.add 0 ((fun sample => Z.land sample 1) <$> d))))
    by (unfold np_sum_lsb; rewrite Hfa; reflexivity).
  rewrite (bind_run _ _ _ _ _ Hsum). cbv beta iota.
  rewrite np_len_bind_run, Hfa.
  assert (Htry : try_except_pass
            (header_bits ← collect (range (Nat.min (header_size * 8) (length d)))
               (fun i => sample ← np_getitem fa i; mret (Z.land sample 1));
             if (32 <=? length header_bits)%nat then
               header_start ← lift (BitPacker.bits_to_bytes (take 32 header_bits));
               mret (bool_decide (take (length magic_bytes) header_start = magic_bytes))
             else mret false) h1
          = (h1, Return (starts_with_magic d))).
  { unfold try_except_pass, range.
    rewrite (bind_run _ _ _ _ _
               (collect_getitem_run h1 fa 0 (Nat.min (header_size * 8) (length d))
                  ltac:(rewrite Hfa; zlia))).
    cbv beta iota. rewrite Hfa, drop_0. unfold starts_with_magic. cbv zeta.
    destruct (32 <=? length _)%nat; [|reflexivity].
    rewrite lift_bind_run.
    destruct (BitPacker.bits_to_bytes _); reflexivity. }
  rewrite (bind_run _ _ _ _ _ Htry). reflexivity.
Qed.

Lemma starts_with_magic_iff (d : list Z) :
  starts_with_magic d = true
  <-> (32 <= length d)%nat
      /\ (fun sample => Z.land sample 1) <$> take 32 d
         = BitPacker.bytes_to_bits magic_bytes.
Proof.
  unfold starts_with_magic. cbv zeta.
  rewrite length_fmap, length_take.
  replace (Nat.min (Nat.min (header_size * 8) (length d)) (length d))
    with (Nat.min (header_size * 8) (length d)) by zlia.
  destruct (Nat.leb_spec 32 (Nat.min (header_size * 8) (length d))) as [Hle|Hlt].
  2: { split; [discriminate|]. intros [H _]. unfold header_size in Hlt. zlia. }
  rewrite <- fmap_take, take_take.
  replace (Nat.min 32 (Nat.min (header_size * 8) (length d))) with 32%nat by zlia.
  set (bits := (fun sample => Z.land sample 1) <$> take 32 d).
  assert (Hall : Forall is_bit bits).
  { apply Forall_fmap, list.Forall_forall. intros s _. apply land_1_is_bit. }
  assert (Hlen : length bits = 32%nat)
    by (unfold bits; rewrite length_fmap, length_take; zlia).
  destruct (bits_to_bytes_bits bits Hall) as (bs & Hbs & Hexp & Hn).
  rewrite Hbs. unfold pad_count in Hexp, Hn. rewrite Hlen in Hexp, Hn.
  change ((8 - 32 mod 8) mod 8)%nat with 0%nat in Hexp, Hn.
  cbn [replicate] in Hexp. rewrite app_nil_r in Hexp.
  assert (Hbl : length bs = 4%nat) by zlia.
  change (length magic_bytes) with 4%nat.
  rewrite (take_ge bs 4) by zlia. rewrite bool_decide_eq_true.
  split.
  - intros <-. split; [zlia|]. symmetry. exact Hexp.
  - intros [_ Hbits]. rewrite Hbits in Hexp.
    pose proof (bits_to_bytes_to_bits bs) as H1. rewrite Hexp in H1.
    rewrite bits_to_bytes_to_bits in H1. congruence.
Qed.

(** X20. What [analyze_audio_for_stego] reports: always the dictionary,
    never the error entry, for every array, the empty one included; the
    sample count; [has_stego_header] exactly when there are at least 32
    samples whose low bits spell the magic [ASTG], nothing else of the
    header being looked at; and it writes to no buffer that existed. *)
Theorem analyze_reports_magic {float : Type} (true_div : Z -> Z -> float)
    (near_half : float -> bool) (h : heap) (a : ndarray) :
  exists report,
    analyze_audio_for_stego true_div near_half a h
    = (h ++ [samples h a], Return (Analysis report))
    /\ sa_total_samples report = length (samples h a)
    /\ (sa_has_stego_header report = true
        <-> (32 <= length (samples h a))%nat
            /\ (fun sample => Z.land sample 1) <$> take 32 (samples h a)
               = BitPacker.bytes_to_bits magic_bytes).
Proof.
  pose proof (analyze_audio_for_stego_run true_div near_half h a) as Hrun.
  cbv zeta in Hrun. eexists. split; [exact Hrun|].
  cbn [sa_total_samples sa_has_stego_header]. split; [reflexivity|].
  apply starts_with_magic_iff.
Qed.

(** X21. An array [embed_message] returned is reported as carrying a
    header, for every [lsb_bits] it accepts and either scatter flag. *)
Theorem analyze_after_embed {float : Type} (true_div : Z -> Z -> float)
    (near_half : float -> bool) (h h' : heap) (a a' : ndarray)
    (encrypted_data salt nonce : list byte) (lsb_bits : Z) (scatter : bool) :
  valid h a ->
  embed_message a encrypted_data salt nonce lsb_bits scatter h = (h', Return a') ->
  exists report,
    (analyze_audio_for_stego true_div near_half a' h').2 = Return (Analysis report)
    /\ sa_has_stego_header report = true
    /\ sa_total_samples report = size a.
Proof using randbelow_lt.
  intros Hv Hembed. destruct (valid_samples h a Hv) as [_ Hlen].
  destruct (embed_message_run h a encrypted_data salt nonce lsb_bits scatter Hlen)
    as (extra & Hrun & Hextra).
  rewrite Hembed in Hrun.
  destruct (embed_samples (samples h a) encrypted_data salt nonce lsb_bits scatter)
    as [out|e] eqn:Hout; [|discriminate].
  rewrite (Hextra out eq_refl) in Hrun. injection Hrun as -> ->.
  pose proof (analyze_audio_for_stego_run true_div near_half (h ++ [samples h a; out])
                {| buffer := S (length h); shape := shape a |}) as Hrun.
  cbv zeta in Hrun.
  rewrite (samples_copy h (samples h a) out
             {| buffer := S (length h); shape := shape a |} eq_refl) in Hrun.
  rewrite Hrun. cbn [snd]. eexists. split; [reflexivity|].
  cbn [sa_total_samples sa_has_stego_header].
  destruct (embed_samples_header_lsbs _ _ _ _ _ _ _ Hout) as (header & Hhdr & Hol & Hlsbs).
  destruct (embed_samples_inv _ _ _ _ _ _ _ Hout)
    as (header' & positions & _ & _ & _ & _ & _ & Hst & _).
  cbv zeta in Hst. split; [|rewrite (store_bits_length _ _ _ _ Hst); exact Hlen].
  clear Hst header' positions.
  apply starts_with_magic_iff. split; [unfold header_size in Hol; zlia|].
  pose proof (create_header_payload_range _ _ _ _ _ _ Hhdr) as Hrange.
  destruct (create_header_spec salt nonce (Z.of_nat (length encrypted_data)) lsb_bits
              scatter Hrange) as (f & n & c & _ & _ & _ & _ & _ & _ & Hcreate).
  cbv zeta in Hcreate. rewrite Hhdr in Hcreate. injection Hcreate as ->.
  unfold header_lsbs in Hlsbs.
  assert (Htake : (fun sample => Z.land sample 1) <$> take 32 out
                  = take 32 ((fun sample => Z.land sample 1) <$> take (header_size * 8) out)).
  { rewrite <- fmap_take, take_take. reflexivity. }
  rewrite Htake, Hlsbs. do 4 rewrite bytes_to_bits_cons. reflexivity.
Qed.

(** X22. The two capacity estimates of the analysis against
    [calculate_capacity]: for a loaded array of one or two dimensions the
    capacity at 1 and at 2 bits per sample is the estimate, or 0 where the
    estimate is negative, which it is below 42 * 8, respectively 42 * 4,
    samples. *)
Theorem analyze_estimates_capacity {float : Type} (true_div : Z -> Z -> float)
    (near_half : float -> bool) (audio_file : string) (sample_rate : Z) (h h1 : heap)
    (audio_data : ndarray) (n c : nat) :
  load_audio audio_file h = (h1, Return (audio_data, sample_rate)) ->
  valid h1 audio_data ->
  shape audio_data = [n] \/ shape audio_data = [n; c] ->
  exists report,
    (analyze_audio_for_stego true_div near_half audio_data h1).2
    = Return (Analysis report)
    /\ (calculate_capacity audio_file 1 h).2
       = Return (Z.max 0 (sa_estimated_capacity_1lsb report))
    /\ (calculate_capacity audio_file 2 h).2
       = Return (Z.max 0 (sa_estimated_capacity_2lsb report))
    /\ (sa_estimated_capacity_1lsb report < 0 <-> (size audio_data < 42 * 8)%nat)
    /\ (sa_estimated_capacity_2lsb report < 0 <-> (size audio_data < 42 * 4)%nat).
Proof.
  intros Hload Hv Hshape. destruct (valid_samples h1 audio_data Hv) as [_ Hlen].
  pose proof (analyze_audio_for_stego_run true_div near_half h1 audio_data) as Hrun.
  cbv zeta in Hrun. rewrite Hrun. cbn [snd]. eexists. split; [reflexivity|].
  cbn [sa_estimated_capacity_1lsb sa_estimated_capacity_2lsb]. rewrite Hlen.
  assert (Hcap : forall lsb_bits,
            calculate_capacity audio_file lsb_bits h
            = (h1, Return (Z.max 0 (Z.of_nat (size audio_data) * lsb_bits / 8 - 42)))).
  { intros lsb_bits. unfold calculate_capacity, reraiseM.
    rewrite (bind_run _ _ _ _ _ Hload). cbv beta iota. rewrite lift_bind_run. unfold size.
    destruct Hshape as [-> | ->]; cbn [shape_samples foldr].
    - rewrite Nat.mul_1_r. reflexivity.
    - rewrite Nat.mul_1_r, Nat2Z.inj_mul. reflexivity. }
  rewrite !Hcap. cbn [snd]. unfold header_size.
  split; [f_equal; f_equal; dlia|]. split; [f_equal; f_equal; dlia|].
  split; dlia.
Qed.

(** ** The crypto service and the two workers *)

(** X23. Decryption undoes encryption, for a cipher that decrypts what it
    encrypted and a text codec that decodes what it encoded:
    [encrypt_message] hands back the salt and the nonce it drew, and
    [decrypt_message] with the same password, salt and nonce returns the
    message. *)
Theorem decrypt_after_encrypt (urandom_salt urandom_nonce : list byte)
    (message password : string) (encrypted_data salt nonce : list byte) :
  (forall key n data c,
     aesgcm_encrypt key n data = Return c -> aesgcm_decrypt key n c = Return data) ->
  (forall s, utf8_decode (utf8_encode s) = Return s) ->
  encrypt_message urandom_salt urandom_nonce message password
  = Return (encrypted_data, salt, nonce) ->
  salt = urandom_salt /\ nonce = urandom_nonce
  /\ decrypt_message encrypted_data password salt nonce = Return message.
Proof.
  apply decrypt_encrypt_message.
Qed.

(** X24. [verify_password_strength] answers [True] exactly for passwords
    of at least 8 characters: the character classes only choose the
    message, and from 8 to 11 characters not even that. *)
Theorem password_strength_is_length (str_isupper str_islower str_isdigit : ascii -> bool)
    (password : string) :
  ((verify_password_strength str_isupper str_islower str_isdigit password).1 = true
   <-> (8 <= String.length password)%nat)
  /\ ((8 <= String.length password < 12)%nat ->
      verify_password_strength str_isupper str_islower str_isdigit password
      = (true, "Password is acceptable but could be longer"%string)).
Proof.
  unfold verify_password_strength.
  destruct (Nat.ltb_spec (String.length password) 8) as [H8|H8].
  - split; [split; [discriminate|intros; zlia]|intros; zlia].
  - destruct (Nat.ltb_spec (String.length password) 12) as [H12|H12].
    + split; [split; [intros _; exact H8|reflexivity]|reflexivity].
    + split; [|intros; zlia]. cbv zeta.
      repeat (destruct (_ >=? _)); (split; [intros _; exact H8|reflexivity]).
Qed.

Lemma extract_message_same_samples (h h2 : heap) (a a2 : ndarray) :
  samples h2 a2 = samples h a -> (extract_message a2 h2).2 = (extract_message a h).2.
Proof. intros Hsame. rewrite !extract_message_run, Hsame. reflexivity. Qed.

(** X25. The two workers end to end.  [encode_worker] embeds with
    [lsb_bits = 1]; when the loaded array has a sample for every bit of
    header and ciphertext, it reaches [save_audio] with an array of the
    shape it loaded, and [decode_worker], on any file that loads to the
    samples that were saved, returns the message for the same password. *)
Theorem encode_then_decode (save_audio : ndarray -> Z -> string -> M unit)
    (urandom_salt urandom_nonce : list byte)
    (input_file message password output_file : string) (scatter_var : bool)
    (h h1 : heap) (audio_data : ndarray) (sample_rate : Z)
    (encrypted_data salt nonce : list byte) :
  (forall key n data c,
     aesgcm_encrypt key n data = Return c -> aesgcm_decrypt key n c = Return data) ->
  (forall s, utf8_decode (utf8_encode s) = Return s) ->
  length urandom_salt = 16%nat -> length urandom_nonce = 12%nat ->
  load_audio input_file h = (h1, Return (audio_data, sample_rate)) ->
  valid h1 audio_data ->
  encrypt_message urandom_salt urandom_nonce message password
  = Return (encrypted_data, salt, nonce) ->
  Z.of_nat (length encrypted_data) < 2 ^ 32 ->
  ((42 + length encrypted_data) * 8 <= size audio_data)%nat ->
  exists h2 encoded_audio,
    encode_worker save_audio urandom_salt urandom_nonce input_file message password
      output_file scatter_var h
    = save_audio encoded_audio sample_rate output_file h2
    /\ shape encoded_audio = shape audio_data
    /\ forall encoded_file h3 h4 loaded rate,
         load_audio encoded_file h3 = (h4, Return (loaded, rate)) ->
         samples h4 loaded = samples h2 encoded_audio ->
         (decode_worker encoded_file password h3).2 = Return message.
Proof using randbelow_lt.
  intros Haead Hutf8 Hsl Hnl Hload Hv Henc Hrange Hfit.
  destruct (decrypt_encrypt_message _ _ _ _ _ _ _ Haead Hutf8 Henc) as (-> & -> & Hdec).
  destruct (extract_embed_roundtrip h1 audio_data encrypted_data urandom_salt urandom_nonce
              1 scatter_var Hv Hsl Hnl ltac:(left; reflexivity) Hrange Hfit)
    as (h2 & encoded_audio & Hembed & Hextract).
  exists h2, encoded_audio. split; [|split].
  - unfold encode_worker. rewrite (bind_run _ _ _ _ _ Hload). cbv beta iota.
    rewrite lift_bind_run, Henc. cbv beta iota.
    rewrite (bind_run _ _ _ _ _ Hembed). reflexivity.
  - destruct (valid_samples h1 audio_data Hv) as [_ Hlen].
    destruct (embed_message_run h1 audio_data encrypted_data urandom_salt urandom_nonce
                1 scatter_var Hlen) as (extra & Hrun & _).
    rewrite Hembed in Hrun.
    destruct (embed_samples _ _ _ _ _ _); [|discriminate].
    injection Hrun as _ ->. reflexivity.
  - intros encoded_file h3 h4 loaded rate Hload' Hsame.
    unfold decode_worker. rewrite (bind_run _ _ _ _ _ Hload'). cbv beta iota.
    pose proof (extract_message_same_samples _ _ _ _ Hsame) as Hex.
    rewrite Hextract in Hex.
    destruct (extract_message loaded h4) as [h5 r] eqn:Hrun. cbn [snd] in Hex. subst r.
    rewrite (bind_run _ _ _ _ _ Hrun). cbv beta iota.
    unfold lift. cbn [snd]. exact Hdec.
Qed.

(** X26. The capacity test of [start_encoding] is on the safe side: with
    the capacity [calculate_capacity] reported for the file (at its default
    [lsb_bits = 1]) positive, a message that passes the test can be
    embedded, by [embed_message] at [lsb_bits = 1], as any ciphertext up
    to 16 bytes longer than [calculate_encrypted_size] predicts, that is
    up to the 32 bytes over the encoded message the test allows for. *)
Theorem capacity_check_sufficient (audio_file message : string) (sample_rate : Z)
    (h h1 : heap) (audio_data : ndarray) (n c : nat) (current_capacity : Z)
    (encrypted_data salt nonce : list byte) (scatter : bool) :
  load_audio audio_file h = (h1, Return (audio_data, sample_rate)) ->
  valid h1 audio_data ->
  shape audio_data = [n] \/ shape audio_data = [n; c] ->
  (calculate_capacity audio_file 1 h).2 = Return current_capacity ->
  0 < current_capacity ->
  capacity_check message current_capacity = true ->
  Z.of_nat (length encrypted_data) <= calculate_encrypted_size message + 16 ->
  Z.of_nat (length encrypted_data) < 2 ^ 32 ->
  exists encoded_audio,
    (embed_message audio_data encrypted_data salt nonce 1 scatter h1).2
    = Return encoded_audio.
Proof using randbelow_lt.
  intros Hload Hv Hshape Hcap Hpos Hcheck Hlen Hrange.
  unfold calculate_encrypted_size in Hlen.
  assert (Hc : current_capacity = Z.max 0 (Z.of_nat (size audio_data) * 1 / 8 - 42)).
  { revert Hcap. unfold calculate_capacity, reraiseM.
    rewrite (bind_run _ _ _ _ _ Hload). cbv beta iota. rewrite lift_bind_run. unfold size.
    destruct Hshape as [-> | ->]; cbn [shape_samples foldr snd reraise mbind M_bind mret M_ret].
    - rewrite Nat.mul_1_r. intros [= <-]. reflexivity.
    - rewrite Nat.mul_1_r, Nat2Z.inj_mul. intros [= <-]. reflexivity. }
  unfold capacity_check in Hcheck.
  destruct (Z.gtb_spec current_capacity 0) as [_|?]; [|zlia].
  apply negb_true_iff in Hcheck.
  destruct (Z.gtb_spec (Z.of_nat (length (utf8_encode message)) + 32 + 42) current_capacity)
    as [?|Hle]; [discriminate|].
  apply (embed_message_succeeds_iff h1 audio_data encrypted_data salt nonce 1 scatter Hv).
  generalize dependent (length (utf8_encode message)). intros m Hlen Hle.
  generalize dependent (length encrypted_data). intros k Hrange Hlen.
  generalize dependent (size audio_data). intros sz Hc.
  clear - Hc Hpos Hlen Hle Hrange.
  split; [lia|]. split; [exact Hrange|].
  rewrite Z.mul_1_r in Hc. zify. Z.to_euclidean_division_equations. lia.
Qed.

(** ** The password generator *)

Lemma G_bind_run {A B} (m : G A) (f : A -> G B) (s s' : rng) (a : A) :
  m s = Return (a, s') -> (m ≫= f) s = f a s'.
Proof. intros H. unfold mbind, G_bind. rewrite H. reflexivity. Qed.

Lemma G_bind_assoc_run {A B C} (m : G A) (f : A -> G B) (k : B -> G C) (s s' : rng) (a : A) :
  m s = Return (a, s') -> ((m ≫= f) ≫= k) s = (f a ≫= k) s'.
Proof. intros H. unfold mbind, G_bind. rewrite H. reflexivity. Qed.

Lemma choice_ok {A} (seq : list A) (s : rng) :
  seq <> [] -> exists c s', choice seq s = Return (c, s') /\ c ∈ seq.
Proof using randbelow_lt.
  intros Hne. unfold choice.
  assert (Hlen : (0 < length seq)%nat) by (destruct seq; [congruence|cbn; zlia]).
  replace (length seq =? 0)%nat with false by (symmetry; apply Nat.eqb_neq; zlia).
  pose proof (randbelow_lt s (length seq) Hlen) as Hlt.
  destruct (randbelow s (length seq)) as [i s']. cbn [fst] in Hlt.
  destruct (lookup_lt_is_Some_2 seq i Hlt) as [c Hc]. rewrite Hc.
  exists c, s'. split; [reflexivity|]. eapply list_elem_of_lookup_2. exact Hc.
Qed.

Lemma choices_ok (n : nat) (chars : list nat) (s : rng) :
  chars <> [] ->
  exists cs s',
    choices n chars s = Return (cs, s') /\ length cs = n /\ Forall (fun c => c ∈ chars) cs.
Proof using randbelow_lt.
  intros Hne. revert s. induction n as [|n IH]; intros s.
  - exists [], s. repeat split. constructor.
  - destruct (choice_ok chars s Hne) as (c & s1 & Hc & Hin).
    destruct (IH s1) as (cs & s2 & Hcs & Hlen & Hall).
    exists (c :: cs), s2. cbn [choices].
    rewrite (G_bind_run _ _ _ _ _ Hc), (G_bind_run _ _ _ _ _ Hcs).
    split; [reflexivity|]. split; [cbn; zlia|]. constructor; assumption.
Qed.

Lemma include_class_run (include : bool) (cls chars required_chars : list nat) (s : rng) :
  cls <> [] ->
  exists c s',
    c ∈ cls
    /\ include_class include cls (chars, required_chars) s
       = Return ((chars ++ (if include then cls else []),
                  required_chars ++ (if include then [c] else [])), s').
Proof using randbelow_lt.
  intros Hne. destruct (choice_ok cls s Hne) as (c & s' & Hc & Hin).
  unfold include_class. destruct include.
  - exists c, s'. split; [exact Hin|]. rewrite (G_bind_run _ _ _ _ _ Hc). reflexivity.
  - exists c, s. split; [exact Hin|]. rewrite !app_nil_r. reflexivity.
Qed.

Lemma class_nonempty (cls rest : list nat) : (0 < length cls)%nat -> cls ++ rest <> [].
Proof. destruct cls; cbn; [zlia|discriminate]. Qed.

Lemma generate_password_tail (length : Z) (chars required_chars : list nat)
    (s_shuffle s : rng) :
  chars <> [] -> 4 <= length -> (List.length required_chars <= 4)%nat ->
  Forall (fun c => c ∈ chars) required_chars ->
  exists password s',
    (random_chars ←
       (if length - Z.of_nat (List.length required_chars) >? 0
        then choices (Z.to_nat (length - Z.of_nat (List.length required_chars))) chars
        else mret [] : G (list nat));
     password_chars ← system_shuffle s_shuffle (required_chars ++ random_chars);
     (mret (take (Z.to_nat length) password_chars) : G (list nat))) s
    = Return (password, s')
    /\ Z.of_nat (List.length password) = length
    /\ Forall (fun c => c ∈ password) required_chars
    /\ Forall (fun c => c ∈ chars) password.
Proof using randbelow_lt.
  intros Hne Hlen Hreq Hall.
  set (remaining_length := length - Z.of_nat (List.length required_chars)).
  assert (Hrandom : exists random_chars s1,
            (if remaining_length >? 0 then choices (Z.to_nat remaining_length) chars
             else mret [] : G (list nat)) s = Return (random_chars, s1)
            /\ Z.of_nat (List.length random_chars) = remaining_length
            /\ Forall (fun c => c ∈ chars) random_chars).
  { destruct (Z.gtb_spec remaining_length 0) as [Hpos|Hnpos].
    - destruct (choices_ok (Z.to_nat remaining_length) chars s Hne)
        as (cs & s1 & Hcs & Hl & Hin).
      exists cs, s1. split; [exact Hcs|]. split; [zlia|exact Hin].
    - exists [], s. split; [reflexivity|]. split; [cbn; subst remaining_length; zlia|].
      constructor. }
  destruct Hrandom as (random_chars & s1 & Hrandom & Hrl & Hrin).
  rewrite (G_bind_run _ _ _ _ _ Hrandom).
  destruct (shuffle_spec s_shuffle (required_chars ++ random_chars)) as (x' & Hsh & Hperm).
  assert (Hsys : system_shuffle s_shuffle (required_chars ++ random_chars) s1
                 = Return (x', s1)) by (unfold system_shuffle; rewrite Hsh; reflexivity).
  rewrite (G_bind_run _ _ _ _ _ Hsys).
  assert (Hxl : Z.of_nat (List.length x') = length).
  { rewrite (Permutation_length Hperm), length_app. subst remaining_length. zlia. }
  exists x', s1. rewrite take_ge by zlia.
  split; [reflexivity|]. split; [exact Hxl|]. split.
  - apply list.Forall_forall. intros c Hc. rewrite Hperm. apply elem_of_app. left. exact Hc.
  - apply list.Forall_forall. intros c Hc. rewrite Hperm in Hc.
    apply elem_of_app in Hc as [Hc|Hc].
    + rewrite list.Forall_forall in Hall. exact (Hall c Hc).
    + rewrite list.Forall_forall in Hrin. exact (Hrin c Hc).
Qed.

(** What [generate_password] returns, class by class. *)
Lemma generate_password_run (length : Z)
    (include_symbols include_numbers include_uppercase include_lowercase : bool)
    (s_shuffle s : rng) :
  let fallback :=
    negb (include_lowercase || include_uppercase || include_numbers || include_symbols) in
  let classes :=
    (if include_lowercase || fallback then [lowercase] else [])
    ++ (if include_uppercase || fallback then [uppercase] else [])
    ++ (if include_numbers || fallback then [digits] else [])
    ++ (if include_symbols then [symbols] else []) in
  exists password s',
    generate_password length include_symbols include_numbers include_uppercase
      include_lowercase s_shuffle s = Return (password, s')
    /\ Z.of_nat (List.length password) = Z.max 4 length
    /\ Forall (fun cls => exists c, c ∈ password /\ c ∈ cls) classes
    /\ Forall (fun c => exists cls, cls ∈ classes /\ c ∈ cls) password.
Proof using randbelow_lt.
  cbv zeta. unfold generate_password.
  replace (if length <? 4 then 4 else length) with (Z.max 4 length)
    by (destruct (Z.ltb_spec length 4); zlia).
  assert (Hlen : 4 <= Z.max 4 length) by zlia.
  revert Hlen. generalize (Z.max 4 length). clear length. intros length Hlen.
  destruct (include_class_run include_lowercase lowercase [] [] s ltac:(discriminate))
    as (c1 & s1 & Hc1 & Hr1).
  rewrite (G_bind_run _ _ _ _ _ Hr1). clear Hr1.
  destruct (include_class_run include_uppercase uppercase
              ([] ++ (if include_lowercase then lowercase else []))
              ([] ++ (if include_lowercase then [c1] else [])) s1 ltac:(discriminate))
    as (c2 & s2 & Hc2 & Hr2).
  rewrite (G_bind_run _ _ _ _ _ Hr2). clear Hr2.
  destruct (include_class_run include_numbers digits
              (([] ++ (if include_lowercase then lowercase else []))
               ++ (if include_uppercase then uppercase else []))
              (([] ++ (if include_lowercase then [c1] else []))
               ++ (if include_uppercase then [c2] else [])) s2 ltac:(discriminate))
    as (c3 & s3 & Hc3 & Hr3).
  rewrite (G_bind_run _ _ _ _ _ Hr3). clear Hr3.
  destruct (include_class_run include_symbols symbols
              ((([] ++ (if include_lowercase then lowercase else []))
                ++ (if include_uppercase then uppercase else []))
               ++ (if include_numbers then digits else []))
              ((([] ++ (if include_lowercase then [c1] else []))
                ++ (if include_uppercase then [c2] else []))
               ++ (if include_numbers then [c3] else [])) s3 ltac:(discriminate))
    as (c4 & s4 & Hc4 & Hr4).
  rewrite (G_bind_run _ _ _ _ _ Hr4). clear Hr4. cbn [fst].
  destruct (include_lowercase || include_uppercase || include_numbers || include_symbols)
    eqn:Hany; cbn [negb].
  - (* some class is on *)
    set (chars := ((([] ++ (if include_lowercase then lowercase else []))
                   ++ (if include_uppercase then uppercase else []))
                  ++ (if include_numbers then digits else []))
                 ++ (if include_symbols then symbols else [])).
    set (required_chars := ((([] ++ (if include_lowercase then [c1] else []))
                             ++ (if include_uppercase then [c2] else []))
                            ++ (if include_numbers then [c3] else []))
                           ++ (if include_symbols then [c4] else [])).
    assert (Hne : chars <> []).
    { subst chars. destruct include_lowercase, include_uppercase, include_numbers,
        include_symbols; try discriminate Hany;
        intros H; apply (f_equal List.length) in H; vm_compute in H; discriminate. }
    assert (Hreq4 : (List.length required_chars <= 4)%nat).
    { subst required_chars. destruct include_lowercase, include_uppercase, include_numbers,
        include_symbols; cbn; zlia. }
    assert (Hreqin : Forall (fun c => c ∈ chars) required_chars).
    { subst chars required_chars.
      destruct include_lowercase, include_uppercase, include_numbers, include_symbols;
        cbn [app]; repeat apply Forall_cons_2; try apply Forall_nil_2;
        rewrite ?elem_of_app; auto 6. }
    rewrite bool_decide_eq_false_2 by exact Hne.
    destruct (generate_password_tail length chars required_chars s_shuffle s4
                Hne Hlen Hreq4 Hreqin) as (password & s' & Hrun & Hpl & Hreq & Hall).
    exists password, s'. split; [exact Hrun|]. split; [exact Hpl|].
    subst chars required_chars. rewrite !orb_false_r.
    split.
    + destruct include_lowercase, include_uppercase, include_numbers, include_symbols;
        cbn [app] in *;
        repeat (apply Forall_cons_1 in Hreq as [? Hreq]);
        repeat apply Forall_cons_2; try apply Forall_nil_2; eauto.
    + eapply list.Forall_impl; [exact Hall|]. intros c Hc. cbv beta in Hc.
      destruct include_lowercase, include_uppercase, include_numbers, include_symbols;
        cbn [app] in *; rewrite ?elem_of_app in Hc;
        repeat match type of Hc with _ \/ _ => destruct Hc as [Hc|Hc] end;
        try (apply elem_of_nil in Hc; contradiction);
        (eexists; split; [|exact Hc]; repeat constructor).
  - (* none is: the alphanumeric fallback *)
    apply orb_false_elim in Hany as [Hany ->]. apply orb_false_elim in Hany as [Hany ->].
    apply orb_false_elim in Hany as [-> ->]. cbn [app orb].
    rewrite bool_decide_eq_true_2 by reflexivity. cbv iota.
    destruct (choice_ok lowercase s4 ltac:(discriminate)) as (f1 & t1 & Hf1 & Hi1).
    rewrite (G_bind_assoc_run _ _ _ _ _ _ Hf1).
    destruct (choice_ok uppercase t1 ltac:(discriminate)) as (f2 & t2 & Hf2 & Hi2).
    rewrite (G_bind_assoc_run _ _ _ _ _ _ Hf2).
    destruct (choice_ok digits t2 ltac:(discriminate)) as (f3 & t3 & Hf3 & Hi3).
    rewrite (G_bind_assoc_run _ _ _ _ _ _ Hf3).
    destruct (generate_password_tail length (lowercase ++ uppercase ++ digits) [f1; f2; f3]
                s_shuffle t3 ltac:(apply class_nonempty; cbn; zlia) Hlen ltac:(cbn; zlia))
      as (password & s' & Hrun & Hpl & Hreq & Hall).
    { repeat apply Forall_cons_2; try apply Forall_nil_2; rewrite !elem_of_app; auto. }
    exists password, s'. split; [exact Hrun|]. split; [exact Hpl|]. split.
    + repeat (apply Forall_cons_1 in Hreq as [? Hreq]).
      repeat apply Forall_cons_2; try apply Forall_nil_2; eauto.
    + eapply list.Forall_impl; [exact Hall|]. intros c Hc. cbv beta in Hc.
      rewrite !elem_of_app in Hc. destruct Hc as [Hc|[Hc|Hc]];
        (eexists; split; [|exact Hc]; repeat constructor).
Qed.

(** X27. [generate_password] always returns, for every length and every
    choice of classes: a password of [max(4, length)] characters, each
    from a class that is switched on, with at least one character of every
    such class; with all four classes off, lowercase, uppercase and digits
    are used. *)
Theorem generate_password_spec (length : Z)
    (include_symbols include_numbers include_uppercase include_lowercase : bool)
    (s_shuffle s : rng) :
  let fallback :=
    negb (include_lowercase || include_uppercase || include_numbers || include_symbols) in
  let classes :=
    (if include_lowercase || fallback then [lowercase] else [])
    ++ (if include_uppercase || fallback then [uppercase] else [])
    ++ (if include_numbers || fallback then [digits] else [])
    ++ (if include_symbols then [symbols] else []) in
  exists password s',
    generate_password length include_symbols include_numbers include_uppercase
      include_lowercase s_shuffle s = Return (password, s')
    /\ Z.of_nat (List.length password) = Z.max 4 length
    /\ Forall (fun cls => exists c, c ∈ password /\ c ∈ cls) classes
    /\ Forall (fun c => exists cls, cls ∈ classes /\ c ∈ cls) password.
Proof using randbelow_lt.
  apply generate_password_run.
Qed.

Lemma alphanumeric_not_symbols :
  Forall (fun c => c ∉ symbols) (lowercase ++ uppercase ++ digits).
Proof. apply (bool_decide_unpack _). vm_compute. exact I. Qed.

(** X28. [generate_simple_password] always returns [max(4, length)]
    characters, letters and digits only, none of the symbols, with at
    least one lowercase letter, one uppercase letter and one digit. *)
Theorem generate_simple_password_spec (length : Z) (s_shuffle s : rng) :
  exists password s',
    generate_simple_password length s_shuffle s = Return (password, s')
    /\ Z.of_nat (List.length password) = Z.max 4 length
    /\ Forall (fun c => c ∈ lowercase ++ uppercase ++ digits /\ c ∉ symbols) password
    /\ (exists c, c ∈ password /\ c ∈ lowercase)
    /\ (exists c, c ∈ password /\ c ∈ uppercase)
    /\ (exists c, c ∈ password /\ c ∈ digits).
Proof using randbelow_lt.
  destruct (generate_password_run length false true true true s_shuffle s)
    as (password & s' & Hrun & Hlen & Hhas & Hall).
  cbn [orb negb app] in Hhas, Hall.
  exists password, s'. split; [exact Hrun|]. split; [exact Hlen|]. split.
  - eapply list.Forall_impl; [exact Hall|]. intros c (cls & Hcls & Hc). cbv beta.
    assert (Hin : c ∈ lowercase ++ uppercase ++ digits).
    { rewrite !elem_of_app.
      apply elem_of_cons in Hcls as [->|Hcls]; [auto|].
      apply elem_of_cons in Hcls as [->|Hcls]; [auto|].
      apply elem_of_cons in Hcls as [->|Hcls]; [auto|].
      apply elem_of_nil in Hcls. contradiction. }
    split; [exact Hin|].
    pose proof alphanumeric_not_symbols as Hns. rewrite list.Forall_forall in Hns.
    exact (Hns c Hin).
  - apply Forall_cons_1 in Hhas as [H1 Hhas]. apply Forall_cons_1 in Hhas as [H2 Hhas].
    apply Forall_cons_1 in Hhas as [H3 _]. auto.
Qed.

Lemma memorable_words_length :
  Forall (fun w => (3 <= List.length w <= 4)%nat) memorable_words.
Proof. apply (bool_decide_unpack _). vm_compute. exact I. Qed.

Lemma decimal_length (fuel k : nat) (n : Z) :
  0 <= n < 10 ^ Z.of_nat k -> (List.length (decimal fuel n) <= Nat.max 1 k)%nat.
Proof.
  revert k n. induction fuel as [|fuel IH]; intros k n Hn; [cbn; zlia|].
  cbn [decimal]. rewrite length_app. cbn [List.length].
  destruct (Z.ltb_spec n 10) as [Hlt|Hge]; [cbn; zlia|].
  destruct k as [|k]; [change (10 ^ Z.of_nat 0) with 1 in Hn; zlia|].
  rewrite Nat2Z.inj_succ, Z.pow_succ_r in Hn by zlia.
  assert (Hq : 0 <= n / 10 < 10 ^ Z.of_nat k).
  { split; [apply Z.div_pos; zlia|]. apply Z.div_lt_upper_bound; zlia. }
  pose proof (IH k (n / 10) Hq) as Hl.
  assert (Hk : (1 <= k)%nat).
  { destruct k; [|zlia]. change (10 ^ Z.of_nat 0) with 1 in Hq.
    assert (1 <= n / 10) by (apply Z.div_le_lower_bound; zlia). zlia. }
  zlia.
Qed.

(** The printing loop leaves by its test: one more round changes nothing. *)
Lemma decimal_fuel (fuel : nat) (n : Z) :
  0 <= n < 10 ^ Z.of_nat (S fuel) -> decimal (S (S fuel)) n = decimal (S fuel) n.
Proof.
  revert n. induction fuel as [|fuel IH]; intros n Hn.
  - change (10 ^ Z.of_nat 1) with 10 in Hn. cbn [decimal].
    destruct (Z.ltb_spec n 10); [reflexivity|zlia].
  - rewrite Nat2Z.inj_succ, Z.pow_succ_r in Hn by zlia.
    change (decimal (S (S (S fuel))) n)
      with ((if n <? 10 then [] else decimal (S (S fuel)) (n / 10))
            ++ [(nat_of_ascii "0" + Z.to_nat (n mod 10))%nat]).
    change (decimal (S (S fuel)) n)
      with ((if n <? 10 then [] else decimal (S fuel) (n / 10))
            ++ [(nat_of_ascii "0" + Z.to_nat (n mod 10))%nat]).
    destruct (Z.ltb_spec n 10) as [Hlt|Hge]; [reflexivity|].
    rewrite IH; [reflexivity|].
    split; [apply Z.div_pos; zlia|]. apply Z.div_lt_upper_bound; zlia.
Qed.

Lemma numbers_length (n : nat) :
  (n < Z.to_nat 9999)%nat -> (2 <= List.length (zfill 2 (str_of_nat n)) <= 4)%nat.
Proof.
  intros Hn. unfold zfill, str_of_nat. rewrite length_app, length_replicate.
  pose proof (decimal_length (S n) 4 (Z.of_nat n)
                ltac:(change (10 ^ Z.of_nat 4) with 10000; zlia)) as Hl.
  change (Nat.max 1 4) with 4%nat in Hl. zlia.
Qed.

Lemma extend_loop_length (rounds : nat) (min_length : Z) (extra_chars base_password : list nat)
    (s : rng) :
  extra_chars <> [] ->
  min_length - Z.of_nat (List.length base_password) <= Z.of_nat rounds ->
  exists password s',
    extend_loop rounds min_length extra_chars base_password s = Return (password, s')
    /\ Z.of_nat (List.length password)
       = Z.max (Z.of_nat (List.length base_password)) min_length.
Proof using randbelow_lt.
  intros Hne. revert base_password s.
  induction rounds as [|rounds IH]; intros base_password s Hr.
  - exists base_password, s. split; [reflexivity|]. zlia.
  - cbn [extend_loop].
    destruct (Z.ltb_spec (Z.of_nat (List.length base_password)) min_length) as [Hlt|Hge].
    + destruct (choice_ok extra_chars s Hne) as (c & s1 & Hc & _).
      rewrite (G_bind_run _ _ _ _ _ Hc).
      destruct (IH (base_password ++ [c]) s1) as (password & s' & Hrun & Hlen).
      { rewrite length_app. cbn [List.length]. zlia. }
      exists password, s'. split; [exact Hrun|].
      rewrite Hlen, length_app. cbn [List.length]. zlia.
    + exists base_password, s. split; [reflexivity|]. zlia.
Qed.

(** X29. [generate_memorable_password] returns, for every length that is
    not negative, a password of exactly that many characters: the word,
    number, symbol, word pattern is filled up to a longer length and cut to
    a shorter one, below the minimum of 8 as well. *)
Theorem generate_memorable_password_length (length : Z) (s : rng) :
  0 <= length ->
  exists password s',
    generate_memorable_password length s = Return (password, s')
    /\ Z.of_nat (List.length password) = length.
Proof using randbelow_lt.
  intros Hlen. unfold generate_memorable_password. cbv zeta.
  destruct (choice_ok memorable_words s ltac:(discriminate)) as (word1 & s1 & Hw1 & Hi1).
  rewrite (G_bind_run _ _ _ _ _ Hw1).
  destruct (choice_ok memorable_words s1 ltac:(discriminate)) as (word2 & s2 & Hw2 & Hi2).
  rewrite (G_bind_run _ _ _ _ _ Hw2).
  pose proof (randbelow_lt s2 (Z.to_nat 9999) ltac:(zlia)) as Hn.
  assert (Hrb : secrets_randbelow (Z.to_nat 9999) s2
                = Return ((randbelow s2 (Z.to_nat 9999)).1, (randbelow s2 (Z.to_nat 9999)).2))
    by (unfold secrets_randbelow; destruct (randbelow s2 (Z.to_nat 9999)); reflexivity).
  rewrite (G_bind_run _ _ _ _ _ Hrb).
  destruct (choice_ok (code_points "!@#$%&*") (randbelow s2 (Z.to_nat 9999)).2
              ltac:(discriminate)) as (symbol & s3 & Hsy & _).
  rewrite (G_bind_run _ _ _ _ _ Hsy).
  pose proof memorable_words_length as Hwords. rewrite list.Forall_forall in Hwords.
  pose proof (Hwords _ Hi1) as H1. pose proof (Hwords _ Hi2) as H2.
  pose proof (numbers_length _ Hn) as H3.
  set (base_password :=
         word1 ++ zfill 2 (str_of_nat (randbelow s2 (Z.to_nat 9999)).1) ++ [symbol] ++ word2).
  assert (Hbase : (9 <= List.length base_password <= 13)%nat).
  { subst base_password. rewrite !length_app. cbn [List.length]. zlia. }
  destruct (Z.ltb_spec (Z.of_nat (List.length base_password)) (Z.max 8 length)) as [Hlt|Hge].
  - destruct (extend_loop_length (Z.to_nat (Z.max 8 length)) (Z.max 8 length)
                (lowercase ++ digits) base_password s3 ltac:(discriminate) ltac:(zlia))
      as (password & s' & Hrun & Hpl).
    exists password, s'. split; [exact Hrun|]. zlia.
  - destruct (Z.gtb_spec (Z.of_nat (List.length base_password)) length) as [Hgt|Hle].
    + exists (slice_to base_password length), s3. split; [reflexivity|].
      unfold slice_to. destruct (Z.ltb_spec length 0); [zlia|].
      rewrite length_take. zlia.
    + exists base_password, s3. split; [reflexivity|]. zlia.
Qed.

End Services.

(** * The other helpers of utils/bytes.py *)

(** ** Integers as bit lists *)

Lemma bits_to_int_fold_shift (width : Z) (bits : list Z) (k : nat) (acc : Z) :
  Z.of_nat k + Z.of_nat (length bits) <= width ->
  fold_left
    (fun value '(i, bit) => Z.lor value (Z.shiftl bit (width + 1 - 1 - Z.of_nat i)))
    (zip (seq k (length bits)) bits) (Z.shiftl acc 1)
  = Z.shiftl
      (fold_left
         (fun value '(i, bit) => Z.lor value (Z.shiftl bit (width - 1 - Z.of_nat i)))
         (zip (seq k (length bits)) bits) acc) 1.
Proof.
  revert k acc. induction bits as [|b bits IH]; intros k acc Hk; [reflexivity|].
  cbn [length seq zip zip_with fold_left] in *.
  rewrite <- IH by lia. f_equal.
  rewrite Z.shiftl_lor, Z.shiftl_shiftl by lia. do 2 f_equal. lia.
Qed.

Lemma bits_to_int_snoc (bits : list Z) (b : Z) :
  BitPacker.bits_to_int (bits ++ [b])
  = Z.lor (Z.shiftl (BitPacker.bits_to_int bits) 1) b.
Proof.
  unfold BitPacker.bits_to_int. rewrite length_app. cbn [length].
  rewrite seq_app, zip_with_app by (rewrite length_seq; reflexivity).
  rewrite fold_left_app. cbn [seq zip zip_with fold_left plus].
  replace (Z.of_nat (length bits + 1) - 1 - Z.of_nat (length bits)) with 0 by lia.
  rewrite Z.shiftl_0_r. f_equal.
  replace (Z.of_nat (length bits + 1)) with (Z.of_nat (length bits) + 1) by lia.
  change 0 with (Z.shiftl 0 1) at 1.
  apply bits_to_int_fold_shift. lia.
Qed.

Lemma int_to_bits_snoc (value : Z) (n : nat) :
  BitPacker.int_to_bits value (Z.of_nat (S n))
  = BitPacker.int_to_bits (Z.shiftr value 1) (Z.of_nat n) ++ [Z.land value 1].
Proof.
  unfold BitPacker.int_to_bits, range. rewrite !Nat2Z.id.
  rewrite seq_S, fmap_app. cbn [plus fmap list_fmap]. f_equal.
  - apply list_fmap_ext. intros i x Hx. apply lookup_seq in Hx as [-> Hi].
    rewrite Z.shiftr_shiftr by lia. do 2 f_equal. lia.
  - do 3 f_equal. replace (Z.of_nat (S n) - 1 - Z.of_nat n) with 0 by lia.
    apply Z.shiftr_0_r.
Qed.

Lemma lor_shift_bit (x v : Z) (n : nat) :
  x = Z.shiftr v 1 mod 2 ^ Z.of_nat n ->
  Z.lor (Z.shiftl x 1) (Z.land v 1) = v mod 2 ^ Z.of_nat (S n).
Proof.
  intros ->. apply Z.bits_inj'. intros k Hk.
  rewrite Z.lor_spec, Z.land_spec.
  destruct (Z.eq_dec k 0) as [->|Hk0].
  - rewrite Z.shiftl_spec_low by lia. rewrite Z.mod_pow2_bits_low by lia.
    change (Z.testbit 1 0) with true. rewrite andb_true_r. reflexivity.
  - rewrite Z.shiftl_spec by lia.
    replace (Z.testbit 1 k) with false
      by (symmetry; apply (Z.bits_above_log2 1 k); [lia|change (Z.log2 1) with 0; lia]).
    rewrite andb_false_r, orb_false_r.
    destruct (Z.lt_ge_cases k (Z.of_nat (S n))).
    + rewrite !Z.mod_pow2_bits_low by lia. rewrite Z.shiftr_spec by lia.
      f_equal. lia.
    + rewrite !Z.mod_pow2_bits_high by lia. reflexivity.
Qed.

Lemma bits_to_int_of_int_to_bits (value : Z) (n : nat) :
  BitPacker.bits_to_int (BitPacker.int_to_bits value (Z.of_nat n))
  = value mod 2 ^ Z.of_nat n.
Proof.
  revert value. induction n as [|n IH]; intros value.
  - cbn. symmetry. apply Z.mod_1_r.
  - rewrite int_to_bits_snoc, bits_to_int_snoc. apply lor_shift_bit, IH.
Qed.

(** X1. Reading back the bits of an integer: for a bit count that is not
    negative, [bits_to_int(int_to_bits(value, bit_count))] is [value]
    modulo [2 ** bit_count], for every integer, negative ones included; so
    it is [value] itself exactly when [0 <= value < 2 ** bit_count]. *)
Theorem bits_to_int_int_to_bits (value bit_count : Z) :
  0 <= bit_count ->
  BitPacker.bits_to_int (BitPacker.int_to_bits value bit_count) = value mod 2 ^ bit_count
  /\ (BitPacker.bits_to_int (BitPacker.int_to_bits value bit_count) = value
      <-> 0 <= value < 2 ^ bit_count).
Proof.
  intros Hn. rewrite <- (Z2Nat.id bit_count Hn), bits_to_int_of_int_to_bits.
  split; [reflexivity|].
  assert (0 < 2 ^ Z.of_nat (Z.to_nat bit_count)) by (apply Z.pow_pos_nonneg; lia).
  split.
  - intros <-. apply Z.mod_pos_bound. assumption.
  - intros Hv. apply Z.mod_small. assumption.
Qed.

Lemma bits_to_int_snoc_inv (x b : Z) :
  is_bit b ->
  Z.shiftr (Z.lor (Z.shiftl x 1) b) 1 = x /\ Z.land (Z.lor (Z.shiftl x 1) b) 1 = b.
Proof.
  intros Hb. split.
  - rewrite Z.shiftr_lor, Z.shiftr_shiftl_l, Z.sub_diag, Z.shiftl_0_r by lia.
    destruct Hb as [-> | ->]; [apply Z.lor_0_r|].
    change (Z.shiftr 1 1) with 0. apply Z.lor_0_r.
  - rewrite Z.land_lor_distr_l.
    replace (Z.land (Z.shiftl x 1) 1) with 0.
    + destruct Hb as [-> | ->]; reflexivity.
    + symmetry. apply Z.bits_inj'. intros k Hk. rewrite Z.land_spec, Z.bits_0.
      destruct (Z.eq_dec k 0) as [->|Hk0].
      * rewrite Z.shiftl_spec_low by lia. reflexivity.
      * replace (Z.testbit 1 k) with false
          by (symmetry; apply (Z.bits_above_log2 1 k); [lia|change (Z.log2 1) with 0; lia]).
        apply andb_false_r.
Qed.

(** X2. The other direction: a list of bits, each 0 or 1, is what
    [int_to_bits] gives back for the integer [bits_to_int] made of it, at
    the list's own length. *)
Theorem int_to_bits_bits_to_int (bits : list Z) :
  Forall is_bit bits ->
  BitPacker.int_to_bits (BitPacker.bits_to_int bits) (Z.of_nat (length bits)) = bits.
Proof.
  induction bits as [|b bits IH] using rev_ind; intros Hbits; [reflexivity|].
  apply Forall_app in Hbits as [Hbits Hb]. apply Forall_cons_1 in Hb as [Hb _].
  rewrite length_app. cbn [length]. replace (length bits + 1)%nat with (S (length bits)) by lia.
  rewrite int_to_bits_snoc, bits_to_int_snoc.
  destruct (bits_to_int_snoc_inv (BitPacker.bits_to_int bits) b Hb) as [-> ->].
  rewrite IH by assumption. reflexivity.
Qed.

(** ** [xor_bytes], [pad_bytes], [secure_compare] *)

Lemma lxor_byte_range (a b : byte) : 0 <= Z.lxor (byte_to_Z a) (byte_to_Z b) < 256.
Proof.
  pose proof (byte_to_Z_range a) as Ha. pose proof (byte_to_Z_range b) as Hb.
  assert (Hnn : 0 <= Z.lxor (byte_to_Z a) (byte_to_Z b)) by (apply Z.lxor_nonneg; lia).
  split; [exact Hnn|].
  destruct (Z.eq_dec (Z.lxor (byte_to_Z a) (byte_to_Z b)) 0) as [->|Hnz]; [lia|].
  apply (Z.log2_lt_pow2 _ 8); [lia|].
  pose proof (Z.log2_lxor (byte_to_Z a) (byte_to_Z b) ltac:(lia) ltac:(lia)) as Hl.
  assert (Hla : Z.log2 (byte_to_Z a) < 8).
  { destruct (Z.eq_dec (byte_to_Z a) 0) as [->|]; [reflexivity|].
    apply Z.log2_lt_pow2; lia. }
  assert (Hlb : Z.log2 (byte_to_Z b) < 8).
  { destruct (Z.eq_dec (byte_to_Z b) 0) as [->|]; [reflexivity|].
    apply Z.log2_lt_pow2; lia. }
  lia.
Qed.

(** X3. [xor_bytes] never raises; its result is as long as the shorter
    argument; and xoring the result with the second argument again gives
    the first argument back, cut to the length of the second. *)
Theorem xor_bytes_involutive (data1 data2 : list byte) :
  exists result,
    xor_bytes data1 data2 = Return result
    /\ length result = Nat.min (length data1) (length data2)
    /\ xor_bytes result data2 = Return (take (length data2) data1).
Proof.
  revert data2. induction data1 as [|a data1 IH]; intros data2.
  - exists []. repeat split. rewrite take_nil. reflexivity.
  - destruct data2 as [|b data2]; [exists []; repeat split|].
    destruct (IH data2) as (result & Hr & Hlen & Hback).
    destruct (byte_of_Z_is_Some _ (lxor_byte_range a b)) as [c Hc].
    exists (c :: result). unfold xor_bytes in *.
    cbn [zip zip_with fmap list_fmap bytes_of_ints length take].
    rewrite Hc, Hr. cbn [mbind outcome_bind mret outcome_ret length].
    repeat split; [lia|].
    rewrite (byte_to_of_Z _ _ Hc), Z.lxor_assoc, Z.lxor_nilpotent, Z.lxor_0_r.
    rewrite byte_of_to_Z, Hback. reflexivity.
Qed.

Lemma bytes_of_ints_repeat (v : Z) (b : byte) (n : nat) :
  byte_of_Z v = Some b -> bytes_of_ints (replicate n v) = Return (replicate n b).
Proof.
  intros Hb. induction n as [|n IH]; [reflexivity|].
  cbn [replicate bytes_of_ints]. rewrite Hb, IH. reflexivity.
Qed.

(** X4. For a positive block size and a padding byte in range(0, 256),
    [pad_bytes] appends fewer than [block_size] copies of the padding byte:
    as many as bring the length to the next multiple of [block_size], and
    none when the length is one already. *)
Theorem pad_bytes_aligned (data : list byte) (block_size padding_byte : Z) :
  0 < block_size -> 0 <= padding_byte < 256 ->
  exists pb count,
    byte_of_Z padding_byte = Some pb
    /\ pad_bytes data block_size padding_byte = Padded (data ++ replicate count pb)
    /\ Z.of_nat count = (- Z.of_nat (length data)) mod block_size
    /\ Z.of_nat (length (data ++ replicate count pb)) mod block_size = 0.
Proof.
  intros Hbs Hpb. destruct (byte_of_Z_is_Some _ Hpb) as [pb Hb]. exists pb.
  unfold pad_bytes. destruct (Z.eqb_spec block_size 0) as [|_]; [lia|].
  pose proof (Z.mod_pos_bound (Z.of_nat (length data)) block_size Hbs) as Hr.
  destruct (Z.eqb_spec (Z.of_nat (length data) mod block_size) 0) as [H0|Hn0].
  - exists 0%nat. cbn [replicate]. rewrite app_nil_r.
    split; [exact Hb|]. split; [reflexivity|]. split; [|exact H0].
    symmetry. apply Z.mod_opp_l_z; [lia|exact H0].
  - exists (Z.to_nat (block_size - Z.of_nat (length data) mod block_size)).
    unfold list_repeat. rewrite (bytes_of_ints_repeat _ _ _ Hb).
    assert (Hopp : (- Z.of_nat (length data)) mod block_size
                   = block_size - Z.of_nat (length data) mod block_size)
      by (apply Z.mod_opp_l_nz; [lia|exact Hn0]).
    split; [exact Hb|]. split; [reflexivity|]. split; [lia|].
    rewrite length_app, length_replicate, Nat2Z.inj_add, Z2Nat.id by lia.
    rewrite <- Hopp, Zplus_mod_idemp_r, Z.add_opp_diag_r. apply Z.mod_0_l. lia.
Qed.

(** X5. The edges of [pad_bytes]: a block size of 0 is a
    [ZeroDivisionError]; a negative block size returns the data as it is,
    whatever the padding byte; and a padding byte outside range(0, 256) is
    a [ValueError] exactly when padding is needed, the data being returned
    untouched when its length is a multiple already. *)
Theorem pad_bytes_edges (data : list byte) (block_size padding_byte : Z) :
  (block_size = 0 -> pad_bytes data block_size padding_byte = PadZeroDivisionError)
  /\ (block_size < 0 -> pad_bytes data block_size padding_byte = Padded data)
  /\ (0 < block_size -> ~ 0 <= padding_byte < 256 ->
      pad_bytes data block_size padding_byte
      = if Z.of_nat (length data) mod block_size =? 0 then Padded data else PadValueError).
Proof.
  unfold pad_bytes. split; [|split].
  - intros ->. reflexivity.
  - intros Hneg. destruct (Z.eqb_spec block_size 0) as [|_]; [lia|].
    destruct (Z.eqb_spec (Z.of_nat (length data) mod block_size) 0) as [|Hn0]; [reflexivity|].
    pose proof (Z.mod_neg_bound (Z.of_nat (length data)) block_size Hneg) as Hr.
    unfold list_repeat. rewrite Z2Nat.nonpos by lia. cbn. rewrite app_nil_r. reflexivity.
  - intros Hpos Hpb. destruct (Z.eqb_spec block_size 0) as [|_]; [lia|].
    destruct (Z.eqb_spec (Z.of_nat (length data) mod block_size) 0) as [|Hn0]; [reflexivity|].
    pose proof (Z.mod_pos_bound (Z.of_nat (length data)) block_size Hpos) as Hr.
    unfold list_repeat.
    destruct (Z.to_nat (block_size - Z.of_nat (length data) mod block_size)) as [|n] eqn:Hn;
      [lia|].
    cbn [replicate bytes_of_ints]. unfold byte_of_Z.
    destruct (Z.leb_spec 0 padding_byte), (Z.ltb_spec padding_byte 256);
      cbn [andb]; try reflexivity. lia.
Qed.

Lemma secure_compare_fold (data1 data2 : list byte) (acc : Z) :
  0 <= acc -> length data1 = length data2 ->
  fold_left (fun result '(a, b) => Z.lor result (Z.lxor (byte_to_Z a) (byte_to_Z b)))
    (zip data1 data2) acc = 0
  <-> acc = 0 /\ data1 = data2.
Proof.
  revert data2 acc. induction data1 as [|a data1 IH]; intros [|b data2] acc Hacc Hlen;
    try discriminate.
  - cbn. tauto.
  - cbn [zip zip_with fold_left]. injection Hlen as Hlen.
    pose proof (lxor_byte_range a b) as Hx.
    rewrite IH by (try apply Z.lor_nonneg; auto; lia).
    rewrite Z.lor_eq_0_iff, Z.lxor_eq_0_iff. split.
    + intros [[-> Hab] ->]. apply byte_to_Z_inj in Hab as ->. auto.
    + intros [-> [= -> ->]]. auto.
Qed.

(** X6. [secure_compare] answers [True] exactly when the two byte strings
    are equal. *)
Theorem secure_compare_iff_equal (data1 data2 : list byte) :
  secure_compare data1 data2 = true <-> data1 = data2.
Proof.
  unfold secure_compare. destruct (Nat.eqb_spec (length data1) (length data2)) as [Hlen|Hlen];
    cbn [negb].
  - rewrite Z.eqb_eq, secure_compare_fold by (auto; lia). tauto.
  - split; [discriminate|]. intros ->. contradiction.
Qed.

(** ** Hexadecimal text *)

Lemma str_append_assoc (s1 s2 s3 : string) :
  ((s1 ++ s2) ++ s3 = s1 ++ (s2 ++ s3))%string.
Proof. induction s1 as [|c s1 IH]; [reflexivity|]. cbn. rewrite IH. reflexivity. Qed.

Lemma str_append_empty_r (s : string) : (s ++ EmptyString)%string = s.
Proof. induction s as [|c s IH]; [reflexivity|]. cbn. rewrite IH. reflexivity. Qed.

Lemma str_remove_app (c : ascii) (s1 s2 : string) :
  str_remove c (s1 ++ s2) = (str_remove c s1 ++ str_remove c s2)%string.
Proof.
  induction s1 as [|a s1 IH]; [reflexivity|]. cbn.
  destruct (Ascii.eqb a c); rewrite IH; reflexivity.
Qed.

Lemma hex_clean_app (s1 s2 : string) :
  hex_clean (s1 ++ s2) = (hex_clean s1 ++ hex_clean s2)%string.
Proof. unfold hex_clean. rewrite !str_remove_app. reflexivity. Qed.

Lemma hex_clean_format (b : byte) : hex_clean (format_02x b) = format_02x b.
Proof. destruct b; reflexivity. Qed.

Lemma hex_clean_separator (separator : string) :
  Forall (fun c => c = " " \/ c = "-" \/ c = ":")%char (list_ascii_of_string separator) ->
  hex_clean separator = EmptyString.
Proof.
  induction separator as [|c separator IH]; [reflexivity|].
  cbn [list_ascii_of_string]. intros H. apply Forall_cons_1 in H as [Hc H].
  change (String c separator) with (String c EmptyString ++ separator)%string.
  rewrite hex_clean_app, (IH H), str_append_empty_r.
  destruct Hc as [-> | [-> | ->]]; reflexivity.
Qed.

Lemma hex_clean_join (separator : string) (data : list byte) (acc : string) :
  hex_clean separator = EmptyString ->
  hex_clean (fold_left (fun acc q => acc ++ separator ++ q)%string (format_02x <$> data) acc)
  = (hex_clean acc ++ hex_pairs data)%string.
Proof.
  intros Hsep. revert acc. induction data as [|b data IH]; intros acc.
  - cbn. rewrite str_append_empty_r. reflexivity.
  - cbn [fmap list_fmap fold_left hex_pairs]. rewrite IH.
    rewrite !hex_clean_app, Hsep, hex_clean_format, str_append_assoc. reflexivity.
Qed.

Lemma hex_clean_bytes_to_hex (separator : string) (data : list byte) :
  hex_clean separator = EmptyString ->
  hex_clean (bytes_to_hex data separator) = hex_pairs data.
Proof.
  intros Hsep. unfold bytes_to_hex, str_join. destruct data as [|b data]; [reflexivity|].
  cbn [fmap list_fmap hex_pairs]. rewrite (hex_clean_join _ _ _ Hsep), hex_clean_format.
  reflexivity.
Qed.

Lemma hex_pairs_length (data : list byte) :
  String.length (hex_pairs data) = (2 * length data)%nat.
Proof.
  induction data as [|b data IH]; [reflexivity|].
  cbn [hex_pairs format_02x String.append String.length length]. rewrite IH. lia.
Qed.

Lemma fromhex_format (b : byte) (s : string) :
  fromhex (format_02x b ++ s) = bs ← fromhex s; mret (b :: bs).
Proof. destruct b; reflexivity. Qed.

Lemma fromhex_hex_pairs (data : list byte) : fromhex (hex_pairs data) = Return data.
Proof.
  induction data as [|b data IH]; [reflexivity|].
  cbn [hex_pairs]. rewrite fromhex_format, IH. reflexivity.
Qed.

(** X7. [hex_to_bytes] undoes [bytes_to_hex] for every separator made of
    the characters it removes (space, [-], [:]): the default single space,
    the empty separator, and any mix of the three. *)
Theorem hex_to_bytes_bytes_to_hex (data : list byte) (separator : string) :
  Forall (fun c => c = " " \/ c = "-" \/ c = ":")%char (list_ascii_of_string separator) ->
  hex_to_bytes (bytes_to_hex data separator) = Return data.
Proof.
  intros Hsep. unfold hex_to_bytes.
  change (str_remove ":" (str_remove "-" (str_remove " " (bytes_to_hex data separator))))
    with (hex_clean (bytes_to_hex data separator)).
  rewrite (hex_clean_bytes_to_hex _ _ (hex_clean_separator _ Hsep)).
  rewrite hex_pairs_length.
  replace ((2 * length data) mod 2 =? 0)%nat with true
    by (symmetry; apply Nat.eqb_eq; lia).
  apply fromhex_hex_pairs.
Qed.

(** * Instances

    The theorems above, at the stand-in services and on small buffers. *)

Lemma standin_randbelow_lt (s : Standin.rng) (n : nat) :
  (0 < n)%nat -> ((Standin.randbelow s n).1 < n)%nat.
Proof.
  intros Hn. unfold Standin.randbelow. cbn [fst].
  pose proof (Z.mod_pos_bound s (Z.of_nat n) ltac:(lia)). lia.
Qed.

Lemma header_codec_roundtrip_witness :
  length (replicate 16 x07) = 16%nat /\ length (replicate 12 x09) = 12%nat
  /\ 0 <= 5 < 2 ^ 32 /\ (2 = 1 \/ 2 = 2)
  /\ exists header,
       _create_header (replicate 16 x07) (replicate 12 x09) 5 2 true = Return header
       /\ hi_lsb_bits <$> (match _parse_header header with
                           | Return info => Some info
                           | Raise _ => None
                           end) = Some 2.
Proof.
  split; [reflexivity|]. split; [reflexivity|]. split; [lia|]. split; [right; reflexivity|].
  destruct (header_codec_roundtrip (replicate 16 x07) (replicate 12 x09) 5 2 true
              eq_refl eq_refl ltac:(lia) (or_intror eq_refl))
    as (header & Hcreate & _ & _ & Hparse).
  exists header. split; [exact Hcreate|]. rewrite Hparse. reflexivity.
Defined.

Lemma scatter_indices_contract_witness :
  Z.of_nat 16 <= 64
  /\ exists indices,
       _generate_scatter_indices Standin.sha256 Standin.rng Standin.Random
         Standin.randbelow 16 64 (replicate 16 x07) = Return indices
       /\ length indices = 16%nat /\ NoDup indices.
Proof.
  split; [lia|].
  destruct (proj2 (scatter_indices_contract Standin.sha256 Standin.rng Standin.Random
                     Standin.randbelow standin_randbelow_lt 16 64 (replicate 16 x07))
              ltac:(lia))
    as (perm & _ & _ & Hgen & Hlen & Hnd & _).
  exists (take 16 perm). split; [exact Hgen|]. split; [exact Hlen|exact Hnd].
Defined.

Lemma bit_packer_invertible_witness :
  (length [1; 0; 1] mod 8 <> 0)%nat
  /\ BitPacker.bits_to_bytes [1; 0; 1] = BitPacker.bits_to_bytes [1; 0; 1; 0; 0; 0; 0; 0].
Proof.
  split; [discriminate|].
  destruct (bit_packer_invertible [x41] [1; 0; 1]) as (_ & _ & _ & H).
  destruct (H ltac:(discriminate)) as (_ & _ & Heq & _). exact Heq.
Defined.

Lemma capacity_formula_witness :
  Standin.load_audio "a.wav" []
  = ([replicate 400 0], Return ({| buffer := 0; shape := [400%nat] |}, 44100))
  /\ calculate_capacity Standin.load_audio "a.wav" 1 [] = ([replicate 400 0], Return 8).
Proof.
  split; [reflexivity|].
  destruct (capacity_formula Standin.load_audio "a.wav" 1 44100 [] [replicate 400 0]
              {| buffer := 0; shape := [400%nat] |} 400 0 eq_refl (or_introl eq_refl))
    as [H _].
  exact H.
Defined.

Lemma embed_message_leaves_input_witness :
  valid [replicate 344 3] {| buffer := 0; shape := [344%nat] |}
  /\ exists extra,
       (embed_message Standin.sha256 Standin.rng Standin.Random Standin.randbelow
          {| buffer := 0; shape := [344%nat] |} [x41] (replicate 16 x07)
          (replicate 12 x09) 1 true [replicate 344 3]).1
       = [replicate 344 3] ++ extra.
Proof.
  assert (Hv : valid [replicate 344 3] {| buffer := 0; shape := [344%nat] |})
    by (exists (replicate 344 3); split; reflexivity).
  split; [exact Hv|].
  destruct (embed_message_leaves_input Standin.sha256 Standin.rng Standin.Random
              Standin.randbelow standin_randbelow_lt [replicate 344 3]
              {| buffer := 0; shape := [344%nat] |} [x41] (replicate 16 x07)
              (replicate 12 x09) 1 true Hv) as (extra & Hextra & _).
  exists extra. exact Hextra.
Defined.

Lemma embed_message_frame_witness :
  let h := [replicate 344 3] in
  let a := {| buffer := 0; shape := [344%nat] |} in
  let run := embed_message Standin.sha256 Standin.rng Standin.Random Standin.randbelow
               a [x41] (replicate 16 x07) (replicate 12 x09) 2 true h in
  valid h a /\ (2 = 1 \/ 2 = 2)
  /\ run = (run.1, Return {| buffer := 2; shape := [344%nat] |})
  /\ length (samples run.1 {| buffer := 2; shape := [344%nat] |}) = length (samples h a).
Proof.
  cbv zeta.
  assert (Hv : valid [replicate 344 3] {| buffer := 0; shape := [344%nat] |})
    by (exists (replicate 344 3); split; reflexivity).
  assert (Hrun : embed_message Standin.sha256 Standin.rng Standin.Random Standin.randbelow
                   {| buffer := 0; shape := [344%nat] |} [x41] (replicate 16 x07)
                   (replicate 12 x09) 2 true [replicate 344 3]
                 = ((embed_message Standin.sha256 Standin.rng Standin.Random
                       Standin.randbelow {| buffer := 0; shape := [344%nat] |} [x41]
                       (replicate 16 x07) (replicate 12 x09) 2 true [replicate 344 3]).1,
                    Return {| buffer := 2; shape := [344%nat] |}))
    by (vm_compute; reflexivity).
  split; [exact Hv|]. split; [right; reflexivity|]. split; [exact Hrun|].
  destruct (embed_message_frame Standin.sha256 Standin.rng Standin.Random
              Standin.randbelow standin_randbelow_lt _ _ _ _ _ _ _ _ _
              Hv (or_intror eq_refl) Hrun)
    as (header & positions & _ & _ & _ & Hlen & _).
  exact Hlen.
Defined.

(** C4, as stated, fails for [lsb_bits = 2]: sample 1 of a buffer of 3s
    receives the header bit 1 and comes out as 1, so its bit 1, which no data
    bit was written to, went from 1 to 0. *)
Lemma embed_lsb2_clears_bit_1 :
  let h := [replicate 336 3] in
  let a := {| buffer := 0; shape := [336%nat] |} in
  let a' := {| buffer := 2; shape := [336%nat] |} in
  let run := embed_message Standin.sha256 Standin.rng Standin.Random Standin.randbelow
               a [] (replicate 16 x00) (replicate 12 x00) 2 false h in
  run.2 = Return a'
  /\ samples h a !! 1%nat = Some 3
  /\ samples run.1 a' !! 1%nat = Some 1
  /\ Z.testbit 3 1 = true /\ Z.testbit 1 1 = false.
Proof. vm_compute. repeat split; reflexivity. Qed.

Lemma header_crc_checked_first_witness :
  let h := [replicate 336 0] in
  let a := {| buffer := 0; shape := [336%nat] |} in
  valid h a /\ (header_size * 8 <= size a)%nat
  /\ calculate_crc32 (replicate 38 x00) <> int_from_bytes_big (replicate 4 x00)
  /\ (extract_message Standin.sha256 Standin.rng Standin.Random Standin.randbelow a h).2
     = Raise (StegoError (Because "Failed to extract message"
                (StegoError (Because "Failed to parse header"
                   (StegoError (Text "Header CRC verification failed")))))).
Proof.
  cbv zeta.
  assert (Hv : valid [replicate 336 0] {| buffer := 0; shape := [336%nat] |})
    by (exists (replicate 336 0); split; reflexivity).
  assert (Hsize : (header_size * 8 <= size {| buffer := 0; shape := [336%nat] |})%nat)
    by (vm_compute; lia).
  assert (Hcrc : calculate_crc32 (replicate 38 x00) <> int_from_bytes_big (replicate 4 x00))
    by (vm_compute; discriminate).
  split; [exact Hv|]. split; [exact Hsize|]. split; [exact Hcrc|].
  destruct (proj2 (header_crc_checked_first Standin.sha256 Standin.rng Standin.Random
                     Standin.randbelow Standin.load_audio Standin.pbkdf2_hmac_sha256
                     Standin.aesgcm_decrypt Standin.utf8_encode Standin.utf8_decode)
              [replicate 336 0] {| buffer := 0; shape := [336%nat] |} Hv Hsize)
    as (hb & Hhb & _ & Hfail).
  assert (Ehb : hb = replicate 42 x00).
  { assert (E : BitPacker.bits_to_bytes
                  (header_lsbs (samples [replicate 336 0]
                                  {| buffer := 0; shape := [336%nat] |}))
                = Return (replicate 42 x00)) by (vm_compute; reflexivity).
    rewrite E in Hhb. injection Hhb as <-. reflexivity. }
  subst hb. destruct (Hfail Hcrc) as [Hext _]. rewrite Hext. reflexivity.
Defined.

(** ** The further properties, at concrete inputs *)

Lemma bits_to_int_int_to_bits_witness :
  0 <= 4
  /\ BitPacker.bits_to_int (BitPacker.int_to_bits (-3) 4) = (-3) mod 2 ^ 4
  /\ BitPacker.int_to_bits (-3) 4 = [1; 1; 0; 1].
Proof.
  split; [lia|]. split; [|reflexivity].
  exact (proj1 (bits_to_int_int_to_bits (-3) 4 ltac:(lia))).
Defined.

Lemma int_to_bits_bits_to_int_witness :
  Forall is_bit [1; 0; 1; 1]
  /\ BitPacker.int_to_bits (BitPacker.bits_to_int [1; 0; 1; 1]) 4 = [1; 0; 1; 1].
Proof.
  assert (H : Forall is_bit [1; 0; 1; 1]).
  { apply Forall_cons_2; [right; reflexivity|]. apply Forall_cons_2; [left; reflexivity|].
    apply Forall_cons_2; [right; reflexivity|]. apply Forall_cons_2; [right; reflexivity|].
    apply Forall_nil_2. }
  split; [exact H|]. exact (int_to_bits_bits_to_int [1; 0; 1; 1] H).
Defined.

Lemma pad_bytes_aligned_witness :
  0 < 4 /\ 0 <= 0 < 256
  /\ exists pb count,
       pad_bytes [x01; x02; x03; x04; x05] 4 0
       = Padded ([x01; x02; x03; x04; x05] ++ replicate count pb)
       /\ Z.of_nat count = (- 5) mod 4.
Proof.
  split; [lia|]. split; [lia|].
  destruct (pad_bytes_aligned [x01; x02; x03; x04; x05] 4 0 ltac:(lia) ltac:(lia))
    as (pb & count & _ & Hpad & Hcount & _).
  exists pb, count. split; [exact Hpad|exact Hcount].
Defined.

Lemma hex_to_bytes_bytes_to_hex_witness :
  Forall (fun c => c = " " \/ c = "-" \/ c = ":")%char (list_ascii_of_string ": ")
  /\ bytes_to_hex [x01; xab; xff] ": " = "01: ab: ff"%string
  /\ hex_to_bytes (bytes_to_hex [x01; xab; xff] ": ") = Return [x01; xab; xff].
Proof.
  assert (H : Forall (fun c => c = " " \/ c = "-" \/ c = ":")%char
                (list_ascii_of_string ": ")).
  { apply Forall_cons_2; [right; right; reflexivity|].
    apply Forall_cons_2; [left; reflexivity|]. apply Forall_nil_2. }
  split; [exact H|]. split; [reflexivity|].
  exact (hex_to_bytes_bytes_to_hex [x01; xab; xff] ": " H).
Defined.

Lemma header_codec_any_input_witness :
  0 <= 5 < 2 ^ 32
  /\ (exists header,
        _create_header [x07] [] 5 6 true = Return header
        /\ _parse_header header
           = Return {| hi_version := 1; hi_lsb_bits := 2; hi_scatter := true;
                       hi_salt := x07 :: replicate 15 x00; hi_nonce := replicate 12 x00;
                       hi_payload_length := 5 |})
  /\ (exists header,
        _create_header [x07] [] 5 4 true = Return header
        /\ _parse_header header
           = Raise (StegoError (Because "Failed to parse header"
                      (StegoError (InvalidLsbBits 0))))).
Proof.
  split; [lia|]. split.
  - destruct (header_codec_any_input [x07] [] 5 6 true ltac:(lia))
      as (header & Hcreate & _ & Hparse).
    exists header. split; [exact Hcreate|exact Hparse].
  - destruct (header_codec_any_input [x07] [] 5 4 true ltac:(lia))
      as (header & Hcreate & _ & Hparse).
    exists header. split; [exact Hcreate|exact Hparse].
Defined.

Lemma extract_message_too_short_for_header_witness :
  (length (samples [[]] {| buffer := 0; shape := [0%nat] |}) < header_size * 8)%nat
  /\ (extract_message Standin.sha256 Standin.rng Standin.Random Standin.randbelow
        {| buffer := 0; shape := [0%nat] |} [[]]).2
     = Raise (StegoError (Because "Failed to extract message"
                (StegoError (Text "Audio file too short for header")))).
Proof.
  assert (H : (length (samples [[]] {| buffer := 0; shape := [0%nat] |})
               < header_size * 8)%nat) by (vm_compute; lia).
  split; [exact H|].
  exact (extract_message_too_short_for_header Standin.sha256 Standin.rng Standin.Random
           Standin.randbelow [[]] {| buffer := 0; shape := [0%nat] |} H).
Defined.

Lemma standin_aead_correct (key n data c : list byte) :
  Standin.aesgcm_encrypt key n data = Return c -> Standin.aesgcm_decrypt key n c = Return data.
Proof.
  unfold Standin.aesgcm_encrypt, Standin.aesgcm_decrypt. intros [= <-].
  rewrite reverse_app, reverse_singleton. cbn [app]. rewrite reverse_involutive. reflexivity.
Qed.

Lemma standin_utf8_correct (s : string) :
  Standin.utf8_decode (Standin.utf8_encode s) = Return s.
Proof.
  unfold Standin.utf8_decode, Standin.utf8_encode.
  rewrite string_of_list_byte_of_string. reflexivity.
Qed.

Lemma extract_message_returns_witness :
  let a' := {| buffer := 2; shape := [344%nat] |} in
  let h' := (embed_message Standin.sha256 Standin.rng Standin.Random Standin.randbelow
               {| buffer := 0; shape := [344%nat] |} [x41] (replicate 16 x07)
               (replicate 12 x09) 1 false [replicate 344 0]).1 in
  exists hb info,
    (header_size * 8 <= length (samples h' a'))%nat
    /\ BitPacker.bits_to_bytes (header_lsbs (samples h' a')) = Return hb
    /\ _parse_header hb = Return info
    /\ hi_payload_length info = 1
    /\ Z.of_nat (header_size * 8) + 8 * hi_payload_length info
       <= Z.of_nat (length (samples h' a'))
    /\ exists encrypted_data,
         (extract_message Standin.sha256 Standin.rng Standin.Random Standin.randbelow
            a' h').2
         = Return (encrypted_data, hi_salt info, hi_nonce info)
         /\ Z.of_nat (length encrypted_data) = 1.
Proof.
  cbv zeta.
  set (a' := {| buffer := 2; shape := [344%nat] |}).
  set (h' := (embed_message Standin.sha256 Standin.rng Standin.Random Standin.randbelow
                {| buffer := 0; shape := [344%nat] |} [x41] (replicate 16 x07)
                (replicate 12 x09) 1 false [replicate 344 0]).1).
  set (hb := match BitPacker.bits_to_bytes (header_lsbs (samples h' a')) with
             | Return hb => hb
             | Raise _ => []
             end).
  set (info := match _parse_header hb with
               | Return info => info
               | Raise _ =>
                   {| hi_version := 0; hi_lsb_bits := 0; hi_scatter := false;
                      hi_salt := []; hi_nonce := []; hi_payload_length := 0 |}
               end).
  assert (Hlen : (header_size * 8 <= length (samples h' a'))%nat) by (vm_compute; lia).
  assert (Hhb : BitPacker.bits_to_bytes (header_lsbs (samples h' a')) = Return hb)
    by (vm_compute; reflexivity).
  assert (Hinfo : _parse_header hb = Return info) by (vm_compute; reflexivity).
  assert (Hpl : hi_payload_length info = 1) by (vm_compute; reflexivity).
  assert (Hfit : Z.of_nat (header_size * 8) + 8 * hi_payload_length info
                 <= Z.of_nat (length (samples h' a'))) by (vm_compute; discriminate).
  exists hb, info. split; [exact Hlen|]. split; [exact Hhb|]. split; [exact Hinfo|].
  split; [exact Hpl|]. split; [exact Hfit|].
  destruct (extract_message_returns Standin.sha256 Standin.rng Standin.Random
              Standin.randbelow standin_randbelow_lt h' a' hb info Hlen Hhb Hinfo Hfit)
    as (encrypted_data & Hrun & Hdl).
  exists encrypted_data. split; [exact Hrun|]. rewrite Hdl, Hpl. reflexivity.
Defined.

Lemma extract_message_truncated_witness :
  let embedded := samples
        (embed_message Standin.sha256 Standin.rng Standin.Random Standin.randbelow
           {| buffer := 0; shape := [344%nat] |} [x41] (replicate 16 x07)
           (replicate 12 x09) 1 false [replicate 344 0]).1
        {| buffer := 2; shape := [344%nat] |} in
  let h := [take 340 embedded] in
  let a := {| buffer := 0; shape := [340%nat] |} in
  exists hb info,
    (header_size * 8 <= length (samples h a))%nat
    /\ BitPacker.bits_to_bytes (header_lsbs (samples h a)) = Return hb
    /\ _parse_header hb = Return info
    /\ hi_scatter info = false
    /\ Z.of_nat (length (samples h a))
       < Z.of_nat (header_size * 8) + 8 * hi_payload_length info
    /\ (extract_message Standin.sha256 Standin.rng Standin.Random Standin.randbelow a h).2
       = Raise (StegoError (Because "Failed to extract message"
                  (StegoError (Text "Audio file too short for complete message")))).
Proof.
  cbv zeta.
  set (h := [take 340 (samples
        (embed_message Standin.sha256 Standin.rng Standin.Random Standin.randbelow
           {| buffer := 0; shape := [344%nat] |} [x41] (replicate 16 x07)
           (replicate 12 x09) 1 false [replicate 344 0]).1
        {| buffer := 2; shape := [344%nat] |})]).
  set (a := {| buffer := 0; shape := [340%nat] |}).
  set (hb := match BitPacker.bits_to_bytes (header_lsbs (samples h a)) with
             | Return hb => hb
             | Raise _ => []
             end).
  set (info := match _parse_header hb with
               | Return info => info
               | Raise _ =>
                   {| hi_version := 0; hi_lsb_bits := 0; hi_scatter := false;
                      hi_salt := []; hi_nonce := []; hi_payload_length := 0 |}
               end).
  assert (Hlen : (header_size * 8 <= length (samples h a))%nat) by (vm_compute; lia).
  assert (Hhb : BitPacker.bits_to_bytes (header_lsbs (samples h a)) = Return hb)
    by (vm_compute; reflexivity).
  assert (Hinfo : _parse_header hb = Return info) by (vm_compute; reflexivity).
  assert (Hsc : hi_scatter info = false) by (vm_compute; reflexivity).
  assert (Hshort : Z.of_nat (length (samples h a))
                   < Z.of_nat (header_size * 8) + 8 * hi_payload_length info)
    by (vm_compute; reflexivity).
  exists hb, info. split; [exact Hlen|]. split; [exact Hhb|]. split; [exact Hinfo|].
  split; [exact Hsc|]. split; [exact Hshort|].
  rewrite (extract_message_truncated Standin.sha256 Standin.rng Standin.Random
             Standin.randbelow h a hb info Hlen Hhb Hinfo Hshort).
  rewrite Hsc. reflexivity.
Defined.

Lemma extract_after_embed_witness :
  let h := [replicate 344 3] in
  let a := {| buffer := 0; shape := [344%nat] |} in
  valid h a /\ length (replicate 16 x07) = 16%nat /\ length (replicate 12 x09) = 12%nat
  /\ (2 = 1 \/ 2 = 2) /\ Z.of_nat (length [x41]) < 2 ^ 32
  /\ ((42 + length [x41]) * 8 <= size a)%nat
  /\ exists h' a',
       embed_message Standin.sha256 Standin.rng Standin.Random Standin.randbelow
         a [x41] (replicate 16 x07) (replicate 12 x09) 2 true h = (h', Return a')
       /\ (extract_message Standin.sha256 Standin.rng Standin.Random Standin.randbelow
             a' h').2 = Return ([x41], replicate 16 x07, replicate 12 x09).
Proof.
  cbv zeta.
  assert (Hv : valid [replicate 344 3] {| buffer := 0; shape := [344%nat] |})
    by (exists (replicate 344 3); split; reflexivity).
  assert (Hr : Z.of_nat (length [x41]) < 2 ^ 32) by reflexivity.
  assert (Hfit : ((42 + length [x41]) * 8
                  <= size {| buffer := 0; shape := [344%nat] |})%nat)
    by (vm_compute; lia).
  split; [exact Hv|]. split; [reflexivity|]. split; [reflexivity|].
  split; [right; reflexivity|]. split; [exact Hr|]. split; [exact Hfit|].
  exact (extract_after_embed Standin.sha256 Standin.rng Standin.Random Standin.randbelow
           standin_randbelow_lt [replicate 344 3] {| buffer := 0; shape := [344%nat] |}
           [x41] (replicate 16 x07) (replicate 12 x09) 2 true Hv eq_refl eq_refl
           (or_intror eq_refl) Hr Hfit).
Defined.


Lemma embed_message_insufficient_capacity_iff_witness :
  let h := [replicate 300 3] in
  let a := {| buffer := 0; shape := [300%nat] |} in
  valid h a /\ Z.of_nat (length [x41]) < 2 ^ 32
  /\ Z.of_nat (42 + length [x41]) * 8 > Z.of_nat (size a) * 1
  /\ (embed_message Standin.sha256 Standin.rng Standin.Random Standin.randbelow
        a [x41] (replicate 16 x07) (replicate 12 x09) 1 true h).2
     = Raise (StegoError (Because "Failed to embed message"
                (StegoError (InsufficientCapacity 344 300)))).
Proof.
  cbv zeta.
  assert (Hv : valid [replicate 300 3] {| buffer := 0; shape := [300%nat] |})
    by (exists (replicate 300 3); split; reflexivity).
  assert (Hr : Z.of_nat (length [x41]) < 2 ^ 32) by reflexivity.
  assert (Hgt : Z.of_nat (42 + length [x41]) * 8
                > Z.of_nat (size {| buffer := 0; shape := [300%nat] |}) * 1)
    by reflexivity.
  split; [exact Hv|]. split; [exact Hr|]. split; [exact Hgt|].
  exact (proj1 (embed_message_insufficient_capacity_iff Standin.sha256 Standin.rng
                  Standin.Random Standin.randbelow standin_randbelow_lt
                  [replicate 300 3] {| buffer := 0; shape := [300%nat] |} [x41]
                  (replicate 16 x07) (replicate 12 x09) 1 true Hv Hr) Hgt).
Defined.

Lemma embed_message_distortion_witness :
  let h := [replicate 344 3] in
  let a := {| buffer := 0; shape := [344%nat] |} in
  let run := embed_message Standin.sha256 Standin.rng Standin.Random Standin.randbelow
               a [x41] (replicate 16 x07) (replicate 12 x09) 2 true h in
  valid h a /\ (2 = 1 \/ 2 = 2)
  /\ run = (run.1, Return {| buffer := 2; shape := [344%nat] |})
  /\ Forall2 (fun sample sample' => Z.abs (sample' - sample) < 2 ^ 2)
       (samples h a) (samples run.1 {| buffer := 2; shape := [344%nat] |}).
Proof.
  cbv zeta.
  assert (Hv : valid [replicate 344 3] {| buffer := 0; shape := [344%nat] |})
    by (exists (replicate 344 3); split; reflexivity).
  assert (Hrun : embed_message Standin.sha256 Standin.rng Standin.Random Standin.randbelow
                   {| buffer := 0; shape := [344%nat] |} [x41] (replicate 16 x07)
                   (replicate 12 x09) 2 true [replicate 344 3]
                 = ((embed_message Standin.sha256 Standin.rng Standin.Random
                       Standin.randbelow {| buffer := 0; shape := [344%nat] |} [x41]
                       (replicate 16 x07) (replicate 12 x09) 2 true [replicate 344 3]).1,
                    Return {| buffer := 2; shape := [344%nat] |}))
    by (vm_compute; reflexivity).
  split; [exact Hv|]. split; [right; reflexivity|]. split; [exact Hrun|].
  eapply list.Forall2_impl;
    [exact (embed_message_distortion Standin.sha256 Standin.rng Standin.Random
              Standin.randbelow standin_randbelow_lt _ _ _ _ _ _ _ _ _
              Hv (or_intror eq_refl) Hrun)|].
  intros sample sample' [H _]. exact H.
Defined.

Lemma scatter_indices_prefix_witness :
  (3 <= 8)%nat /\ Z.of_nat 8 <= 64
  /\ exists indices,
       _generate_scatter_indices Standin.sha256 Standin.rng Standin.Random
         Standin.randbelow 8 64 (replicate 16 x07) = Return indices
       /\ _generate_scatter_indices Standin.sha256 Standin.rng Standin.Random
            Standin.randbelow 3 64 (replicate 16 x07) = Return (take 3 indices).
Proof.
  split; [lia|]. split; [lia|].
  exact (scatter_indices_prefix Standin.sha256 Standin.rng Standin.Random
           Standin.randbelow standin_randbelow_lt 3 8 64 (replicate 16 x07)
           ltac:(lia) ltac:(lia)).
Defined.

Lemma analyze_after_embed_witness :
  let h := [replicate 344 3] in
  let a := {| buffer := 0; shape := [344%nat] |} in
  let run := embed_message Standin.sha256 Standin.rng Standin.Random Standin.randbelow
               a [x41] (replicate 16 x07) (replicate 12 x09) 2 true h in
  valid h a
  /\ run = (run.1, Return {| buffer := 2; shape := [344%nat] |})
  /\ exists report,
       (analyze_audio_for_stego (fun ones n => (ones, n)) (fun _ => false)
          {| buffer := 2; shape := [344%nat] |} run.1).2 = Return (Analysis report)
       /\ sa_has_stego_header report = true
       /\ sa_total_samples report = 344%nat.
Proof.
  cbv zeta.
  assert (Hv : valid [replicate 344 3] {| buffer := 0; shape := [344%nat] |})
    by (exists (replicate 344 3); split; reflexivity).
  assert (Hrun : embed_message Standin.sha256 Standin.rng Standin.Random Standin.randbelow
                   {| buffer := 0; shape := [344%nat] |} [x41] (replicate 16 x07)
                   (replicate 12 x09) 2 true [replicate 344 3]
                 = ((embed_message Standin.sha256 Standin.rng Standin.Random
                       Standin.randbelow {| buffer := 0; shape := [344%nat] |} [x41]
                       (replicate 16 x07) (replicate 12 x09) 2 true [replicate 344 3]).1,
                    Return {| buffer := 2; shape := [344%nat] |}))
    by (vm_compute; reflexivity).
  split; [exact Hv|]. split; [exact Hrun|].
  exact (analyze_after_embed Standin.sha256 Standin.rng Standin.Random Standin.randbelow
           standin_randbelow_lt (fun ones n => (ones, n)) (fun _ => false)
           _ _ _ _ _ _ _ _ _ Hv Hrun).
Defined.

Lemma analyze_estimates_capacity_witness :
  let a := {| buffer := 0; shape := [400%nat] |} in
  Standin.load_audio "a.wav" [] = ([replicate 400 0], Return (a, 44100))
  /\ valid [replicate 400 0] a
  /\ (shape a = [400%nat] \/ shape a = [400%nat; 0%nat])
  /\ exists report,
       (analyze_audio_for_stego (fun ones n => (ones, n)) (fun _ => false)
          a [replicate 400 0]).2 = Return (Analysis report)
       /\ (calculate_capacity Standin.load_audio "a.wav" 1 []).2
          = Return (Z.max 0 (sa_estimated_capacity_1lsb report))
       /\ (calculate_capacity Standin.load_audio "a.wav" 2 []).2
          = Return (Z.max 0 (sa_estimated_capacity_2lsb report)).
Proof.
  cbv zeta.
  assert (Hv : valid [replicate 400 0] {| buffer := 0; shape := [400%nat] |})
    by (exists (replicate 400 0); split; reflexivity).
  split; [reflexivity|]. split; [exact Hv|]. split; [left; reflexivity|].
  destruct (analyze_estimates_capacity Standin.load_audio
              (fun ones n => (ones, n)) (fun _ => false) "a.wav" 44100 []
              [replicate 400 0] {| buffer := 0; shape := [400%nat] |} 400 0
              eq_refl Hv (or_introl eq_refl))
    as (report & Hrep & H1 & H2 & _).
  exists report. split; [exact Hrep|]. split; [exact H1|exact H2].
Defined.

Lemma decrypt_after_encrypt_witness :
  (forall key n data c,
     Standin.aesgcm_encrypt key n data = Return c ->
     Standin.aesgcm_decrypt key n c = Return data)
  /\ (forall s, Standin.utf8_decode (Standin.utf8_encode s) = Return s)
  /\ encrypt_message Standin.pbkdf2_hmac_sha256 Standin.aesgcm_encrypt
       Standin.utf8_encode (replicate 16 x07) (replicate 12 x09) "hi" "pw"
     = Return ([x68; x69; xff], replicate 16 x07, replicate 12 x09)
  /\ decrypt_message Standin.pbkdf2_hmac_sha256 Standin.aesgcm_decrypt
       Standin.utf8_encode Standin.utf8_decode [x68; x69; xff] "pw"
       (replicate 16 x07) (replicate 12 x09) = Return "hi"%string.
Proof.
  split; [exact standin_aead_correct|]. split; [exact standin_utf8_correct|].
  split; [reflexivity|].
  exact (proj2 (proj2 (decrypt_after_encrypt Standin.pbkdf2_hmac_sha256
                         Standin.aesgcm_encrypt Standin.aesgcm_decrypt
                         Standin.utf8_encode Standin.utf8_decode
                         (replicate 16 x07) (replicate 12 x09) "hi" "pw"
                         [x68; x69; xff] (replicate 16 x07) (replicate 12 x09)
                         standin_aead_correct standin_utf8_correct eq_refl))).
Defined.

Lemma encode_then_decode_witness :
  let a := {| buffer := 0; shape := [400%nat] |} in
  let save_audio := fun (_ : ndarray) (_ : Z) (_ : string) => (mret tt : M unit) in
  length (replicate 16 x07) = 16%nat /\ length (replicate 12 x09) = 12%nat
  /\ Standin.load_audio "a.wav" [] = ([replicate 400 0], Return (a, 44100))
  /\ valid [replicate 400 0] a
  /\ encrypt_message Standin.pbkdf2_hmac_sha256 Standin.aesgcm_encrypt
       Standin.utf8_encode (replicate 16 x07) (replicate 12 x09) "hi" "pw"
     = Return ([x68; x69; xff], replicate 16 x07, replicate 12 x09)
  /\ Z.of_nat (length [x68; x69; xff]) < 2 ^ 32
  /\ ((42 + length [x68; x69; xff]) * 8 <= size a)%nat
  /\ exists h2 encoded_audio,
       encode_worker Standin.sha256 Standin.rng Standin.Random Standin.randbelow
         Standin.load_audio Standin.pbkdf2_hmac_sha256 Standin.aesgcm_encrypt
         Standin.utf8_encode save_audio (replicate 16 x07) (replicate 12 x09)
         "a.wav" "hi" "pw" "b.wav" true []
       = save_audio encoded_audio 44100 "b.wav"%string h2
       /\ shape encoded_audio = [400%nat].
Proof.
  cbv zeta.
  assert (Hv : valid [replicate 400 0] {| buffer := 0; shape := [400%nat] |})
    by (exists (replicate 400 0); split; reflexivity).
  assert (Hr : Z.of_nat (length [x68; x69; xff]) < 2 ^ 32) by reflexivity.
  assert (Hfit : ((42 + length [x68; x69; xff]) * 8
                  <= size {| buffer := 0; shape := [400%nat] |})%nat)
    by (vm_compute; lia).
  split; [reflexivity|]. split; [reflexivity|]. split; [reflexivity|].
  split; [exact Hv|]. split; [reflexivity|]. split; [exact Hr|]. split; [exact Hfit|].
  destruct (encode_then_decode Standin.sha256 Standin.rng Standin.Random
              Standin.randbelow standin_randbelow_lt Standin.load_audio
              Standin.pbkdf2_hmac_sha256 Standin.aesgcm_encrypt Standin.aesgcm_decrypt
              Standin.utf8_encode Standin.utf8_decode
              (fun (_ : ndarray) (_ : Z) (_ : string) => (mret tt : M unit))
              (replicate 16 x07) (replicate 12 x09) "a.wav" "hi" "pw" "b.wav" true
              [] [replicate 400 0] {| buffer := 0; shape := [400%nat] |} 44100
              [x68; x69; xff] (replicate 16 x07) (replicate 12 x09)
              standin_aead_correct standin_utf8_correct eq_refl eq_refl eq_refl Hv
              eq_refl Hr Hfit)
    as (h2 & encoded_audio & Hrun & Hshape & _).
  exists h2, encoded_audio. split; [exact Hrun|exact Hshape].
Defined.

Lemma capacity_check_sufficient_witness :
  let a := {| buffer := 0; shape := [1000%nat] |} in
  Standin.load_long_audio "long.wav" [] = ([replicate 1000 0], Return (a, 44100))
  /\ valid [replicate 1000 0] a
  /\ (shape a = [1000%nat] \/ shape a = [1000%nat; 0%nat])
  /\ (calculate_capacity Standin.load_long_audio "long.wav" 1 []).2 = Return 83
  /\ 0 < 83
  /\ capacity_check Standin.utf8_encode "hi" 83 = true
  /\ Z.of_nat (length [x68; x69; xff])
     <= calculate_encrypted_size Standin.utf8_encode "hi" + 16
  /\ Z.of_nat (length [x68; x69; xff]) < 2 ^ 32
  /\ exists encoded_audio,
       (embed_message Standin.sha256 Standin.rng Standin.Random Standin.randbelow
          a [x68; x69; xff] (replicate 16 x07) (replicate 12 x09) 1 true
          [replicate 1000 0]).2 = Return encoded_audio.
Proof.
  cbv zeta.
  assert (Hv : valid [replicate 1000 0] {| buffer := 0; shape := [1000%nat] |})
    by (exists (replicate 1000 0); split; reflexivity).
  assert (Hcap : (calculate_capacity Standin.load_long_audio "long.wav" 1 []).2 = Return 83)
    by (vm_compute; reflexivity).
  assert (Hsize : Z.of_nat (length [x68; x69; xff])
                  <= calculate_encrypted_size Standin.utf8_encode "hi" + 16)
    by (vm_compute; discriminate).
  assert (Hr : Z.of_nat (length [x68; x69; xff]) < 2 ^ 32) by reflexivity.
  split; [reflexivity|]. split; [exact Hv|]. split; [left; reflexivity|].
  split; [exact Hcap|]. split; [lia|]. split; [reflexivity|].
  split; [exact Hsize|]. split; [exact Hr|].
  exact (capacity_check_sufficient Standin.sha256 Standin.rng Standin.Random
           Standin.randbelow standin_randbelow_lt Standin.load_long_audio
           Standin.utf8_encode "long.wav" "hi" 44100 [] [replicate 1000 0]
           {| buffer := 0; shape := [1000%nat] |} 1000 0 83 [x68; x69; xff]
           (replicate 16 x07) (replicate 12 x09) true
           eq_refl Hv (or_introl eq_refl) Hcap ltac:(lia) eq_refl Hsize Hr).
Defined.

Lemma generate_password_spec_witness :
  exists password s',
    generate_password Standin.rng Standin.randbelow 2 false false false false 7 12345
    = Return (password, s')
    /\ Z.of_nat (length password) = 4
    /\ Forall (fun cls => exists c, c ∈ password /\ c ∈ cls) [lowercase; uppercase; digits].
Proof.
  destruct (generate_password_spec Standin.rng Standin.randbelow standin_randbelow_lt
              2 false false false false 7 12345)
    as (password & s' & Hrun & Hlen & Hhas & _).
  exists password, s'. split; [exact Hrun|]. split; [exact Hlen|exact Hhas].
Defined.

Lemma generate_simple_password_spec_witness :
  exists password s',
    generate_simple_password Standin.rng Standin.randbelow 12 99 4242
    = Return (password, s')
    /\ Z.of_nat (length password) = 12
    /\ Forall (fun c => c ∉ symbols) password.
Proof.
  destruct (generate_simple_password_spec Standin.rng Standin.randbelow
              standin_randbelow_lt 12 99 4242)
    as (password & s' & Hrun & Hlen & Hall & _).
  exists password, s'. split; [exact Hrun|]. split; [exact Hlen|].
  eapply list.Forall_impl; [exact Hall|]. intros c [_ H]. exact H.
Defined.

Lemma generate_memorable_password_length_witness :
  0 <= 5
  /\ exists password s',
       generate_memorable_password Standin.rng Standin.randbelow 5 4242
       = Return (password, s')
       /\ Z.of_nat (length password) = 5.
Proof.
  split; [lia|].
  exact (generate_memorable_password_length Standin.rng Standin.randbelow
           standin_randbelow_lt 5 4242 ltac:(lia)).
Defined.
